(** * hyperliquid-node: the WebSocket proxy, its resolver and its log reader

    A shallow embedding of the Go packages [client], [proxy] and
    [hyperliquid] of hyperliquid-ws-proxy, followed by the properties the
    specification states about them.

    Conventions of the embedding
    - Go [int] and [int64] are [Z]; every arithmetic result is passed
      through [Go.wrap64].
    - A Go [string] or [[]byte] is a [string] (a sequence of bytes).
    - A Go [map] is a [gmap], a [map[K]bool] used as a set is a [gset]; the
      order in which [range] visits a map is unspecified in Go, so every
      function that ranges over a map takes the order as an argument
      ([proxy.range_order]).
    - A [*Client] is an address ([Go.ptr]); the objects live in a heap that
      is part of the state.
    - A buffered channel is its buffer, its capacity and its closed flag.
    - A function that can panic or park its goroutine returns a
      [Go.outcome].
    - Logging and the statistics counters have no effect on the state the
      properties talk about and are left out. *)

From Stdlib Require Import ZArith String Ascii List Lia DecimalString Sorted.
From stdpp Require Import gmap strings list fin_maps sets.

(** ** The Go run time *)

Module Go.

Definition ptr := nat.

(** Two's complement wrap-around of a 64-bit signed integer. *)
Definition int64_max : Z := 2 ^ 63 - 1.
Definition int64_min : Z := - 2 ^ 63.
Definition wrap64 (z : Z) : Z := ((z + 2 ^ 63) mod 2 ^ 64 - 2 ^ 63)%Z.
Definition add64 (a b : Z) : Z := wrap64 (a + b).
Definition sub64 (a b : Z) : Z := wrap64 (a - b).

(** [len(s)] *)
Definition len (s : string) : Z := Z.of_nat (String.length s).
Definition len_list {A} (l : list A) : Z := Z.of_nat (length l).

(** [strconv.Itoa] and the verb [%d] of [fmt.Sprintf]. *)
Definition Itoa (z : Z) : string := NilZero.string_of_int (Z.to_int z).

Definition newline : ascii := "010"%char.

(** [strings.Split(s, "\n")]: the pieces between the newlines; a string
    with n newlines has n+1 pieces, the last one possibly empty. *)
Fixpoint Split_lines (s : string) : list string :=
  match s with
  | EmptyString => [EmptyString]
  | String c rest =>
      match Split_lines rest with
      | [] => [String c EmptyString]
      | piece :: pieces =>
          if Ascii.eqb c newline then EmptyString :: piece :: pieces
          else String c piece :: pieces
      end
  end.

(** [strings.TrimSpace] removes the white space of Unicode
    ([unicode.IsSpace]) from both ends of a string, which it reads as
    UTF-8. White space is U+0009..U+000D, U+0020, U+0085, U+00A0, U+1680,
    U+2000..U+200A, U+2028, U+2029, U+202F, U+205F and U+3000. The first six
    are one byte each: *)
Definition isSpace (c : ascii) : bool :=
  let n := nat_of_ascii c in
  ((9 <=? n) && (n <=? 13))%nat || (n =? 32)%nat.

(** U+0085 and U+00A0 are the two bytes C2 85 and C2 A0: *)
Definition isSpace2 (a b : ascii) : bool :=
  let a := nat_of_ascii a in
  let b := nat_of_ascii b in
  ((a =? 194) && ((b =? 133) || (b =? 160)))%nat.

(** and the others are three bytes: E1 9A 80 (U+1680), E2 80 80..E2 80 8A
    (U+2000..U+200A), E2 80 A8, E2 80 A9, E2 80 AF (U+2028, U+2029, U+202F),
    E2 81 9F (U+205F) and E3 80 80 (U+3000). The decoder accepts no other
    encoding of these runes, and a byte that starts no valid encoding is
    read as U+FFFD, which is no white space. *)
Definition isSpace3 (a b c : ascii) : bool :=
  let a := nat_of_ascii a in
  let b := nat_of_ascii b in
  let c := nat_of_ascii c in
  ((a =? 225) && (b =? 154) && (c =? 128)
   || (a =? 226) && (b =? 128)
      && ((128 <=? c) && (c <=? 138) || (c =? 168) || (c =? 169) || (c =? 175))
   || (a =? 226) && (b =? 129) && (c =? 159)
   || (a =? 227) && (b =? 128) && (c =? 128))%nat.

(** [strings.TrimLeftFunc(s, unicode.IsSpace)]: runes are taken off the
    front while they are white space. *)
Fixpoint TrimLeft (s : string) : string :=
  match s with
  | EmptyString => EmptyString
  | String a rest =>
      if isSpace a then TrimLeft rest
      else
        match rest with
        | EmptyString => s
        | String b rest2 =>
            if isSpace2 a b then TrimLeft rest2
            else
              match rest2 with
              | EmptyString => s
              | String c rest3 => if isSpace3 a b c then TrimLeft rest3 else s
              end
        end
  end.

(** [strings.TrimRightFunc(s, unicode.IsSpace)]: runes are taken off the
    end while they are white space. [bytes] is the string back to front, so
    that the last rune of the string is [c; b; a] for the encoding
    [a b c]. *)
Fixpoint TrimRight_reversed (bytes : list ascii) : list ascii :=
  match bytes with
  | [] => []
  | a :: rest =>
      if isSpace a then TrimRight_reversed rest
      else
        match rest with
        | [] => bytes
        | b :: rest2 =>
            if isSpace2 b a then TrimRight_reversed rest2
            else
              match rest2 with
              | [] => bytes
              | c :: rest3 =>
                  if isSpace3 c b a then TrimRight_reversed rest3 else bytes
              end
        end
  end.

Definition TrimRight (s : string) : string :=
  string_of_list_ascii
    (List.rev (TrimRight_reversed (List.rev (list_ascii_of_string s)))).

Definition TrimSpace (s : string) : string := TrimRight (TrimLeft s).

(** [s[from:from+n]] of a byte sequence, clipped to what exists. *)
Fixpoint drop_bytes (n : nat) (s : string) : string :=
  match n, s with
  | O, _ => s
  | S n', String _ rest => drop_bytes n' rest
  | S _, EmptyString => EmptyString
  end.

Fixpoint take_bytes (n : nat) (s : string) : string :=
  match n, s with
  | S n', String c rest => String c (take_bytes n' rest)
  | _, _ => EmptyString
  end.

(** How a call ends: it returns, it panics (the process dies), or its
    goroutine is parked on a channel operation that cannot proceed; the
    state reached so far is visible to the other goroutines. *)
Inductive outcome (A : Type) : Type :=
| Returns (a : A)
| Panics
| Blocks (a : A).
Arguments Returns {A} a.
Arguments Panics {A}.
Arguments Blocks {A} a.

(** Sequencing of two parts of one call over the same state. *)
Definition and_then {A} (m : outcome A) (k : A -> outcome A) : outcome A :=
  match m with
  | Returns a => k a
  | Panics => Panics
  | Blocks a => Blocks a
  end.

(** The call returned. *)
Definition returns {A} (o : outcome A) : bool :=
  match o with
  | Returns _ => true
  | _ => false
  end.

(** *** Buffered channels *)

Record chan (A : Type) : Type := mkchan {
  buf : list A;
  cap : nat;
  closed : bool
}.
Arguments mkchan {A} buf cap closed.
Arguments buf {A} c.
Arguments cap {A} c.
Arguments closed {A} c.

(** [make(chan A, n)] *)
Definition make {A} (n : nat) : chan A := mkchan [] n false.

Definition full {A} (c : chan A) : bool := (cap c <=? length (buf c))%nat.

Definition enqueue {A} (c : chan A) (a : A) : chan A :=
  mkchan (buf c ++ [a]) (cap c) (closed c).

(** [select { case c <- a: ... default: ... }]. A send on a closed
    channel panics, also inside a select with a default case. *)
Inductive select_send_result (A : Type) : Type :=
| Sent (c : chan A)
| Default
| SendOnClosed.
Arguments Sent {A} c.
Arguments Default {A}.
Arguments SendOnClosed {A}.

Definition select_send {A} (c : chan A) (a : A) : select_send_result A :=
  if closed c then SendOnClosed
  else if full c then Default
  else Sent (enqueue c a).

(** [close(c)]; closing a closed channel panics. *)
Definition close {A} (c : chan A) : option (chan A) :=
  if closed c then None else Some (mkchan (buf c) (cap c) true).

End Go.

(** ** Package [types] *)

Module types.

Module SubscriptionRequest.
Record t : Type := mk {
  Type_ : string;
  User : string;
  Coin : string;
  Interval : string;
  Dex : string;
  NSigFigs : option Z;
  Mantissa : option Z;
  AggregateByTime : option bool
}.
End SubscriptionRequest.

Module PostRequest.
Record t : Type := mk { Type_ : string; Payload : string }.
End PostRequest.

Module PostResponseInner.
Record t : Type := mk { Type_ : string; Payload : string }.
End PostResponseInner.

Module PostResponse.
Record t : Type := mk { ID : Z; Response : PostResponseInner.t }.
End PostResponse.

Module WSMessage.
Record t : Type := mk {
  Method : string;
  Subscription : option SubscriptionRequest.t;
  Channel : string;
  Data : string;
  ID : option Z;
  Request : option PostRequest.t
}.
End WSMessage.

Module WsTrade.
Record t : Type := mk {
  Coin : string;
  Side : string;
  Px : string;
  Sz : string;
  Hash : string;
  Time : Z;
  TID : Z;
  Users : string * string
}.
End WsTrade.

(** What travels on a session's outbound queue. The Go code queues the
    JSON encoding of these values; the embedding keeps the value that is
    encoded. [Raw] is a payload relayed as it was received. *)
Inductive frame : Type :=
| Raw (data : string)
| SubscriptionResponse (method : string) (sub : SubscriptionRequest.t)
| ErrorReply (error : string) (time : Z)
| AllMids (mids : gmap string string)
| Trades (trade : WsTrade.t)
| Post (response : PostResponse.t)
| PostError (id : Z) (errorMsg : string).

End types.

(** ** Package [proxy]: the asset resolver ([AssetFetcher]) *)

Module asset_fetcher.

Record AssetInfo : Type := mkAssetInfo {
  Index : Z;
  Name : string;
  SzDecimals : Z;
  MaxLeverage : Z;
  IsSpot : bool;
  TokenIndex : Z
}.

Record AssetFetcher : Type := mkAssetFetcher {
  perpAssets : gmap Z AssetInfo;
  spotAssets : gmap Z AssetInfo;
  assetsByName : gmap string AssetInfo;
  lastUpdated : Z
}.

Module PerpMeta.
Record t : Type := mk { Name : string; SzDecimals : Z; MaxLeverage : Z }.
End PerpMeta.

Module HyperliquidMetaResponse.
Record t : Type := mk { Universe : list PerpMeta.t }.
End HyperliquidMetaResponse.

Module SpotToken.
Record t : Type := mk { Name : string; Index : Z; SzDecimals : Z }.
End SpotToken.

Module SpotPair.
Record t : Type := mk { Name : string; Tokens : list Z; Index : Z }.
End SpotPair.

Module HyperliquidSpotMetaResponse.
Record t : Type := mk { Tokens : list SpotToken.t; Universe : list SpotPair.t }.
End HyperliquidSpotMetaResponse.

(** What [http.Post] followed by the decoding of the body gives: the
    request fails, or a status code comes back with a body that decodes
    ([Some]) or does not ([None]). *)
Inductive http_reply (A : Type) : Type :=
| RequestFailed
| Reply (StatusCode : Z) (decoded : option A).
Arguments RequestFailed {A}.
Arguments Reply {A} StatusCode decoded.

(** [NewAssetFetcher] *)
Definition NewAssetFetcher : AssetFetcher := mkAssetFetcher ∅ ∅ ∅ 0.

(** The loop of [fetchPerpetuals]: [for i, asset := range metaResp.Universe]. *)
Fixpoint fetchPerpetuals_loop (i : Z) (universe : list PerpMeta.t)
    (af : AssetFetcher) : AssetFetcher :=
  match universe with
  | [] => af
  | asset :: rest =>
      let assetInfo :=
        mkAssetInfo i (PerpMeta.Name asset) (PerpMeta.SzDecimals asset)
                    (PerpMeta.MaxLeverage asset) false 0 in
      fetchPerpetuals_loop (Go.add64 i 1) rest
        (mkAssetFetcher (<[i := assetInfo]> (perpAssets af))
                        (spotAssets af)
                        (<[PerpMeta.Name asset := assetInfo]> (assetsByName af))
                        (lastUpdated af))
  end.

(** [fetchPerpetuals]: the new state and the error, if any. The errors of
    [http.Post] and of the decoder are wrapped; their text, which follows
    the colon, is the library's and is not kept. *)
Definition fetchPerpetuals (reply : http_reply HyperliquidMetaResponse.t)
    (af : AssetFetcher) : AssetFetcher * option string :=
  match reply with
  | RequestFailed => (af, Some "failed to make request: "%string)
  | Reply code decoded =>
      if negb (code =? 200)%Z
      then (af, Some ("API returned non-200 status: " ++ Go.Itoa code)%string)
      else match decoded with
           | None => (af, Some "failed to decode response: "%string)
           | Some metaResp =>
               (fetchPerpetuals_loop 0 (HyperliquidMetaResponse.Universe metaResp) af,
                None)
           end
  end.

(** [tokenMap[token.Index] = token.Name] for every token. *)
Definition tokenMap_of (tokens : list SpotToken.t) : gmap Z string :=
  fold_left (fun m token => <[SpotToken.Index token := SpotToken.Name token]> m)
            tokens ∅.

(** [tokenMap[k]], the empty string for a missing key. *)
Definition tokenMap_get (tokenMap : gmap Z string) (k : Z) : string :=
  default EmptyString (tokenMap !! k).

(** The display name of a spot pair. *)
Definition spot_assetName (tokenMap : gmap Z string) (pair : SpotPair.t) : string :=
  match SpotPair.Tokens pair with
  | t0 :: _ :: _ =>
      if (t0 =? 1)%Z && negb (String.eqb (tokenMap_get tokenMap 1) EmptyString)
      then (tokenMap_get tokenMap t0 ++ "/USDC")%string
      else if negb (t0 =? 0)%Z && negb (t0 =? 1)%Z
      then ("@" ++ Go.Itoa (SpotPair.Index pair))%string
      else SpotPair.Name pair
  | _ => SpotPair.Name pair
  end.

(** The loop of [fetchSpotAssets]: [for _, pair := range spotResp.Universe]. *)
Definition fetchSpotAssets_loop (tokenMap : gmap Z string)
    (universe : list SpotPair.t) (af : AssetFetcher) : AssetFetcher :=
  fold_left
    (fun af pair =>
       let assetName := spot_assetName tokenMap pair in
       let id := Go.add64 10000 (SpotPair.Index pair) in
       let assetInfo := mkAssetInfo id assetName 0 0 true (SpotPair.Index pair) in
       mkAssetFetcher (perpAssets af)
                      (<[id := assetInfo]> (spotAssets af))
                      (<[assetName := assetInfo]> (assetsByName af))
                      (lastUpdated af))
    universe af.

Definition fetchSpotAssets (reply : http_reply HyperliquidSpotMetaResponse.t)
    (af : AssetFetcher) : AssetFetcher * option string :=
  match reply with
  | RequestFailed => (af, Some "failed to make request: "%string)
  | Reply code decoded =>
      if negb (code =? 200)%Z
      then (af, Some ("API returned non-200 status: " ++ Go.Itoa code)%string)
      else match decoded with
           | None => (af, Some "failed to decode response: "%string)
           | Some spotResp =>
               let tokenMap := tokenMap_of (HyperliquidSpotMetaResponse.Tokens spotResp) in
               (fetchSpotAssets_loop tokenMap
                  (HyperliquidSpotMetaResponse.Universe spotResp) af, None)
           end
  end.

(** [fetchAssets]: one refresh. [perp] and [spot] are what the two
    metadata queries answer, [now] is the clock. *)
Definition fetchAssets (perp : http_reply HyperliquidMetaResponse.t)
    (spot : http_reply HyperliquidSpotMetaResponse.t) (now : Z)
    (af : AssetFetcher) : AssetFetcher * option string :=
  match fetchPerpetuals perp af with
  | (af1, Some err) => (af1, Some ("failed to fetch perpetuals: " ++ err)%string)
  | (af1, None) =>
      match fetchSpotAssets spot af1 with
      | (af2, Some err) => (af2, Some ("failed to fetch spot assets: " ++ err)%string)
      | (af2, None) =>
          (mkAssetFetcher (perpAssets af2) (spotAssets af2) (assetsByName af2) now,
           None)
      end
  end.

(** [GetAssetByID]: [Some asset] is Go's [(asset, true)], [None] is
    [(nil, false)]. *)
Definition GetAssetByID (af : AssetFetcher) (id : Z) : option AssetInfo :=
  match perpAssets af !! id with
  | Some asset => Some asset
  | None =>
      match spotAssets af !! id with
      | Some asset => Some asset
      | None => None
      end
  end.

(** [GetAssetByName] *)
Definition GetAssetByName (af : AssetFetcher) (name : string) : option AssetInfo :=
  assetsByName af !! name.

End asset_fetcher.

(** ** Package [proxy]: the reader of the node's log ([LocalNodeReader])

    The records keep the fields the reader uses; the signature of an
    action and the hard-fork and response fields of a block are never read
    and are left out. *)

Module local_node_reader.
Import types asset_fetcher.

Module Order.
Record t : Type := mk {
  Asset : Z;
  IsBuy : bool;
  Price : string;
  Size : string;
  ReduceOnly : bool;
  TIF : string;
  ClientOrderID : string
}.
End Order.

Module Cancel.
Record t : Type := mk { Asset : Z; Cloid : string }.
End Cancel.

Module ActionData.
Record t : Type := mk {
  Type_ : string;
  Orders : list Order.t;
  Cancels : list Cancel.t;
  Grouping : string;
  Time : Z
}.
End ActionData.

Module SignedAction.
Record t : Type := mk {
  VaultAddress : string;
  Action : ActionData.t;
  Nonce : Z
}.
End SignedAction.

Module SignedActionBundle.
Record t : Type := mk {
  Hash : string;
  SignedActions : list SignedAction.t;
  Broadcaster : string;
  BroadcasterNonce : Z
}.
End SignedActionBundle.

(** A decoded block. An element of a bundle is an [interface{}] in Go; it
    is kept as the JSON text [json.Marshal] gives back for it. *)
Module HyperliquidNodeBlock.
Record t : Type := mk {
  Time : string;
  SignedActionBundles : list (list string);
  Round : Z;
  ParentRound : Z;
  Proposer : string
}.
End HyperliquidNodeBlock.

(** The library functions the reader calls and the clock. *)
Record Env : Type := mkEnv {
  (** [json.Unmarshal] of a log line into a block *)
  json_Unmarshal_block : string -> option HyperliquidNodeBlock.t;
  (** [json.Unmarshal] of the body of a bundle *)
  json_Unmarshal_bundle : string -> option SignedActionBundle.t;
  (** [time.Parse(time.RFC3339, s)] followed by [UnixMilli] *)
  time_Parse_RFC3339 : string -> option Z;
  (** the n-th reading of [time.Now()], in milliseconds and nanoseconds *)
  time_Now_UnixMilli : nat -> Z;
  time_Now_UnixNano : nat -> Z
}.

(** The directory tree and the files of the node. [ReadDir] lists the
    entries of a directory with their [IsDir] flag. *)
Record FS : Type := mkFS {
  ReadDir : string -> option (list (string * bool));
  ReadFile : string -> option string
}.

Record LocalNodeReader : Type := mkReader {
  dataPath : string;
  isRunning : bool;
  (** [blocksChan], capacity 1000, never closed *)
  blocksChan : list HyperliquidNodeBlock.t;
  lastReadFiles : gmap string Z;
  latestBlocks : list HyperliquidNodeBlock.t;
  latestTrades : gmap string (list WsTrade.t);
  latestPrices : gmap string string;
  assetFetcher : option AssetFetcher;
  (** how many times the clock has been read *)
  clock : nat
}.

Definition NewLocalNodeReader (dataPath : string) (assetFetcher : option AssetFetcher)
    : LocalNodeReader :=
  mkReader dataPath false [] ∅ [] ∅ ∅ assetFetcher 0.

Definition set_lastReadFiles (m : gmap string Z) (r : LocalNodeReader) :=
  mkReader (dataPath r) (isRunning r) (blocksChan r) m (latestBlocks r)
           (latestTrades r) (latestPrices r) (assetFetcher r) (clock r).

(** [getAssetSymbol] *)
Definition getAssetSymbol (r : LocalNodeReader) (assetID : Z) : string :=
  match assetFetcher r with
  | None => ("ASSET_" ++ Go.Itoa assetID)%string
  | Some af =>
      match GetAssetByID af assetID with
      | Some asset => Name asset
      | None =>
          match GetAssetByID af (Go.add64 10000 assetID) with
          | Some asset => Name asset
          | None =>
              if (0 <? assetID)%Z && (assetID <? 1000)%Z
              then ("@" ++ Go.Itoa assetID)%string
              else ("ASSET_" ++ Go.Itoa assetID)%string
          end
      end
  end.

(** [parseBlockTime]: the time and whether the clock was read. *)
Definition parseBlockTime (E : Env) (tick : nat) (timeStr : string) : Z * nat :=
  match time_Parse_RFC3339 E timeStr with
  | None => (time_Now_UnixMilli E tick, S tick)
  | Some t => (t, tick)
  end.

(** [s[len(s)-n:]] when [len(s) > n] *)
Definition keep_last {A} (n : nat) (s : list A) : list A :=
  if (n <? length s)%nat then drop (length s - n) s else s.

(** The body of the loop of [processOrders]: one order. *)
Definition processOrder (E : Env) (blockTime userAddress : string)
    (r : LocalNodeReader) (order : Order.t) : LocalNodeReader :=
  let symbol := getAssetSymbol r (Order.Asset order) in
  let '(time, tick) := parseBlockTime E (clock r) blockTime in
  let trade :=
    WsTrade.mk symbol
               (if Order.IsBuy order then "buy" else "sell")%string
               (Order.Price order)
               (Order.Size order)
               (Order.ClientOrderID order)
               time
               (time_Now_UnixNano E tick)
               (userAddress, EmptyString) in
  let trades := default [] (latestTrades r !! symbol) ++ [trade] in
  mkReader (dataPath r) (isRunning r) (blocksChan r) (lastReadFiles r)
           (latestBlocks r)
           (<[symbol := keep_last 1000 trades]> (latestTrades r))
           (<[symbol := Order.Price order]> (latestPrices r))
           (assetFetcher r) (S tick).

(** [processOrders] *)
Definition processOrders (E : Env) (orders : list Order.t)
    (blockTime userAddress : string) (r : LocalNodeReader) : LocalNodeReader :=
  fold_left (processOrder E blockTime userAddress) orders r.

(** [processCancellations] resolves the symbol of every cancel and logs
    it; the state is not touched. *)
Definition processCancellations (cancels : list Cancel.t)
    (blockTime userAddress : string) (r : LocalNodeReader) : LocalNodeReader := r.

(** [processSignedAction] *)
Definition processSignedAction (E : Env) (blockTime : string)
    (r : LocalNodeReader) (action : SignedAction.t) : LocalNodeReader :=
  let a := SignedAction.Action action in
  if String.eqb (ActionData.Type_ a) "order" then
    processOrders E (ActionData.Orders a) blockTime (SignedAction.VaultAddress action) r
  else if String.eqb (ActionData.Type_ a) "cancelByCloid" then
    processCancellations (ActionData.Cancels a) blockTime (SignedAction.VaultAddress action) r
  else r.

(** [processSignedActionBundle] *)
Definition processSignedActionBundle (E : Env) (blockTime : string)
    (r : LocalNodeReader) (bundleArray : list string) : LocalNodeReader :=
  match bundleArray with
  | _ :: bundleData :: _ =>
      match json_Unmarshal_bundle E bundleData with
      | None => r
      | Some bundle =>
          fold_left (processSignedAction E blockTime)
                    (SignedActionBundle.SignedActions bundle) r
      end
  | _ => r
  end.

(** [processBlock] *)
Definition processBlock (E : Env) (r : LocalNodeReader)
    (block : HyperliquidNodeBlock.t) : LocalNodeReader :=
  let r1 :=
    mkReader (dataPath r) (isRunning r) (blocksChan r) (lastReadFiles r)
             (keep_last 100 (latestBlocks r ++ [block]))
             (latestTrades r) (latestPrices r) (assetFetcher r) (clock r) in
  let r2 :=
    fold_left (processSignedActionBundle E (HyperliquidNodeBlock.Time block))
              (HyperliquidNodeBlock.SignedActionBundles block) r1 in
  if (length (blocksChan r2) <? 1000)%nat then
    mkReader (dataPath r2) (isRunning r2) (blocksChan r2 ++ [block])
             (lastReadFiles r2) (latestBlocks r2) (latestTrades r2)
             (latestPrices r2) (assetFetcher r2) (clock r2)
  else r2.

(** [GetLatestPrice] *)
Definition GetLatestPrice (r : LocalNodeReader) (coin : string) : option string :=
  latestPrices r !! coin.

(** [GetLatestTrades] *)
Definition GetLatestTrades (r : LocalNodeReader) (coin : string) (limit : Z)
    : list WsTrade.t :=
  match latestTrades r !! coin with
  | None => []
  | Some trades =>
      if (0 <? limit)%Z && (limit <? Go.len_list trades)%Z
      then drop (length trades - Z.to_nat limit) trades
      else trades
  end.

(** [strings.Split(path, "/")]: the elements between the separators. *)
Fixpoint path_elements (path : string) : list string :=
  match path with
  | EmptyString => [EmptyString]
  | String c rest =>
      match path_elements rest with
      | [] => [String c EmptyString]
      | element :: elements =>
          if Ascii.eqb c "/" then EmptyString :: element :: elements
          else String c element :: elements
      end
  end.

(** One element of the loop of [filepath.Clean]. [kept] is what has been
    written, the last element first. An empty element and [.] are dropped;
    [..] takes the element before it away, is dropped at the root, and
    is kept at the front of a path that is not rooted. *)
Definition Clean_element (rooted : bool) (kept : list string) (element : string)
    : list string :=
  if String.eqb element EmptyString || String.eqb element "." then kept
  else if String.eqb element ".." then
    match kept with
    | last :: before => if String.eqb last ".." then element :: kept else before
    | [] => if rooted then [] else [element]
    end
  else element :: kept.

(** [filepath.Clean], with [/] as the separator and no volume names. *)
Definition Clean (path : string) : string :=
  match path with
  | EmptyString => "."%string
  | String c _ =>
      let rooted := Ascii.eqb c "/" in
      let kept := fold_left (Clean_element rooted) (path_elements path) [] in
      let cleaned := String.concat "/" (rev kept) in
      if rooted then ("/" ++ cleaned)%string
      else if String.eqb cleaned EmptyString then "."%string
      else cleaned
  end.

(** [filepath.Join] of a directory and a name: the two are joined by a
    separator from the first one that is not empty, and the result is
    cleaned. *)
Definition Join (dir name : string) : string :=
  if negb (String.eqb dir EmptyString) then Clean (dir ++ "/" ++ name)
  else if negb (String.eqb name EmptyString) then Clean name
  else EmptyString.

(** [sort.Strings]: ascending byte-wise order. *)
Fixpoint insert_sorted (x : string) (l : list string) : list string :=
  match l with
  | [] => [x]
  | y :: l' => if String.leb x y then x :: l else y :: insert_sorted x l'
  end.

Definition sort_Strings (l : list string) : list string :=
  fold_right insert_sorted [] l.

Definition MiB100 : Z := 100 * 1024 * 1024.

(** The loop of [readBlockFile]: [for i, line := range lines], with the
    position reached so far. *)
Fixpoint readBlockFile_loop (E : Env) (nlines bytesRead remainingSize fromPos size : Z)
    (i : Z) (lines : list string) (newPos : Z) (r : LocalNodeReader)
    : Z * LocalNodeReader :=
  match lines with
  | [] => (newPos, r)
  | line :: rest =>
      let continue := readBlockFile_loop E nlines bytesRead remainingSize fromPos size
                        (i + 1) rest in
      let line := Go.TrimSpace line in
      if String.eqb line EmptyString then continue newPos r
      else
        (* Update position (except for the last line which might be incomplete) *)
        let newPos :=
          if (i <? nlines - 1)%Z then Go.add64 newPos (Go.add64 (Go.len line) 1)
          else newPos in
        (* Skip incomplete last line if we didn't read the entire file *)
        if (i =? nlines - 1)%Z && (bytesRead =? remainingSize)%Z
           && (Go.add64 fromPos bytesRead <? size)%Z
        then continue newPos r
        else
          match json_Unmarshal_block E line with
          | None => continue newPos r
          | Some block =>
              let r := processBlock E r block in
              (* Update position for complete lines *)
              let newPos :=
                if (i =? nlines - 1)%Z
                   && ((bytesRead <? remainingSize)%Z
                       || (size <=? Go.add64 fromPos bytesRead)%Z)
                then Go.add64 newPos (Go.len line)
                else newPos in
              continue newPos r
          end
  end.

(** [readBlockFile] *)
Definition readBlockFile (E : Env) (fs : FS) (filePath : string) (fromPos : Z)
    (r : LocalNodeReader) : LocalNodeReader :=
  match ReadFile fs filePath with
  | None => r
  | Some file =>
      let size := Go.len file in
      if (size <=? fromPos)%Z then r
      else
        let remainingSize := Go.sub64 size fromPos in
        let remainingSize :=
          if (MiB100 <? remainingSize)%Z then MiB100 else remainingSize in
        (* Seek, then Read into a buffer of remainingSize bytes *)
        let start := if (0 <? fromPos)%Z then fromPos else 0%Z in
        let content :=
          Go.take_bytes (Z.to_nat remainingSize) (Go.drop_bytes (Z.to_nat start) file) in
        let bytesRead := Go.len content in
        if (bytesRead =? 0)%Z then r
        else
          let lines := Go.Split_lines content in
          let '(newPos, r) :=
            readBlockFile_loop E (Go.len_list lines) bytesRead remainingSize fromPos
                               size 0 lines fromPos r in
          set_lastReadFiles (<[filePath := newPos]> (lastReadFiles r)) r
  end.

(** [scanBlockFiles] *)
Definition scanBlockFiles (E : Env) (fs : FS) (dirPath : string)
    (r : LocalNodeReader) : LocalNodeReader :=
  match ReadDir fs dirPath with
  | None => r
  | Some entries =>
      let fileNames :=
        sort_Strings (map fst (List.filter (fun e => negb (snd e)) entries)) in
      fold_left
        (fun r fileName =>
           let filePath := Join dirPath fileName in
           match ReadFile fs filePath with
           | None => r
           | Some file =>
               match lastReadFiles r !! filePath with
               | None => readBlockFile E fs filePath 0 r
               | Some lastReadPos =>
                   if (lastReadPos <? Go.len file)%Z
                   then readBlockFile E fs filePath lastReadPos r
                   else r
               end
           end)
        fileNames r
  end.

(** [getMostRecentDirectory]: the last directory name in ascending order,
    the empty string when there is none. *)
Definition getMostRecentDirectory (fs : FS) (basePath : string) : string :=
  match ReadDir fs basePath with
  | None => EmptyString
  | Some entries =>
      let dirs := sort_Strings (map fst (List.filter (fun e => snd e) entries)) in
      List.last dirs EmptyString
  end.

(** [scanReplicaCmdsDirectory]: one scan tick. *)
Definition scanReplicaCmdsDirectory (E : Env) (fs : FS) (r : LocalNodeReader)
    : LocalNodeReader :=
  let replicaCmdsPath := Join (dataPath r) "replica_cmds" in
  match ReadDir fs replicaCmdsPath with
  | None => r
  | Some _ =>
      let recentTimestampDir := getMostRecentDirectory fs replicaCmdsPath in
      if String.eqb recentTimestampDir EmptyString then r
      else
        let timestampPath := Join replicaCmdsPath recentTimestampDir in
        let recentDateDir := getMostRecentDirectory fs timestampPath in
        if String.eqb recentDateDir EmptyString then r
        else scanBlockFiles E fs (Join timestampPath recentDateDir) r
  end.

End local_node_reader.

(** ** Package [hyperliquid]: the upstream connector *)

Module hyperliquid.
Import types.

Record Connector : Type := mkConnector {
  isConnected : bool;
  (** the messages the outgoing queue has accepted, oldest first *)
  outgoingMessages : list WSMessage.t;
  subscriptions : gmap string SubscriptionRequest.t;
  (** the response slots: one channel of capacity 1 per pending request *)
  postRequests : gmap Z (Go.chan PostResponse.t);
  nextRequestID : Z
}.

(** [NewConnector] *)
Definition NewConnector : Connector := mkConnector false [] ∅ ∅ 1.

(** [createSubscriptionKey] *)
Definition createSubscriptionKey (sub : SubscriptionRequest.t) : string :=
  let key := SubscriptionRequest.Type_ sub in
  let key := if negb (String.eqb (SubscriptionRequest.User sub) EmptyString)
             then (key ++ "-" ++ SubscriptionRequest.User sub)%string else key in
  let key := if negb (String.eqb (SubscriptionRequest.Coin sub) EmptyString)
             then (key ++ "-" ++ SubscriptionRequest.Coin sub)%string else key in
  let key := if negb (String.eqb (SubscriptionRequest.Interval sub) EmptyString)
             then (key ++ "-" ++ SubscriptionRequest.Interval sub)%string else key in
  let key := if negb (String.eqb (SubscriptionRequest.Dex sub) EmptyString)
             then (key ++ "-" ++ SubscriptionRequest.Dex sub)%string else key in
  key.

(** Durations are in milliseconds. *)
Definition send_timeout : Z := 5000.
Definition response_timeout : Z := 30000.

(** When the other side of a channel operation becomes ready, counted
    from the moment the caller starts to wait. *)
Inductive readiness (A : Type) : Type :=
| ReadyAfter (delay : Z) (a : A)
| NeverReady.
Arguments ReadyAfter {A} delay a.
Arguments NeverReady {A}.

(** [sendMessage]: [select] between the send on the outgoing queue and
    [time.After(5 * time.Second)]. The result is the new state, the error
    and the time spent waiting. When both cases are ready at the same
    instant Go may take either; the embedding takes the timer. *)
Definition sendMessage (queue : readiness unit) (message : WSMessage.t)
    (c : Connector) : Connector * option string * Z :=
  match queue with
  | ReadyAfter delay _ =>
      if (delay <? send_timeout)%Z then
        (mkConnector (isConnected c) (outgoingMessages c ++ [message])
                     (subscriptions c) (postRequests c) (nextRequestID c),
         None, Z.max 0 delay)
      else (c, Some "send timeout"%string, send_timeout)
  | NeverReady => (c, Some "send timeout"%string, send_timeout)
  end.

(** [Subscribe] *)
Definition Subscribe (queue : readiness unit) (subscription : SubscriptionRequest.t)
    (c : Connector) : Connector * option string :=
  if negb (isConnected c) then (c, Some "not connected to Hyperliquid"%string)
  else
    let key := createSubscriptionKey subscription in
    let c := mkConnector (isConnected c) (outgoingMessages c)
                         (<[key := subscription]> (subscriptions c))
                         (postRequests c) (nextRequestID c) in
    let message := WSMessage.mk "subscribe" (Some subscription) EmptyString EmptyString None None in
    let '(c, err, _) := sendMessage queue message c in (c, err).

(** [Unsubscribe] *)
Definition Unsubscribe (queue : readiness unit) (subscription : SubscriptionRequest.t)
    (c : Connector) : Connector * option string :=
  if negb (isConnected c) then (c, Some "not connected to Hyperliquid"%string)
  else
    let key := createSubscriptionKey subscription in
    let c := mkConnector (isConnected c) (outgoingMessages c)
                         (delete key (subscriptions c))
                         (postRequests c) (nextRequestID c) in
    let message := WSMessage.mk "unsubscribe" (Some subscription) EmptyString EmptyString None None in
    let '(c, err, _) := sendMessage queue message c in (c, err).

Record PostResult : Type := mkPostResult {
  (** the request ID, when one was assigned *)
  requestID : option Z;
  response : option PostResponse.t;
  err : option string;
  (** the time the caller spent waiting *)
  elapsed : Z
}.

(** The deferred function of [PostRequest]: delete the slot. *)
Definition delete_slot (requestID : Z) (c : Connector) : Connector :=
  mkConnector (isConnected c) (outgoingMessages c) (subscriptions c)
              (delete requestID (postRequests c)) (nextRequestID c).

(** [handlePostResponse]. [json_Unmarshal_response] decodes the frame as a
    [PostResponse]. *)
Definition handlePostResponse (json_Unmarshal_response : string -> option PostResponse.t)
    (requestID : Z) (data : string) (c : Connector) : Go.outcome Connector :=
  match postRequests c !! requestID with
  | None => Go.Returns c
  | Some responseChan =>
      match json_Unmarshal_response data with
      | None => Go.Returns c
      | Some response =>
          (* Send response to waiting goroutine *)
          match Go.select_send responseChan response with
          | Go.Sent ch =>
              Go.Returns
                (mkConnector (isConnected c) (outgoingMessages c) (subscriptions c)
                             (<[requestID := ch]> (postRequests c)) (nextRequestID c))
          | Go.Default => Go.Returns c
          | Go.SendOnClosed => Go.Panics
          end
      end
  end.

(** The first part of [PostRequest], up to the send: the request ID it
    takes, and what [sendMessage] gives when it is called on the state that
    holds the new slot. [queue] says when the outgoing queue takes the
    request. *)
Definition PostRequest_send (queue : readiness unit) (requestType payload : string)
    (c : Connector) : Z * (Connector * option string * Z) :=
  (* Generate request ID *)
  let requestID := nextRequestID c in
  (* Create response channel *)
  let c := mkConnector (isConnected c) (outgoingMessages c) (subscriptions c)
                       (<[requestID := Go.make 1]> (postRequests c))
                       (Go.add64 requestID 1) in
  (* Send request *)
  let message :=
    WSMessage.mk "post" None EmptyString EmptyString (Some requestID)
                 (Some (PostRequest.mk requestType payload)) in
  (requestID, sendMessage queue message c).

(** The response frame of a request, if the read loop receives it before
    the caller gives up: [reply] counts from the moment the request is in
    the outgoing queue. *)
Definition arrival (reply : readiness PostResponse.t) : option (Z * PostResponse.t) :=
  match reply with
  | ReadyAfter delay response =>
      if (delay <? response_timeout)%Z then Some (delay, response) else None
  | NeverReady => None
  end.

(** [<-responseChan]: what the caller finds in the channel of its slot. *)
Definition slot_content (requestID : Z) (c : Connector) : option PostResponse.t :=
  match postRequests c !! requestID with
  | Some responseChan => head (Go.buf responseChan)
  | None => None
  end.

(** [PostRequest]. While the caller waits, the read loop hands the response
    frame to [handlePostResponse], which puts it into the slot it finds
    under the request ID; the caller takes it from there. *)
Definition PostRequest (queue : readiness unit) (reply : readiness PostResponse.t)
    (requestType payload : string) (c : Connector) : Connector * PostResult :=
  if negb (isConnected c) then
    (c, mkPostResult None None (Some "not connected to Hyperliquid"%string) 0)
  else
    match PostRequest_send queue requestType payload c with
    | (requestID, (c, Some err, waited)) =>
        (delete_slot requestID c, mkPostResult (Some requestID) None (Some err) waited)
    | (requestID, (c, None, waited)) =>
        let timed_out :=
          mkPostResult (Some requestID) None (Some "request timeout"%string)
                       (waited + response_timeout) in
        match arrival reply with
        | Some (delay, frame) =>
            let c :=
              match handlePostResponse (fun _ => Some frame) requestID EmptyString c with
              | Go.Returns c' => c'
              | _ => c
              end in
            (* Wait for response with timeout *)
            match slot_content requestID c with
            | Some response =>
                (delete_slot requestID c,
                 mkPostResult (Some requestID) (Some response) None
                              (waited + Z.max 0 delay))
            | None => (delete_slot requestID c, timed_out)
            end
        | None => (delete_slot requestID c, timed_out)
        end
    end.


(** The reconnection settings and the retry counter of the [Connector].
    [retryInterval] is a [time.Duration], in nanoseconds. *)
Record Reconnection : Type := mkReconnection {
  maxRetries : Z;
  retryInterval : Z;
  currentRetries : Z
}.

Definition Second : Z := 1000000000.

(** The settings [NewConnector] gives. *)
Definition NewReconnection : Reconnection := mkReconnection 5 (5 * Second) 0.

(** [Connect]. [dial] says whether [websocket.DefaultDialer.Dial]
    succeeds. The goroutines it starts are the read loop, the write loop
    and [resubscribeAll]. *)
Definition Connect (dial : bool) (st : Connector * Reconnection)
    : Connector * Reconnection * option string :=
  let '(c, rc) := st in
  if dial then
    (mkConnector true (outgoingMessages c) (subscriptions c) (postRequests c)
                 (nextRequestID c),
     mkReconnection (maxRetries rc) (retryInterval rc) 0,
     None)
  else (c, rc, Some "failed to connect to Hyperliquid"%string).

(** [Disconnect] *)
Definition Disconnect (c : Connector) : Connector :=
  mkConnector false (outgoingMessages c) (subscriptions c) (postRequests c)
              (nextRequestID c).

(** [handleDisconnect]: the new state, and whether [attemptReconnect] is
    started. *)
Definition handleDisconnect (c : Connector) : Connector * bool :=
  let wasConnected := isConnected c in
  (mkConnector false (outgoingMessages c) (subscriptions c) (postRequests c)
               (nextRequestID c),
   wasConnected).

(** The loop of [attemptReconnect]:
    [for c.currentRetries < c.maxRetries]. [dial n] is the result of the
    n-th dial; [slept] collects the delays of [time.Sleep], oldest first.
    The counter grows by one in every round, so
    [maxRetries - currentRetries] rounds are enough. *)
Fixpoint attemptReconnect_loop (rounds : nat) (dial : nat -> bool) (n : nat)
    (st : Connector * Reconnection) (slept : list Z)
    : Connector * Reconnection * list Z :=
  let '(c, rc) := st in
  if (currentRetries rc <? maxRetries rc)%Z then
    match rounds with
    | O => (c, rc, slept)
    | S rounds =>
        let rc := mkReconnection (maxRetries rc) (retryInterval rc)
                                 (Go.add64 (currentRetries rc) 1) in
        let delay := Go.wrap64 (currentRetries rc * retryInterval rc) in
        match Connect (dial n) (c, rc) with
        | (c, rc, Some _) =>
            attemptReconnect_loop rounds dial (S n) (c, rc) (slept ++ [delay])
        | (c, rc, None) => (c, rc, slept ++ [delay])
        end
    end
  else (c, rc, slept).

(** [attemptReconnect] *)
Definition attemptReconnect (dial : nat -> bool) (st : Connector * Reconnection)
    : Connector * Reconnection * list Z :=
  attemptReconnect_loop (Z.to_nat (maxRetries (snd st) - currentRetries (snd st)))
                        dial 0 st [].

(** The second loop of [resubscribeAll]: [for _, sub := range subs].
    [queue n] says when the outgoing queue takes the n-th message. *)
Fixpoint resubscribe_loop (queue : nat -> readiness unit) (n : nat)
    (subs : list SubscriptionRequest.t) (c : Connector) : Connector :=
  match subs with
  | [] => c
  | sub :: rest => resubscribe_loop queue (S n) rest (fst (Subscribe (queue n) sub c))
  end.

(** [resubscribeAll]. [range] is the order in which the first loop visits
    the map of the tracked subscriptions. *)
Definition resubscribeAll
    (range : gmap string SubscriptionRequest.t -> list (string * SubscriptionRequest.t))
    (queue : nat -> readiness unit) (c : Connector) : Connector :=
  let subs := map snd (range (subscriptions c)) in
  resubscribe_loop queue 0 subs c.

(** The two heartbeat replies [processMessage] drops. *)
Definition quote : string := String (ascii_of_nat 34) EmptyString.
Definition pong_method : string :=
  ("{" ++ quote ++ "method" ++ quote ++ ":" ++ quote ++ "pong" ++ quote ++ "}")%string.
Definition pong_status : string :=
  ("{" ++ quote ++ "status" ++ quote ++ ":" ++ quote ++ "pong" ++ quote ++ "}")%string.

(** [processMessage]: the new state, and the frame [onMessage] is called
    with, if it is called. *)
Definition processMessage (json_Unmarshal : string -> option WSMessage.t)
    (json_Unmarshal_response : string -> option PostResponse.t)
    (data : string) (c : Connector) : Go.outcome Connector * option string :=
  if String.eqb data pong_method || String.eqb data pong_status
  then (Go.Returns c, None)
  else
    match json_Unmarshal data with
    | None => (Go.Returns c, None)
    | Some msg =>
        match WSMessage.ID msg with
        | Some id =>
            if String.eqb (WSMessage.Channel msg) "post"
            then (handlePostResponse json_Unmarshal_response id data c, None)
            else (Go.Returns c, Some data)
        | None => (Go.Returns c, Some data)
        end
    end.

End hyperliquid.

(** ** Package [client]: sessions and the hub *)

Module client.
Import types.

Record Client : Type := mkClient {
  Send : Go.chan frame;
  Subscriptions : gmap string SubscriptionRequest.t
}.

Record Hub : Type := mkHub {
  Clients : gset Go.ptr
}.

(** The Client objects, by address. *)
Definition Heap : Type := Go.ptr -> Client.

(** [NewClient] *)
Definition NewClient : Client := mkClient (Go.make 256) ∅.

(** [NewHub] *)
Definition NewHub : Hub := mkHub ∅.

Definition store (heap : Heap) (c : Go.ptr) (v : Client) : Heap :=
  fun c' => if decide (c' = c) then v else heap c'.

(** [AddSubscription] *)
Definition AddSubscription (key : string) (sub : SubscriptionRequest.t)
    (c : Client) : Client :=
  mkClient (Send c) (<[key := sub]> (Subscriptions c)).

(** [RemoveSubscription] *)
Definition RemoveSubscription (key : string) (c : Client) : Client :=
  mkClient (Send c) (delete key (Subscriptions c)).

(** [SendMessage]: a non-blocking send of the encoded message. The error
    it returns when the queue is full is dropped by every caller. *)
Definition SendMessage (message : frame) (c : Client) : Go.outcome Client :=
  match Go.select_send (Send c) message with
  | Go.Sent ch => Go.Returns (mkClient ch (Subscriptions c))
  | Go.Default => Go.Returns c
  | Go.SendOnClosed => Go.Panics
  end.

(** [c.Send <- message]: a blocking send. *)
Definition blocking_send (message : frame) (c : Client) : Go.outcome Client :=
  if Go.closed (Send c) then Go.Panics
  else if Go.full (Send c) then Go.Blocks c
  else Go.Returns (mkClient (Go.enqueue (Send c) message) (Subscriptions c)).

(** The three cases of the loop of [Hub.Run]. *)

(** [case client := <-h.Register] *)
Definition Run_Register (client : Go.ptr) (h : Hub) : Hub :=
  mkHub ({[client]} ∪ Clients h).

(** [case client := <-h.Unregister] *)
Definition Run_Unregister (client : Go.ptr) (st : Hub * Heap) : Go.outcome (Hub * Heap) :=
  let '(h, heap) := st in
  if decide (client ∈ Clients h) then
    match Go.close (Send (heap client)) with
    | None => Go.Panics
    | Some ch =>
        Go.Returns (mkHub (Clients h ∖ {[client]}),
                    store heap client (mkClient ch (Subscriptions (heap client))))
    end
  else Go.Returns st.

(** [case message := <-h.Broadcast], visiting the clients in the order
    [order]. *)
Fixpoint Run_Broadcast (message : frame) (order : list Go.ptr) (st : Hub * Heap)
    : Go.outcome (Hub * Heap) :=
  match order with
  | [] => Go.Returns st
  | client :: rest =>
      let '(h, heap) := st in
      match Go.select_send (Send (heap client)) message with
      | Go.Sent ch =>
          Run_Broadcast message rest
            (h, store heap client (mkClient ch (Subscriptions (heap client))))
      | Go.Default =>
          match Go.close (Send (heap client)) with
          | None => Go.Panics
          | Some ch =>
              Run_Broadcast message rest
                (mkHub (Clients h ∖ {[client]}),
                 store heap client (mkClient ch (Subscriptions (heap client))))
          end
      | Go.SendOnClosed => Go.Panics
      end
  end.

(** What [writePump] writes to the connection when it wakes up. *)
Inductive written : Type :=
| TextMessage (payload : string)
| CloseMessage.

(** The case [message, ok := <-c.Send] of the loop of [writePump], with a
    connection that takes the write. [bytes_of] gives the bytes of a
    queued frame. The message received is written, then the
    [n := len(c.Send)] messages still queued, each after a newline.
    [None]: the queue is open and empty, the goroutine waits. *)
Definition writePump_Send (bytes_of : frame -> string) (c : Client)
    : option (written * Client) :=
  match Go.buf (Send c) with
  | message :: queued =>
      let w :=
        fold_left
          (fun w m => (w ++ String Go.newline EmptyString ++ bytes_of m)%string)
          queued (bytes_of message) in
      Some (TextMessage w,
            mkClient (Go.mkchan [] (Go.cap (Send c)) (Go.closed (Send c)))
                     (Subscriptions c))
  | [] => if Go.closed (Send c) then Some (CloseMessage, c) else None
  end.

End client.

(** ** Package [proxy]: the subscription registry ([Proxy]) *)

Module proxy.
Import types asset_fetcher local_node_reader.

Record SubscriptionInfo : Type := mkSubscriptionInfo {
  Subscription : SubscriptionRequest.t;
  Clients : gset Go.ptr;
  LastMessage : option frame;
  LastUpdate : Z
}.

(** The goroutines [handleSubscribe] and [handleUnsubscribe] start. *)
Inductive goroutine : Type :=
| go_Subscribe (c : Go.ptr) (sub : SubscriptionRequest.t) (key : string)
| go_Unsubscribe (sub : SubscriptionRequest.t).

Record Proxy : Type := mkProxy {
  hub : client.Hub;
  hlConnector : option hyperliquid.Connector;
  globalSubscriptions : gmap string SubscriptionInfo;
  localNodeReader : option LocalNodeReader;
  useLocalNode : bool;
  (** the Client objects the pointers refer to *)
  heap : client.Heap;
  (** the goroutines started and not yet run *)
  goroutines : list goroutine
}.

(** The order in which [range] visits the three maps of
    [forwardMessageToClients]: any enumeration of their entries. *)
Record range_order : Type := mkOrder {
  range_subs : gmap string SubscriptionInfo -> list (string * SubscriptionInfo);
  range_subs_perm : forall m, range_subs m ≡ₚ map_to_list m;
  range_clients : gset Go.ptr -> list Go.ptr;
  range_clients_perm : forall s, range_clients s ≡ₚ elements s;
  range_removals : gmap Go.ptr (list string) -> list (Go.ptr * list string);
  range_removals_perm : forall m, range_removals m ≡ₚ map_to_list m
}.

Definition some_order : range_order :=
  mkOrder map_to_list (fun _ => reflexivity _)
          elements (fun _ => reflexivity _)
          map_to_list (fun _ => reflexivity _).

(** What the environment contributes to one step: the decoder of
    downstream frames, the clock (seconds), the upstream's readiness and
    the iteration order. *)
Record Env : Type := mkEnv {
  json_Unmarshal : string -> option WSMessage.t;
  time_Now : Z;
  upstream_queue : hyperliquid.readiness unit;
  upstream_reply : hyperliquid.readiness PostResponse.t;
  order : range_order
}.

(** [NewProxy] *)
Definition NewProxy (EnableLocalNode : bool) (LocalNodeDataPath : string) : Proxy :=
  if EnableLocalNode then
    mkProxy client.NewHub None ∅ (Some (NewLocalNodeReader LocalNodeDataPath None))
            true (fun _ => client.NewClient) []
  else
    mkProxy client.NewHub (Some hyperliquid.NewConnector) ∅ None
            false (fun _ => client.NewClient) [].

Definition set_hub (h : client.Hub) (p : Proxy) : Proxy :=
  mkProxy h (hlConnector p) (globalSubscriptions p) (localNodeReader p)
          (useLocalNode p) (heap p) (goroutines p).
Definition set_hlConnector (c : option hyperliquid.Connector) (p : Proxy) : Proxy :=
  mkProxy (hub p) c (globalSubscriptions p) (localNodeReader p)
          (useLocalNode p) (heap p) (goroutines p).
Definition set_globalSubscriptions (m : gmap string SubscriptionInfo) (p : Proxy) : Proxy :=
  mkProxy (hub p) (hlConnector p) m (localNodeReader p)
          (useLocalNode p) (heap p) (goroutines p).
Definition set_heap (h : client.Heap) (p : Proxy) : Proxy :=
  mkProxy (hub p) (hlConnector p) (globalSubscriptions p) (localNodeReader p)
          (useLocalNode p) h (goroutines p).
Definition set_goroutines (g : list goroutine) (p : Proxy) : Proxy :=
  mkProxy (hub p) (hlConnector p) (globalSubscriptions p) (localNodeReader p)
          (useLocalNode p) (heap p) g.

(** A method of [*Client] applied to the object at [c]. *)
Definition on_client (c : Go.ptr) (f : client.Client -> Go.outcome client.Client)
    (p : Proxy) : Go.outcome Proxy :=
  match f (heap p c) with
  | Go.Returns v => Go.Returns (set_heap (client.store (heap p) c v) p)
  | Go.Panics => Go.Panics
  | Go.Blocks v => Go.Blocks (set_heap (client.store (heap p) c v) p)
  end.

(** [createSubscriptionKey] *)
Definition createSubscriptionKey (sub : SubscriptionRequest.t) : string :=
  let key := SubscriptionRequest.Type_ sub in
  let key := if negb (String.eqb (SubscriptionRequest.User sub) EmptyString)
             then (key ++ "-" ++ SubscriptionRequest.User sub)%string else key in
  let key := if negb (String.eqb (SubscriptionRequest.Coin sub) EmptyString)
             then (key ++ "-" ++ SubscriptionRequest.Coin sub)%string else key in
  let key := if negb (String.eqb (SubscriptionRequest.Interval sub) EmptyString)
             then (key ++ "-" ++ SubscriptionRequest.Interval sub)%string else key in
  let key := if negb (String.eqb (SubscriptionRequest.Dex sub) EmptyString)
             then (key ++ "-" ++ SubscriptionRequest.Dex sub)%string else key in
  key.

(** [sendErrorToClient] *)
Definition sendErrorToClient (E : Env) (c : Go.ptr) (errorMsg : string)
    (p : Proxy) : Go.outcome Proxy :=
  on_client c (client.SendMessage (ErrorReply errorMsg (time_Now E))) p.

(** [sendPostErrorToClient] *)
Definition sendPostErrorToClient (c : Go.ptr) (requestID : Z) (errorMsg : string)
    (p : Proxy) : Go.outcome Proxy :=
  on_client c (client.SendMessage (PostError requestID errorMsg)) p.

Definition coins : list string :=
  ["BTC"; "ETH"; "SOL"; "MATIC"; "ARB"; "OP"; "AVAX"; "ATOM"; "NEAR"; "APT";
   "LTC"; "BCH"; "XRP"; "SUI"; "SEI"]%string.

(** The price map both all-prices paths build from [coins]. *)
Definition allPrices (r : LocalNodeReader) : gmap string string :=
  fold_left
    (fun m coin =>
       match GetLatestPrice r coin with
       | Some price => <[coin := price]> m
       | None => m
       end)
    coins ∅.

(** [sendInitialLocalNodeData] *)
Definition sendInitialLocalNodeData (r : LocalNodeReader) (c : Go.ptr)
    (sub : SubscriptionRequest.t) (p : Proxy) : Go.outcome Proxy :=
  if String.eqb (SubscriptionRequest.Type_ sub) "allMids" then
    let prices := allPrices r in
    if (0 <? size prices)%nat
    then on_client c (client.SendMessage (AllMids prices)) p
    else Go.Returns p
  else if String.eqb (SubscriptionRequest.Type_ sub) "trades" then
    if negb (String.eqb (SubscriptionRequest.Coin sub) EmptyString) then
      fold_left
        (fun acc trade =>
           Go.and_then acc (on_client c (client.blocking_send (Trades trade))))
        (GetLatestTrades r (SubscriptionRequest.Coin sub) 5)
        (Go.Returns p)
    else Go.Returns p
  else Go.Returns p.

(** [handleSubscribe] *)
Definition handleSubscribe (E : Env) (c : Go.ptr) (sub : option SubscriptionRequest.t)
    (p : Proxy) : Go.outcome Proxy :=
  match sub with
  | None => sendErrorToClient E c "Missing subscription details" p
  | Some sub =>
      let key := createSubscriptionKey sub in
      (* Add client to subscription *)
      let '(subInfo, p) :=
        match globalSubscriptions p !! key with
        | Some subInfo => (subInfo, p)
        | None =>
            let subInfo := mkSubscriptionInfo sub ∅ None (time_Now E) in
            let p := set_globalSubscriptions (<[key := subInfo]> (globalSubscriptions p)) p in
            (* Subscribe to Hyperliquid only if not using local node *)
            if negb (useLocalNode p) && bool_decide (hlConnector p ≠ None)
            then (subInfo, set_goroutines (goroutines p ++ [go_Subscribe c sub key]) p)
            else (subInfo, p)
        end in
      let subInfo :=
        mkSubscriptionInfo (Subscription subInfo) ({[c]} ∪ Clients subInfo)
                           (LastMessage subInfo) (LastUpdate subInfo) in
      let p := set_globalSubscriptions (<[key := subInfo]> (globalSubscriptions p)) p in
      (* Add subscription to client *)
      let p := set_heap (client.store (heap p) c
                           (client.AddSubscription key sub (heap p c))) p in
      (* Send subscription response *)
      Go.and_then
        (on_client c (client.SendMessage (SubscriptionResponse "subscribe" sub)) p)
        (fun p =>
           (* Send initial data if using local node *)
           match useLocalNode p, localNodeReader p with
           | true, Some r => sendInitialLocalNodeData r c sub p
           | _, _ =>
               match LastMessage subInfo with
               | Some lastMessage => on_client c (client.blocking_send lastMessage) p
               | None => Go.Returns p
               end
           end)
  end.

(** [delete(subInfo.Clients, c)] on the entry at [key], and the entry
    itself when no client is left. *)
Definition remove_client (c : Go.ptr) (key : string)
    (subInfo : SubscriptionInfo) (m : gmap string SubscriptionInfo)
    : gmap string SubscriptionInfo :=
  let subInfo :=
    mkSubscriptionInfo (Subscription subInfo) (Clients subInfo ∖ {[c]})
                       (LastMessage subInfo) (LastUpdate subInfo) in
  if (size (Clients subInfo) =? 0)%nat then delete key m
  else <[key := subInfo]> m.

(** [handleUnsubscribe] *)
Definition handleUnsubscribe (E : Env) (c : Go.ptr) (sub : option SubscriptionRequest.t)
    (p : Proxy) : Go.outcome Proxy :=
  match sub with
  | None => sendErrorToClient E c "Missing subscription details" p
  | Some sub =>
      let key := createSubscriptionKey sub in
      let p :=
        match globalSubscriptions p !! key with
        | Some subInfo =>
            let m := remove_client c key subInfo (globalSubscriptions p) in
            let p := set_globalSubscriptions m p in
            (* If no more clients, unsubscribe from Hyperliquid *)
            if (size (Clients subInfo ∖ {[c]}) =? 0)%nat
               && negb (useLocalNode p) && bool_decide (hlConnector p ≠ None)
            then set_goroutines (goroutines p ++ [go_Unsubscribe sub]) p
            else p
        | None => p
        end in
      (* Remove subscription from client *)
      let p := set_heap (client.store (heap p) c
                           (client.RemoveSubscription key (heap p c))) p in
      (* Send unsubscription response *)
      on_client c (client.SendMessage (SubscriptionResponse "unsubscribe" sub)) p
  end.

(** [handlePostRequest] *)
Definition handlePostRequest (E : Env) (c : Go.ptr) (msg : WSMessage.t)
    (p : Proxy) : Go.outcome Proxy :=
  match WSMessage.Request msg, WSMessage.ID msg with
  | Some request, Some id =>
      if useLocalNode p then
        sendPostErrorToClient c id "POST requests not supported in local node mode" p
      else
        match hlConnector p with
        | None => sendPostErrorToClient c id "Hyperliquid connector not available" p
        | Some connector =>
            (* Forward request to Hyperliquid *)
            let '(connector, result) :=
              hyperliquid.PostRequest (upstream_queue E) (upstream_reply E)
                (PostRequest.Type_ request) (PostRequest.Payload request) connector in
            let p := set_hlConnector (Some connector) p in
            match hyperliquid.err result, hyperliquid.response result with
            | Some err, _ => sendPostErrorToClient c id err p
            | None, Some response => on_client c (client.SendMessage (Post response)) p
            | None, None => Go.Returns p
            end
        end
  | _, _ => sendErrorToClient E c "Invalid POST request format" p
  end.

(** [handleClientMessage] *)
Definition handleClientMessage (E : Env) (c : Go.ptr) (data : string)
    (p : Proxy) : Go.outcome Proxy :=
  match json_Unmarshal E data with
  | None => sendErrorToClient E c "Invalid message format" p
  | Some msg =>
      if String.eqb (WSMessage.Method msg) "subscribe" then
        handleSubscribe E c (WSMessage.Subscription msg) p
      else if String.eqb (WSMessage.Method msg) "unsubscribe" then
        handleUnsubscribe E c (WSMessage.Subscription msg) p
      else if String.eqb (WSMessage.Method msg) "post" then
        handlePostRequest E c msg p
      else
        sendErrorToClient E c ("Unknown method: " ++ WSMessage.Method msg) p
  end.

(** The inner loop of [forwardMessageToClients]:
    [for c := range subInfo.Clients]. [None] is the panic of a send on a
    closed queue. *)
Fixpoint deliver (data : frame) (key : string) (cs : list Go.ptr)
    (st : client.Heap * gmap Go.ptr (list string))
    : option (client.Heap * gmap Go.ptr (list string)) :=
  match cs with
  | [] => Some st
  | c :: rest =>
      let '(heap, clientsToRemove) := st in
      match Go.select_send (client.Send (heap c)) data with
      | Go.Sent ch =>
          deliver data key rest
            (client.store heap c (client.mkClient ch (client.Subscriptions (heap c))),
             clientsToRemove)
      | Go.Default =>
          (* Client channel is full or closed - mark for removal *)
          deliver data key rest
            (heap, <[c := default [] (clientsToRemove !! c) ++ [key]]> clientsToRemove)
      | Go.SendOnClosed => None
      end
  end.

(** The outer loop: [for key, subInfo := range p.globalSubscriptions]. *)
Fixpoint forward_loop (E : Env) (channel : string) (data : frame)
    (entries : list (string * SubscriptionInfo))
    (st : gmap string SubscriptionInfo * client.Heap * gmap Go.ptr (list string))
    : option (gmap string SubscriptionInfo * client.Heap * gmap Go.ptr (list string)) :=
  match entries with
  | [] => Some st
  | (key, subInfo) :: rest =>
      let '(m, heap, clientsToRemove) := st in
      (* Match channel with subscription type *)
      if String.eqb (SubscriptionRequest.Type_ (Subscription subInfo)) channel then
        (* Update last message *)
        let subInfo' :=
          mkSubscriptionInfo (Subscription subInfo) (Clients subInfo)
                             (Some data) (time_Now E) in
        match deliver data key (range_clients (order E) (Clients subInfo))
                      (heap, clientsToRemove) with
        | None => None
        | Some (heap, clientsToRemove) =>
            forward_loop E channel data rest
              (<[key := subInfo']> m, heap, clientsToRemove)
        end
      else forward_loop E channel data rest st
  end.

(** One removal of the clean-up loop. *)
Definition cleanup_key (c : Go.ptr) (m : gmap string SubscriptionInfo)
    (key : string) : gmap string SubscriptionInfo :=
  match m !! key with
  | Some subInfo => remove_client c key subInfo m
  | None => m
  end.

(** The clean-up loop:
    [for client, subscriptionKeys := range clientsToRemove]. *)
Definition cleanup (removals : list (Go.ptr * list string))
    (m : gmap string SubscriptionInfo) : gmap string SubscriptionInfo :=
  fold_left (fun m '(c, subscriptionKeys) => fold_left (cleanup_key c) subscriptionKeys m)
            removals m.

(** [forwardMessageToClients] *)
Definition forwardMessageToClients (E : Env) (channel : string) (data : frame)
    (p : Proxy) : Go.outcome Proxy :=
  match forward_loop E channel data
          (range_subs (order E) (globalSubscriptions p))
          (globalSubscriptions p, heap p, ∅) with
  | None => Go.Panics
  | Some (m, heap, clientsToRemove) =>
      Go.Returns
        (set_heap heap
           (set_globalSubscriptions
              (cleanup (range_removals (order E) clientsToRemove) m) p))
  end.

(** *** A publish among the other goroutines

    [forwardMessageToClients] holds the lock of the registry from its first
    line to its last, but the queues are not under that lock: while it
    runs, the write loops take frames out of them, handlers put replies
    in, and the hub closes the queue of a session that leaves.
    [interference n heap] is the sessions as the other goroutines have
    left them when the publish makes its n-th delivery attempt, [heap]
    being the sessions after the attempt before. *)
Definition interference : Type := nat -> client.Heap -> client.Heap.

Definition no_interference : interference := fun _ heap => heap.

(** A delivery attempt: the entry, the session, and the queue of the
    session as the [select] finds it. *)
Record attempt : Type := mkAttempt {
  attempt_key : string;
  attempt_client : Go.ptr;
  attempt_queue : Go.chan frame
}.

(** The inner loop. The state is the number of attempts made, the
    sessions, [clientsToRemove] and the attempts made, oldest first. *)
Fixpoint deliver_among (env : interference) (data : frame) (key : string)
    (cs : list Go.ptr)
    (st : nat * client.Heap * gmap Go.ptr (list string) * list attempt)
    : option (nat * client.Heap * gmap Go.ptr (list string) * list attempt) :=
  match cs with
  | [] => Some st
  | c :: rest =>
      let '(n, heap, clientsToRemove, seen) := st in
      let heap := env n heap in
      let seen := seen ++ [mkAttempt key c (client.Send (heap c))] in
      match Go.select_send (client.Send (heap c)) data with
      | Go.Sent ch =>
          deliver_among env data key rest
            (S n,
             client.store heap c (client.mkClient ch (client.Subscriptions (heap c))),
             clientsToRemove, seen)
      | Go.Default =>
          (* Client channel is full or closed - mark for removal *)
          deliver_among env data key rest
            (S n, heap,
             <[c := default [] (clientsToRemove !! c) ++ [key]]> clientsToRemove, seen)
      | Go.SendOnClosed => None
      end
  end.

(** The outer loop. *)
Fixpoint forward_loop_among (E : Env) (env : interference) (channel : string)
    (data : frame) (entries : list (string * SubscriptionInfo))
    (st : gmap string SubscriptionInfo
          * (nat * client.Heap * gmap Go.ptr (list string) * list attempt))
    : option (gmap string SubscriptionInfo
              * (nat * client.Heap * gmap Go.ptr (list string) * list attempt)) :=
  match entries with
  | [] => Some st
  | (key, subInfo) :: rest =>
      let '(m, inner) := st in
      (* Match channel with subscription type *)
      if String.eqb (SubscriptionRequest.Type_ (Subscription subInfo)) channel then
        (* Update last message *)
        let subInfo' :=
          mkSubscriptionInfo (Subscription subInfo) (Clients subInfo)
                             (Some data) (time_Now E) in
        match deliver_among env data key (range_clients (order E) (Clients subInfo))
                            inner with
        | None => None
        | Some inner =>
            forward_loop_among E env channel data rest (<[key := subInfo']> m, inner)
        end
      else forward_loop_among E env channel data rest st
  end.

(** [forwardMessageToClients] with the other goroutines running: the new
    state, and the delivery attempts it made. *)
Definition forwardMessageToClients_among (E : Env) (env : interference)
    (channel : string) (data : frame) (p : Proxy) : Go.outcome (Proxy * list attempt) :=
  match forward_loop_among E env channel data
          (range_subs (order E) (globalSubscriptions p))
          (globalSubscriptions p, (O, heap p, ∅, [])) with
  | None => Go.Panics
  | Some (m, (_, heap, clientsToRemove, seen)) =>
      Go.Returns
        (set_heap heap
           (set_globalSubscriptions
              (cleanup (range_removals (order E) clientsToRemove) m) p),
         seen)
  end.

(** [handleHyperliquidMessage] *)
Definition handleHyperliquidMessage (E : Env) (data : string) (p : Proxy)
    : Go.outcome Proxy :=
  match json_Unmarshal E data with
  | None => Go.Returns p
  | Some msg =>
      if String.eqb (WSMessage.Channel msg) "subscriptionResponse"
         || String.eqb (WSMessage.Channel msg) "post"
      then Go.Returns p
      else forwardMessageToClients E (WSMessage.Channel msg) (Raw data) p
  end.

(** The body of a goroutine started by the handlers. *)
Definition run_goroutine (E : Env) (g : goroutine) (p : Proxy) : Go.outcome Proxy :=
  match hlConnector p with
  | None => Go.Returns p
  | Some connector =>
      match g with
      | go_Subscribe c sub key =>
          match hyperliquid.Subscribe (upstream_queue E) sub connector with
          | (connector, None) => Go.Returns (set_hlConnector (Some connector) p)
          | (connector, Some err) =>
              Go.and_then
                (sendErrorToClient E c ("Failed to subscribe: " ++ err)
                   (set_hlConnector (Some connector) p))
                (fun p =>
                   (* Remove the subscription since it failed *)
                   Go.Returns
                     (set_globalSubscriptions (delete key (globalSubscriptions p)) p))
          end
      | go_Unsubscribe sub =>
          let '(connector, _) :=
            hyperliquid.Unsubscribe (upstream_queue E) sub connector in
          Go.Returns (set_hlConnector (Some connector) p)
      end
  end.

(** The hub's loop, on the proxy's state. *)
Definition Register (c : Go.ptr) (p : Proxy) : Proxy :=
  set_hub (client.Run_Register c (hub p)) p.

Definition Unregister (c : Go.ptr) (p : Proxy) : Go.outcome Proxy :=
  match client.Run_Unregister c (hub p, heap p) with
  | Go.Returns (h, heap) => Go.Returns (set_heap heap (set_hub h p))
  | Go.Panics => Go.Panics
  | Go.Blocks (h, heap) => Go.Blocks (set_heap heap (set_hub h p))
  end.

(** The write loop of a session takes the oldest queued frame. *)
Definition writePump_receive (c : Go.ptr) (p : Proxy) : Proxy :=
  let cl := heap p c in
  let ch := client.Send cl in
  set_heap
    (client.store (heap p) c
       (client.mkClient (Go.mkchan (tail (Go.buf ch)) (Go.cap ch) (Go.closed ch))
                        (client.Subscriptions cl)))
    p.

(** What the goroutines of the process can do next, one atomic action at
    a time. *)
Inductive action : Type :=
| act_Register (c : Go.ptr)
| act_Unregister (c : Go.ptr)
| act_ClientMessage (c : Go.ptr) (data : string)
| act_Publish (channel : string) (data : frame)
| act_Upstream (data : string)
| act_Goroutine (n : nat)
| act_Drain (c : Go.ptr).

Definition perform (E : Env) (a : action) (p : Proxy) : Go.outcome Proxy :=
  match a with
  | act_Register c => Go.Returns (Register c p)
  | act_Unregister c => Unregister c p
  | act_ClientMessage c data => handleClientMessage E c data p
  | act_Publish channel data => forwardMessageToClients E channel data p
  | act_Upstream data => handleHyperliquidMessage E data p
  | act_Goroutine n =>
      match goroutines p !! n with
      | Some g =>
          run_goroutine E g (set_goroutines (take n (goroutines p) ++ drop (S n) (goroutines p)) p)
      | None => Go.Returns p
      end
  | act_Drain c => Go.Returns (writePump_receive c p)
  end.

(** The state an action leaves behind for the other goroutines. *)
Definition state_after (o : Go.outcome Proxy) : option Proxy :=
  match o with
  | Go.Returns p => Some p
  | Go.Blocks p => Some p
  | Go.Panics => None
  end.

Inductive step : Proxy -> Proxy -> Prop :=
| step_perform E a p p' : state_after (perform E a p) = Some p' -> step p p'.

Inductive reachable (p0 : Proxy) : Proxy -> Prop :=
| reachable_start : reachable p0 p0
| reachable_step p p' : reachable p0 p -> step p p' -> reachable p0 p'.

(** [generateAllMidsFromLocalNode]. The reader is dereferenced only when
    an all-prices entry with a session exists. *)
Definition generateAllMidsFromLocalNode (E : Env) (p : Proxy) : Go.outcome Proxy :=
  let hasAllMidsSubscribers :=
    existsb
      (fun entry =>
         String.eqb (SubscriptionRequest.Type_ (Subscription (snd entry))) "allMids"
         && (0 <? size (Clients (snd entry)))%nat)
      (range_subs (order E) (globalSubscriptions p)) in
  if negb hasAllMidsSubscribers then Go.Returns p
  else
    match localNodeReader p with
    | None => Go.Panics
    | Some r =>
        let prices := allPrices r in
        if (size prices =? 0)%nat then Go.Returns p
        else forwardMessageToClients E "allMids" (AllMids prices) p
    end.

(** *** The handlers, one locked section at a time

    [handleSubscribe] and [handleUnsubscribe] hold the lock of the
    registry while they update it, release it, and only then update the
    subscription set of the session, under the lock of the session; the
    other goroutines run in between. *)

(** The locked section of [handleSubscribe]: from [p.subMu.Lock()] to
    [p.subMu.Unlock()]. The result is the entry and the new state. *)
Definition handleSubscribe_locked (E : Env) (c : Go.ptr) (sub : SubscriptionRequest.t)
    (p : Proxy) : SubscriptionInfo * Proxy :=
  let key := createSubscriptionKey sub in
  let '(subInfo, p) :=
    match globalSubscriptions p !! key with
    | Some subInfo => (subInfo, p)
    | None =>
        let subInfo := mkSubscriptionInfo sub ∅ None (time_Now E) in
        let p := set_globalSubscriptions (<[key := subInfo]> (globalSubscriptions p)) p in
        (* Subscribe to Hyperliquid only if not using local node *)
        if negb (useLocalNode p) && bool_decide (hlConnector p ≠ None)
        then (subInfo, set_goroutines (goroutines p ++ [go_Subscribe c sub key]) p)
        else (subInfo, p)
    end in
  let subInfo :=
    mkSubscriptionInfo (Subscription subInfo) ({[c]} ∪ Clients subInfo)
                       (LastMessage subInfo) (LastUpdate subInfo) in
  (subInfo, set_globalSubscriptions (<[key := subInfo]> (globalSubscriptions p)) p).

(** [c.AddSubscription(key, sub)] *)
Definition AddSubscription (c : Go.ptr) (sub : SubscriptionRequest.t) (p : Proxy) : Proxy :=
  set_heap (client.store (heap p) c
              (client.AddSubscription (createSubscriptionKey sub) sub (heap p c))) p.

(** The rest of [handleSubscribe]: the response and the initial data. *)
Definition handleSubscribe_sends (c : Go.ptr) (sub : SubscriptionRequest.t)
    (subInfo : SubscriptionInfo) (p : Proxy) : Go.outcome Proxy :=
  Go.and_then
    (on_client c (client.SendMessage (SubscriptionResponse "subscribe" sub)) p)
    (fun p =>
       match useLocalNode p, localNodeReader p with
       | true, Some r => sendInitialLocalNodeData r c sub p
       | _, _ =>
           match LastMessage subInfo with
           | Some lastMessage => on_client c (client.blocking_send lastMessage) p
           | None => Go.Returns p
           end
       end).

(** The locked section of [handleUnsubscribe]. *)
Definition handleUnsubscribe_locked (c : Go.ptr) (sub : SubscriptionRequest.t)
    (p : Proxy) : Proxy :=
  let key := createSubscriptionKey sub in
  match globalSubscriptions p !! key with
  | Some subInfo =>
      let m := remove_client c key subInfo (globalSubscriptions p) in
      let p := set_globalSubscriptions m p in
      if (size (Clients subInfo ∖ {[c]}) =? 0)%nat
         && negb (useLocalNode p) && bool_decide (hlConnector p ≠ None)
      then set_goroutines (goroutines p ++ [go_Unsubscribe sub]) p
      else p
  | None => p
  end.

(** [c.RemoveSubscription(key)] *)
Definition RemoveSubscription (c : Go.ptr) (sub : SubscriptionRequest.t) (p : Proxy)
    : Proxy :=
  set_heap (client.store (heap p) c
              (client.RemoveSubscription (createSubscriptionKey sub) (heap p c))) p.

(** Where the goroutine that handles the requests of the sessions
    ([processClientMessages], one goroutine) is: between two requests or
    past their locked section, or between the locked section of a request
    and the update of the subscription set of the session. *)
Inductive phase : Type :=
| idle
| subscribing (c : Go.ptr) (sub : SubscriptionRequest.t)
| unsubscribing (c : Go.ptr) (sub : SubscriptionRequest.t).

(** The sections of the code that write the registry or the subscription
    set of a session, each under its lock, and everything else. The
    goroutines take their turns in any order; a publish holds the lock of
    the registry while the others work on the queues. *)
Inductive section_step : Proxy * phase -> Proxy * phase -> Prop :=
| section_subscribe_locked E c sub p :
    section_step (p, idle) (snd (handleSubscribe_locked E c sub p), subscribing c sub)
| section_AddSubscription c sub p :
    section_step (p, subscribing c sub) (AddSubscription c sub p, idle)
| section_unsubscribe_locked c sub p :
    section_step (p, idle) (handleUnsubscribe_locked c sub p, unsubscribing c sub)
| section_RemoveSubscription c sub p :
    section_step (p, unsubscribing c sub) (RemoveSubscription c sub p, idle)
| section_publish E env channel data p p' seen ph :
    (forall n heap c, client.Subscriptions (env n heap c) = client.Subscriptions (heap c)) ->
    forwardMessageToClients_among E env channel data p = Go.Returns (p', seen) ->
    section_step (p, ph) (p', ph)
| section_subscribe_failed key p ph :
    (* Remove the subscription since it failed *)
    section_step (p, ph)
                 (set_globalSubscriptions (delete key (globalSubscriptions p)) p, ph)
| section_elsewhere p p' ph :
    globalSubscriptions p' = globalSubscriptions p ->
    (forall c, client.Subscriptions (heap p' c) = client.Subscriptions (heap p c)) ->
    section_step (p, ph) (p', ph).

Inductive section_run (st0 : Proxy * phase) : Proxy * phase -> Prop :=
| section_run_start : section_run st0 st0
| section_run_step st st' : section_run st0 st -> section_step st st' -> section_run st0 st'.

End proxy.

(** * Predicates and inputs of the statements *)

Import types.

Module key_examples.
Definition by_user : SubscriptionRequest.t :=
  SubscriptionRequest.mk "userFills" "a-b" EmptyString EmptyString EmptyString None None None.
Definition by_user_and_coin : SubscriptionRequest.t :=
  SubscriptionRequest.mk "userFills" "a" "b" EmptyString EmptyString None None None.

Definition E : proxy.Env :=
  proxy.mkEnv (fun _ => None) 0 hyperliquid.NeverReady hyperliquid.NeverReady
              proxy.some_order.

(** Session 1 subscribes with the first spec, session 2 with the second. *)
Definition after_both : Go.outcome proxy.Proxy :=
  Go.and_then
    (proxy.handleSubscribe E 1%nat (Some by_user) (proxy.NewProxy true "/data"))
    (proxy.handleSubscribe E 2%nat (Some by_user_and_coin)).

Definition both : proxy.Proxy :=
  default (proxy.NewProxy true "/data") (proxy.state_after after_both).
End key_examples.

(** ** The resolver and the orders *)

Module resolver_examples.
Import asset_fetcher local_node_reader.

(** The placeholder [getAssetSymbol] falls back to. *)
Definition generic_placeholder (assetID : Z) : string :=
  if (0 <? assetID)%Z && (assetID <? 1000)%Z
  then ("@" ++ Go.Itoa assetID)%string
  else ("ASSET_" ++ Go.Itoa assetID)%string.

Definition meta_BTC_ETH : http_reply HyperliquidMetaResponse.t :=
  Reply 200 (Some (HyperliquidMetaResponse.mk
                     [PerpMeta.mk "BTC" 5 50; PerpMeta.mk "ETH" 4 50])).

Definition meta_BTC : http_reply HyperliquidMetaResponse.t :=
  Reply 200 (Some (HyperliquidMetaResponse.mk [PerpMeta.mk "BTC" 5 40])).

Definition spotMeta_PURR : http_reply HyperliquidSpotMetaResponse.t :=
  Reply 200 (Some (HyperliquidSpotMetaResponse.mk
                     [SpotToken.mk "USDC" 0 8; SpotToken.mk "PURR" 1 0]
                     [SpotPair.mk "PURR/USDC" [1; 0]%Z 0])).

(** The resolver after one refresh that answered BTC, ETH and PURR/USDC. *)
Definition af1 : AssetFetcher :=
  fst (fetchAssets meta_BTC_ETH spotMeta_PURR 1000 NewAssetFetcher).

Definition E0 : Env :=
  mkEnv (fun _ => None) (fun _ => None) (fun _ => Some 1700000000000%Z)
        (fun n => Z.of_nat n) (fun n => Z.of_nat n).

Definition reader1 : LocalNodeReader := NewLocalNodeReader "/data" (Some af1).

Definition order_BTC : Order.t := Order.mk 0 true "100.5" "2.0" false "Gtc" EmptyString.

(** A resolver whose spot answer lists PURR/USDC as the pair of index 7:
    the record sits in the spot table under 10007, and neither table has
    the key 7. *)
Definition spotMeta_PURR_7 : http_reply HyperliquidSpotMetaResponse.t :=
  Reply 200 (Some (HyperliquidSpotMetaResponse.mk
                     [SpotToken.mk "USDC" 0 8; SpotToken.mk "PURR" 1 0]
                     [SpotPair.mk "PURR/USDC" [1; 0]%Z 7])).

Definition af2 : AssetFetcher :=
  fst (fetchAssets meta_BTC_ETH spotMeta_PURR_7 1000 NewAssetFetcher).

Definition reader2 : LocalNodeReader := NewLocalNodeReader "/data" (Some af2).

(** A sell order on the asset 7, and a buy order on an asset no table
    knows. *)
Definition order_7 : Order.t := Order.mk 7 false "0.25" "40" false "Gtc" EmptyString.
Definition order_4242 : Order.t := Order.mk 4242 true "1" "1" false "Gtc" EmptyString.

Definition action_BTC : SignedAction.t :=
  SignedAction.mk "0xabc" (ActionData.mk "order" [order_BTC] [] "na" 0) 7.
(** The decoded body of a reply the fetcher accepts: status 200 and a
    body that decodes. *)
Definition answered {A} (reply : http_reply A) : option A :=
  match reply with
  | Reply code (Some a) => if (code =? 200)%Z then Some a else None
  | _ => None
  end.

(** The resolver after a second refresh whose non-spot answer has only
    BTC left, and after one whose spot query fails. *)
Definition second_refresh : AssetFetcher * option string :=
  fetchAssets meta_BTC spotMeta_PURR 2000 af1.

Definition half_failed_refresh : AssetFetcher * option string :=
  fetchAssets meta_BTC RequestFailed 2000 af1.
End resolver_examples.

(** ** The connector *)

Module connector_examples.
Import hyperliquid.

Definition connected : Connector := mkConnector true [] ∅ ∅ 1.

Definition answer : PostResponse.t :=
  PostResponse.mk 1 (PostResponseInner.mk "info" "{}").

End connector_examples.

(** ** The registry *)

Module registry_examples.
Import proxy.

(** [p'] differs from [p] in the heap at most. *)
Definition only_heap (p p' : Proxy) : Prop :=
  hub p' = hub p /\ hlConnector p' = hlConnector p /\
  globalSubscriptions p' = globalSubscriptions p /\
  localNodeReader p' = localNodeReader p /\ useLocalNode p' = useLocalNode p /\
  goroutines p' = goroutines p.

(** A frame is not a well-formed request: it does not decode, or its
    method is none of the three the gateway knows. *)
Definition malformed (E : Env) (data : string) : Prop :=
  json_Unmarshal E data = None \/
  exists msg, json_Unmarshal E data = Some msg /\
              WSMessage.Method msg <> "subscribe"%string /\
              WSMessage.Method msg <> "unsubscribe"%string /\
              WSMessage.Method msg <> "post"%string.

(** A decoder that knows three frames. *)
Definition sub_trades_ETH : SubscriptionRequest.t :=
  SubscriptionRequest.mk "trades" EmptyString "ETH" EmptyString EmptyString None None None.
Definition sub_allMids : SubscriptionRequest.t :=
  SubscriptionRequest.mk "allMids" EmptyString EmptyString EmptyString EmptyString None None None.

Definition decode (data : string) : option WSMessage.t :=
  if String.eqb data "subscribe trades ETH" then
    Some (WSMessage.mk "subscribe" (Some sub_trades_ETH) EmptyString EmptyString None None)
  else if String.eqb data "unsubscribe trades ETH" then
    Some (WSMessage.mk "unsubscribe" (Some sub_trades_ETH) EmptyString EmptyString None None)
  else if String.eqb data "subscribe allMids" then
    Some (WSMessage.mk "subscribe" (Some sub_allMids) EmptyString EmptyString None None)
  else if String.eqb data "hello" then
    Some (WSMessage.mk "hello" None EmptyString EmptyString None None)
  else None.

Definition E : Env :=
  mkEnv decode 1700000000 (hyperliquid.ReadyAfter 0 tt) hyperliquid.NeverReady
        some_order.

(** A gateway in upstream mode with session 1 registered. *)
Definition connected : Proxy :=
  Register 1%nat
    (mkProxy client.NewHub (Some connector_examples.connected) ∅ None false
             (fun _ => client.NewClient) []).

(** The keys [clientsToRemove] holds for a session. *)
Definition marked (clientsToRemove : gmap Go.ptr (list string)) (c : Go.ptr)
    : list string :=
  default [] (clientsToRemove !! c).

(** Every entry of [m'] is an entry of [m] with the same spec and no
    session that [m] does not have. *)
Definition shrinks (m m' : gmap string SubscriptionInfo) : Prop :=
  forall key info',
    m' !! key = Some info' ->
    exists info, m !! key = Some info /\
                 Subscription info' = Subscription info /\
                 Clients info' ⊆ Clients info.

(** The session is in no entry at [key]. *)
Definition absent_from (c : Go.ptr) (key : string)
    (m : gmap string SubscriptionInfo) : Prop :=
  forall info, m !! key = Some info -> c ∉ Clients info.

(** No entry has an empty session set. *)
Definition no_empty_entry (m : gmap string SubscriptionInfo) : Prop :=
  forall key info, m !! key = Some info -> Clients info <> ∅.

(** Session 1 subscribes to the trades of ETH, then unsubscribes. *)
Definition subscribed : Proxy :=
  default connected (state_after (handleSubscribe E 1%nat (Some sub_trades_ETH) connected)).

Definition unsubscribed : Proxy :=
  default connected (state_after (handleUnsubscribe E 1%nat (Some sub_trades_ETH) subscribed)).

(** An action during which no session other than [c] subscribes under
    [key]. *)
Definition quiet (c : Go.ptr) (key : string) (E : Env) (a : action) : Prop :=
  match a with
  | act_ClientMessage c' data =>
      c' = c \/
      forall msg sub,
        json_Unmarshal E data = Some msg ->
        WSMessage.Method msg = "subscribe"%string ->
        WSMessage.Subscription msg = Some sub ->
        createSubscriptionKey sub <> key
  | _ => True
  end.

(** A run of such actions, in any number and any order. *)
Inductive quiet_run (c : Go.ptr) (key : string) : Proxy -> Proxy -> Prop :=
| quiet_done p : quiet_run c key p p
| quiet_step E a p p' p'' :
    quiet c key E a ->
    state_after (perform E a p) = Some p' ->
    quiet_run c key p' p'' ->
    quiet_run c key p p''.

(** The entry at [key], if there is one, holds no session but [c]. *)
Definition only_session (c : Go.ptr) (key : string)
    (m : gmap string SubscriptionInfo) : Prop :=
  forall info, m !! key = Some info -> Clients info ⊆ {[c]}.

(** Session 1 subscribes to the trades of ETH and to all prices and stops
    reading: 254 price frames later its queue of 256 is full. *)
Definition two_subscriptions : Go.outcome Proxy :=
  Go.and_then (handleClientMessage E 1%nat "subscribe trades ETH" connected)
              (handleClientMessage E 1%nat "subscribe allMids").

Definition saturated : Proxy :=
  default connected
    (state_after
       (Nat.iter 254
          (fun o => Go.and_then o (forwardMessageToClients E "allMids" (Raw "mids")))
          two_subscriptions)).

(** Session 1, its queue full, sends a frame that is no request. *)
Definition unanswered : Proxy :=
  default saturated (state_after (handleClientMessage E 1%nat "hello" saturated)).

(** A trade is published. *)
Definition after_trade : Proxy :=
  default saturated
    (state_after (forwardMessageToClients E "trades" (Raw "trade") saturated)).

(** Between the subscribe and the unsubscribe of session 1: the upstream
    goroutine runs, session 2 registers and sends a frame that is no
    request, and all prices are published. *)
Definition busy_1 : Proxy :=
  default subscribed (state_after (perform E (act_Goroutine 0) subscribed)).
Definition busy_2 : Proxy :=
  default busy_1 (state_after (perform E (act_Register 2%nat) busy_1)).
Definition busy_3 : Proxy :=
  default busy_2 (state_after (perform E (act_ClientMessage 2%nat "hello") busy_2)).
Definition busy : Proxy :=
  default busy_3 (state_after (perform E (act_Publish "allMids" (Raw "mids")) busy_3)).

Definition busy_unsubscribed : Proxy :=
  default busy (state_after (handleUnsubscribe E 1%nat (Some sub_trades_ETH) busy)).

(** Session 1 subscribes to the trades of ETH and disconnects. *)
Definition disconnected : Proxy :=
  default subscribed (state_after (Unregister 1%nat subscribed)).
End registry_examples.

(** ** The log reader *)

Module reader_examples.
Import local_node_reader.

(** The offset the reader resumes a file from. *)
Definition offset (r : LocalNodeReader) (filePath : string) : Z :=
  default 0%Z (lastReadFiles r !! filePath).

(** The bytes one call of [readBlockFile] reads: from [fromPos], to the end
    of the file or 100 MiB further. *)
Definition chunk (file : string) (fromPos : Z) : string :=
  Go.take_bytes (Z.to_nat (Z.min (Go.len file - fromPos) MiB100))
                (Go.drop_bytes (Z.to_nat fromPos) file).

(** The bytes of the lines of a chunk, newlines included. *)
Definition sum_len (lines : list string) : Z :=
  fold_right (fun l acc => (Go.len l + 1 + acc)%Z) 0%Z lines.

(** A line as the node writes it: not blank, no white space around it. *)
Definition clean (line : string) : Prop :=
  Go.TrimSpace line = line /\ line <> EmptyString.



(** A run of scan ticks, each seeing the file system of its moment. *)
Definition scans (E : Env) (ticks : list FS) (r : LocalNodeReader) : LocalNodeReader :=
  fold_left (fun r fs => scanReplicaCmdsDirectory E fs r) ticks r.

(** The line decodes as a block. *)
Definition decodes (E : Env) (line : string) : bool :=
  match json_Unmarshal_block E line with
  | Some _ => true
  | None => false
  end.

(** Two records of the log, and a decoder that knows them. *)
Definition quote : string := String (ascii_of_nat 34) EmptyString.
Definition nl : string := String Go.newline EmptyString.

Definition record (round : string) : string :=
  ("{" ++ quote ++ "abci_block" ++ quote ++ ":{" ++ quote ++ "round" ++ quote ++ ":"
       ++ round ++ "}}")%string.

Definition block (round : Z) : HyperliquidNodeBlock.t :=
  HyperliquidNodeBlock.mk EmptyString [] round 0 EmptyString.

Definition E : Env :=
  mkEnv (fun line =>
           if String.eqb line (record "1") then Some (block 1)
           else if String.eqb line (record "2") then Some (block 2)
           else None)
        (fun _ => None) (fun _ => None) (fun n => Z.of_nat n) (fun n => Z.of_nat n).

(** The log tree with one file of the given content. *)
Definition logfile : string := "/data/replica_cmds/1700000000/20250101/100".

Definition tree (content : string) : FS :=
  mkFS (fun path =>
          if String.eqb path "/data/replica_cmds" then Some [("1700000000", true)]
          else if String.eqb path "/data/replica_cmds/1700000000"
          then Some [("20250101", true)]
          else if String.eqb path "/data/replica_cmds/1700000000/20250101"
          then Some [("100", false)]
          else None)%string
       (fun path => if String.eqb path logfile then Some content else None).

Definition chunk_2 : string := (record "1" ++ nl ++ record "2" ++ nl)%string.


Definition reader0 : LocalNodeReader := NewLocalNodeReader "/data" None.

(** Two records, the first followed by a no-break space (U+00A0, the
    bytes C2 A0) before its newline. *)
Definition no_break_space : string :=
  String (ascii_of_nat 194) (String (ascii_of_nat 160) EmptyString).

Definition padded : string :=
  (record "1" ++ no_break_space ++ nl ++ record "2" ++ nl)%string.
End reader_examples.

(** ** The histories of the log reader *)

Module history_examples.
Import local_node_reader.

(** The bounds of the three histories of the reader. *)
Definition bounded (r : LocalNodeReader) : Prop :=
  (forall symbol trades,
      latestTrades r !! symbol = Some trades -> (length trades <= 1000)%nat) /\
  (length (latestBlocks r) <= 100)%nat /\
  (length (blocksChan r) <= 1000)%nat.

(** The trades stored for a symbol, oldest first. *)
Definition trades_of (r : LocalNodeReader) (symbol : string) : list WsTrade.t :=
  default [] (latestTrades r !! symbol).

(** The prices of the orders of a list that are for [symbol], in order. *)
Definition prices_for (r : LocalNodeReader) (symbol : string) (orders : list Order.t)
    : list string :=
  map Order.Price
      (List.filter (fun o => String.eqb (getAssetSymbol r (Order.Asset o)) symbol) orders).

(** The blocks the lines of a chunk decode to, in order. *)
Definition decoded_blocks (E : Env) (lines : list string) : list HyperliquidNodeBlock.t :=
  omap (fun line =>
          let line := Go.TrimSpace line in
          if String.eqb line EmptyString then None else json_Unmarshal_block E line)
       lines.

(** The orders of a block with the address of their sender, in the order
    of the log: those of the order actions of the bundles that have a body
    that decodes. *)
Definition bundle_orders (E : Env) (bundleArray : list string) : list (string * Order.t) :=
  match bundleArray with
  | _ :: bundleData :: _ =>
      match json_Unmarshal_bundle E bundleData with
      | None => []
      | Some bundle =>
          flat_map
            (fun action =>
               if String.eqb (ActionData.Type_ (SignedAction.Action action)) "order"
               then map (pair (SignedAction.VaultAddress action))
                        (ActionData.Orders (SignedAction.Action action))
               else [])
            (SignedActionBundle.SignedActions bundle)
      end
  | _ => []
  end.

Definition block_orders (E : Env) (block : HyperliquidNodeBlock.t)
    : list (string * Order.t) :=
  flat_map (bundle_orders E) (HyperliquidNodeBlock.SignedActionBundles block).

(** Two readers hold the same market data and resolve symbols alike. *)
Definition same_market (r1 r2 : LocalNodeReader) : Prop :=
  latestTrades r1 = latestTrades r2 /\ latestPrices r1 = latestPrices r2 /\
  assetFetcher r1 = assetFetcher r2 /\ clock r1 = clock r2.

(** The names of the directories and of the files of a listing. *)
Definition dirs_of (entries : list (string * bool)) : list string :=
  map fst (List.filter (fun e => snd e) entries).
Definition files_of (entries : list (string * bool)) : list string :=
  map fst (List.filter (fun e => negb (snd e)) entries).

(** The file has been read to its end. *)
Definition read_to_end (fs : FS) (r : LocalNodeReader) (filePath : string) : Prop :=
  forall file, ReadFile fs filePath = Some file ->
    (Go.len file <= reader_examples.offset r filePath)%Z.

(** What is left of the file after the offset of the reader is a run of
    complete records: clean lines, each ended by a newline, in one chunk. *)
Definition complete_records (fs : FS) (r : LocalNodeReader) (filePath : string) : Prop :=
  forall file, ReadFile fs filePath = Some file ->
    let fromPos := reader_examples.offset r filePath in
    (Go.len file <= Go.int64_max)%Z /\
    (0 <= fromPos)%Z /\
    ((fromPos < Go.len file)%Z ->
     (Go.len file - fromPos <= MiB100)%Z /\
     (forall l, l ∈ List.removelast (Go.Split_lines (reader_examples.chunk file fromPos)) ->
                reader_examples.clean l) /\
     List.last (Go.Split_lines (reader_examples.chunk file fromPos)) EmptyString
       = EmptyString).

(** Three orders, and a log tree with two time-stamp directories. *)
Definition order_ETH (price : string) : Order.t :=
  Order.mk 1 true price "1.0" false "Gtc" EmptyString.

Definition listing : FS :=
  mkFS (fun path =>
          if String.eqb path "/data/replica_cmds"
          then Some [("1700000000", true); ("notes.txt", false); ("1800000000", true)]
          else None)%string
       (fun _ => None).
End history_examples.

(** ** The tables of the resolver *)

Module table_examples.
Import asset_fetcher.

(** Every record sits under the key its own fields give: a non-spot
    record under its index, a spot record under its index, which is the
    index of its pair above the spot offset, and a record of the name
    table under its name. *)
Definition keyed (af : AssetFetcher) : Prop :=
  (forall id asset, perpAssets af !! id = Some asset ->
                    Index asset = id /\ IsSpot asset = false) /\
  (forall id asset, spotAssets af !! id = Some asset ->
                    Index asset = id /\ IsSpot asset = true /\
                    id = Go.add64 10000 (TokenIndex asset)) /\
  (forall name asset, assetsByName af !! name = Some asset -> Name asset = name).

(** A run of refreshes, each with the answers of its two queries and its
    clock. *)
Definition refreshes
    (replies : list (http_reply HyperliquidMetaResponse.t
                     * http_reply HyperliquidSpotMetaResponse.t * Z))
    (af : AssetFetcher) : AssetFetcher :=
  fold_left (fun af reply => fst (fetchAssets (fst (fst reply)) (snd (fst reply))
                                              (snd reply) af))
            replies af.

(** The record [fetchPerpetuals] builds for the entry at a position. *)
Definition perp_record (i : nat) (m : PerpMeta.t) : AssetInfo :=
  mkAssetInfo (Z.of_nat i) (PerpMeta.Name m) (PerpMeta.SzDecimals m)
              (PerpMeta.MaxLeverage m) false 0.

(** The records of the entries of a non-spot answer, in the order of the
    answer: the entry at position i gives the record of index i. *)
Fixpoint perp_records_from (i : nat) (universe : list PerpMeta.t) : list AssetInfo :=
  match universe with
  | [] => []
  | m :: rest => perp_record i m :: perp_records_from (S i) rest
  end.

Definition perp_records (universe : list PerpMeta.t) : list AssetInfo :=
  perp_records_from 0 universe.

(** The record of a spot pair: its index is the index of the pair above
    the spot offset, its name the display name of the pair. *)
Definition spot_record (tokens : list SpotToken.t) (pair : SpotPair.t) : AssetInfo :=
  mkAssetInfo (Go.add64 10000 (SpotPair.Index pair))
              (spot_assetName (tokenMap_of tokens) pair) 0 0 true (SpotPair.Index pair).

Definition spot_records (spotResp : HyperliquidSpotMetaResponse.t) : list AssetInfo :=
  map (spot_record (HyperliquidSpotMetaResponse.Tokens spotResp))
      (HyperliquidSpotMetaResponse.Universe spotResp).

(** The table a list of records makes when each is put under its key, a
    later record taking the place of an earlier one with the same key. *)
Definition table_of {K} `{Countable K} (key : AssetInfo -> K) (records : list AssetInfo)
    : gmap K AssetInfo :=
  list_to_map (rev (map (fun a => (key a, a)) records)).
End table_examples.

(** ** The connector: reconnection *)

Module upstream_examples.
Import hyperliquid.

(** Every tracked subscription is stored under its own key. *)
Definition keyed (c : Connector) : Prop :=
  forall key sub, subscriptions c !! key = Some sub -> createSubscriptionKey sub = key.

(** The outgoing queue takes every message before the send times out. *)
Definition accepts (queue : nat -> readiness unit) : Prop :=
  forall n, exists delay, queue n = ReadyAfter delay tt /\ (delay < send_timeout)%Z.

(** The outgoing queue does not take the message before the send times
    out. *)
Definition times_out (queue : readiness unit) : Prop :=
  queue = NeverReady \/
  exists delay a, queue = ReadyAfter delay a /\ (send_timeout <= delay)%Z.

(** The message [Subscribe] sends. *)
Definition subscribe_message (sub : SubscriptionRequest.t) : WSMessage.t :=
  WSMessage.mk "subscribe" (Some sub) EmptyString EmptyString None None.

(** The delay before the k-th dial of a reconnection that starts with the
    counter at [retries]. *)
Definition wait (rc : Reconnection) (k : nat) : Z :=
  ((currentRetries rc + Z.of_nat k) * retryInterval rc)%Z.

(** The dials before the n-th all fail. *)
Definition fail_before (dial : nat -> bool) (n : nat) : Prop :=
  forall k, (k < n)%nat -> dial k = false.

Definition set_isConnected (b : bool) (c : Connector) : Connector :=
  mkConnector b (outgoingMessages c) (subscriptions c) (postRequests c) (nextRequestID c).

(** A connector that tracks two subscriptions, and a dialer whose third
    dial succeeds. *)
Definition tracking : Connector :=
  mkConnector true []
    (<[createSubscriptionKey registry_examples.sub_trades_ETH := registry_examples.sub_trades_ETH]>
       (<[createSubscriptionKey registry_examples.sub_allMids := registry_examples.sub_allMids]> ∅))
    ∅ 1.

Definition third_dial (n : nat) : bool := (n =? 2)%nat.

(** A connector with a pending request 7, and the frame that answers it. *)
Definition pending : Connector := mkConnector true [] ∅ (<[7%Z := Go.make 1]> ∅) 8.

Definition answer_7 : PostResponse.t :=
  PostResponse.mk 7 (PostResponseInner.mk "info" "{}").

Definition decode_frame (data : string) : option WSMessage.t :=
  if String.eqb data "post 7"
  then Some (WSMessage.mk EmptyString None "post" EmptyString (Some 7%Z) None)
  else None.

Definition decode_response (data : string) : option PostResponse.t :=
  if String.eqb data "post 7" then Some answer_7 else None.
End upstream_examples.

(** ** The hub and the write loop of a session *)

Module hub_examples.
Import client.

(** Every registered session has an open queue. *)
Definition hub_open (st : Hub * Heap) : Prop :=
  forall c, c ∈ Clients (fst st) -> Go.closed (Send (snd st c)) = false.

(** What a broadcast does to a registered session: the message is queued,
    or, when the queue is full, the queue is closed. *)
Definition broadcast_to (message : frame) (cl : Client) : Client :=
  if Go.full (Send cl)
  then mkClient (Go.mkchan (Go.buf (Send cl)) (Go.cap (Send cl)) true) (Subscriptions cl)
  else mkClient (Go.enqueue (Send cl) message) (Subscriptions cl).

(** The bytes hold a newline. *)
Fixpoint has_newline (s : string) : bool :=
  match s with
  | EmptyString => false
  | String c rest => Ascii.eqb c Go.newline || has_newline rest
  end.

(** A hub with two sessions: the queue of session 1 has room, the queue
    of session 2 is full. *)
Definition two_sessions : Hub * Heap :=
  (mkHub {[1%nat; 2%nat]},
   fun c => if decide (c = 2%nat)
            then mkClient (Go.mkchan [Raw "a"] 1 false) ∅
            else mkClient (Go.mkchan [] 1 false) ∅).

(** The bytes of a frame, for frames relayed as they were received. *)
Definition raw_bytes (m : frame) : string :=
  match m with
  | Raw data => data
  | _ => EmptyString
  end.

Definition three_queued : Client :=
  mkClient (Go.mkchan [Raw "{1}"; Raw "{2}"; Raw "{3}"] 256 false) ∅.
End hub_examples.

(** ** The registry: delivery and membership *)

Module delivery_examples.
Import local_node_reader proxy.

(** [cl'] is [cl] with [n] copies of [data] appended to its queue. *)
Definition grown (data : frame) (n : nat) (cl cl' : client.Client) : Prop :=
  cl' = client.mkClient
          (Go.mkchan (Go.buf (client.Send cl) ++ repeat data n)
                     (Go.cap (client.Send cl)) (Go.closed (client.Send cl)))
          (client.Subscriptions cl).

(** The session is in an entry whose subscription has the type
    [channel]. *)
Definition receives (channel : string) (c : Go.ptr)
    (m : gmap string SubscriptionInfo) : Prop :=
  exists key info,
    m !! key = Some info /\
    SubscriptionRequest.Type_ (Subscription info) = channel /\
    c ∈ Clients info.

(** The sessions of the entry at [key]; none when there is no entry. *)
Definition sessions_of (m : gmap string SubscriptionInfo) (key : string) : gset Go.ptr :=
  match m !! key with
  | Some info => Clients info
  | None => ∅
  end.

(** The requests of the sessions about one subscription, served one after
    the other, each with the clock of its moment. *)
Inductive request : Type :=
| req_subscribe (c : Go.ptr)
| req_unsubscribe (c : Go.ptr).

Definition serve (sub : SubscriptionRequest.t) (p : Proxy) (r : Env * request)
    : option Proxy :=
  match snd r with
  | req_subscribe c => state_after (handleSubscribe (fst r) c (Some sub) p)
  | req_unsubscribe c => state_after (handleUnsubscribe (fst r) c (Some sub) p)
  end.

Fixpoint serve_all (sub : SubscriptionRequest.t) (rs : list (Env * request))
    (p : Proxy) : option Proxy :=
  match rs with
  | [] => Some p
  | r :: rest =>
      match serve sub p r with
      | Some p' => serve_all sub rest p'
      | None => None
      end
  end.

(** What the last request of session [c] in the list was: [Some true] for
    a subscribe, [Some false] for an unsubscribe, [None] when the session
    sent none. *)
Fixpoint last_request (c : Go.ptr) (rs : list (Env * request)) : option bool :=
  match rs with
  | [] => None
  | r :: rest =>
      match last_request c rest with
      | Some b => Some b
      | None =>
          match snd r with
          | req_subscribe c' => if decide (c' = c) then Some true else None
          | req_unsubscribe c' => if decide (c' = c) then Some false else None
          end
      end
  end.

(** Every session of an entry has the key of the entry among its own
    subscriptions. *)
Definition registry_within_sessions (p : Proxy) : Prop :=
  forall key info c,
    globalSubscriptions p !! key = Some info ->
    c ∈ Clients info ->
    is_Some (client.Subscriptions (heap p c) !! key).

(** The room left in the queue of a session. *)
Definition room (p : Proxy) (c : Go.ptr) : nat :=
  Go.cap (client.Send (heap p c)) - length (Go.buf (client.Send (heap p c))).

(** Two sessions subscribe to the trades of ETH, session 1 subscribes to
    the trades of BTC, session 2 unsubscribes from the trades of ETH. *)
Definition sub_trades_BTC : SubscriptionRequest.t :=
  SubscriptionRequest.mk "trades" EmptyString "BTC" EmptyString EmptyString None None None.

Definition local : Proxy := NewProxy true "/data".

Definition four_requests : list (Env * request) :=
  [(registry_examples.E, req_subscribe 1%nat);
   (registry_examples.E, req_subscribe 2%nat);
   (registry_examples.E, req_unsubscribe 2%nat);
   (registry_examples.E, req_subscribe 3%nat)].

Definition after_four : Proxy :=
  default local (serve_all registry_examples.sub_trades_ETH four_requests local).

(** Session 1 is subscribed to the trades of BTC, and a trade of ETH is
    published. *)
Definition btc_subscriber : Proxy :=
  default local
    (state_after (handleSubscribe registry_examples.E 1%nat (Some sub_trades_BTC) local)).

Definition trade_ETH : WsTrade.t :=
  WsTrade.mk "ETH" "buy" "10" "1.0" EmptyString 0 0 ("0xabc", EmptyString)%string.

Definition after_trade_ETH : Proxy :=
  default btc_subscriber
    (state_after (forwardMessageToClients registry_examples.E "trades" (Trades trade_ETH)
                    btc_subscriber)).

(** A gateway in local mode whose reader holds three trades of ETH, and a
    session whose queue has room for two frames. *)
Definition trade (n : Z) : WsTrade.t :=
  WsTrade.mk "ETH" "buy" "10" "1.0" EmptyString n n ("0xabc", EmptyString)%string.

Definition reader_with_trades : LocalNodeReader :=
  mkReader "/data" true [] ∅ [] (<["ETH"%string := [trade 1; trade 2; trade 3]]> ∅)
           (<["ETH"%string := "10"%string]> (<["HYPE"%string := "40"%string]> ∅)) None 0.

(** Session 1 sends a subscribe request for the trades of ETH. *)
Definition local_subscribed : Proxy :=
  default local
    (state_after (perform registry_examples.E
                    (act_ClientMessage 1%nat "subscribe trades ETH") local)).

(** The frame a session sends to ask for the state of an account, with
    the id 41 of its own, and an upstream that answers the request 1 of
    the connector. *)
Definition post_41 : WSMessage.t :=
  WSMessage.mk "post" None EmptyString EmptyString (Some 41%Z)
               (Some (PostRequest.mk "info" "{}")).

Definition answering : Env :=
  mkEnv registry_examples.decode 1700000000 (hyperliquid.ReadyAfter 0 tt)
        (hyperliquid.ReadyAfter 20 connector_examples.answer) some_order.

Definition local_with_trades (cap : nat) : Proxy :=
  mkProxy client.NewHub None ∅ (Some reader_with_trades) true
          (fun _ => client.mkClient (Go.make cap) ∅) [].

(** What holds of the registry and the subscription sets whatever the
    goroutines do: a session of an entry holds the key of the entry, or
    its subscribe request is past the locked section and has not yet
    updated the subscription set; and a session whose unsubscribe request
    is past the locked section is not in the entry. *)
Definition consistent (st : Proxy * phase) : Prop :=
  (forall key c,
      c ∈ sessions_of (globalSubscriptions (fst st)) key ->
      is_Some (client.Subscriptions (heap (fst st) c) !! key) \/
      exists sub, snd st = subscribing c sub /\ createSubscriptionKey sub = key) /\
  (forall c sub,
      snd st = unsubscribing c sub ->
      c ∉ sessions_of (globalSubscriptions (fst st)) (createSubscriptionKey sub)).

(** Session 1 subscribes to the trades of ETH: the state after the locked
    section, and the state after the update of its subscription set. *)
Definition in_the_window : Proxy :=
  snd (handleSubscribe_locked registry_examples.E 1%nat
         registry_examples.sub_trades_ETH local).

Definition past_the_window : Proxy :=
  AddSubscription 1%nat registry_examples.sub_trades_ETH in_the_window.
End delivery_examples.

(** ** A publish and its delivery attempts *)

Module publish_examples.
Import proxy registry_examples delivery_examples.

(** The entry and the session of an attempt. *)
Definition attempt_pair (a : attempt) : string * Go.ptr :=
  (attempt_key a, attempt_client a).

(** The attempts a publish on [channel] makes over the entries it
    ranges over: one for each session of each entry of that type. *)
Definition attempts_due (E : Env) (channel : string)
    (entries : list (string * SubscriptionInfo)) : list (string * Go.ptr) :=
  flat_map
    (fun entry =>
       if String.eqb (SubscriptionRequest.Type_ (Subscription (snd entry))) channel
       then map (pair (fst entry)) (range_clients (order E) (Clients (snd entry)))
       else [])
    entries.

(** The state a publish leaves, without the attempts. *)
Definition published (o : Go.outcome (Proxy * list attempt)) : Go.outcome Proxy :=
  match o with
  | Go.Returns (p, _) => Go.Returns p
  | Go.Panics => Go.Panics
  | Go.Blocks (p, _) => Go.Blocks p
  end.

Definition result_of (o : Go.outcome (Proxy * list attempt)) (d : Proxy)
    : Proxy * list attempt :=
  match o with
  | Go.Returns r => r
  | _ => (d, [])
  end.

(** Session 1 subscribes to the trades of ETH, to the trades of BTC and to
    all prices, and stops reading: three subscription responses and 252
    price frames later its queue of 256 holds 255 frames. *)
Definition three_subscriptions : Go.outcome Proxy :=
  Go.and_then
    (Go.and_then (handleSubscribe E 1%nat (Some sub_trades_ETH) connected)
                 (handleSubscribe E 1%nat (Some sub_trades_BTC)))
    (handleSubscribe E 1%nat (Some sub_allMids)).

Definition one_short : Proxy :=
  default connected
    (state_after
       (Nat.iter 252
          (fun o => Go.and_then o (forwardMessageToClients E "allMids" (Raw "mids")))
          three_subscriptions)).

(** A trade is published and nothing else runs: the first delivery fills
    the queue. *)
Definition fills_midway : Proxy * list attempt :=
  result_of (forwardMessageToClients_among E no_interference "trades" (Raw "trade")
               one_short)
            one_short.

Definition after_fill : Proxy :=
  default one_short
    (state_after (forwardMessageToClients E "trades" (Raw "trade") one_short)).

(** The write loop of session 1 takes the oldest frame of its queue
    between the first attempt and the second. *)
Definition write_loop_runs : interference :=
  fun n heap =>
    if (n =? 1)%nat
    then client.store heap 1%nat
           (client.mkClient
              (Go.mkchan (tail (Go.buf (client.Send (heap 1%nat))))
                         (Go.cap (client.Send (heap 1%nat)))
                         (Go.closed (client.Send (heap 1%nat))))
              (client.Subscriptions (heap 1%nat)))
    else heap.

Definition drained_midway : Proxy * list attempt :=
  result_of (forwardMessageToClients_among E write_loop_runs "trades" (Raw "trade")
               one_short)
            one_short.
End publish_examples.
(** * Properties *)

(** ** Outcomes *)

Lemma returns_default (o : Go.outcome proxy.Proxy) d :
  Go.returns o = true -> o = Go.Returns (default d (proxy.state_after o)).
Proof. by destruct o. Qed.

Lemma state_after_default (o : Go.outcome proxy.Proxy) d :
  Go.returns o = true -> proxy.state_after o = Some (default d (proxy.state_after o)).
Proof. by destruct o. Qed.

(** ** Subscription keys *)

(** C10: two subscription specs with different fields (user "a-b" and no
    coin; user "a" and coin "b") have the same key, because the fields are
    joined with "-" and not escaped; subscribing to one and then to the
    other leaves one registry entry, which holds both sessions. *)
Theorem subscription_key_collision :
  key_examples.by_user <> key_examples.by_user_and_coin /\
  proxy.createSubscriptionKey key_examples.by_user
    = proxy.createSubscriptionKey key_examples.by_user_and_coin /\
  key_examples.after_both = Go.Returns key_examples.both /\
  size (proxy.globalSubscriptions key_examples.both) = 1%nat /\
  proxy.Clients <$> proxy.globalSubscriptions key_examples.both !! "userFills-a-b"%string
    = Some {[1%nat; 2%nat]}.
Proof.
  split; [discriminate|].
  split; [reflexivity|].
  split; [apply returns_default; vm_compute; reflexivity|].
  split; vm_compute; reflexivity.
Qed.

(** ** The asset resolver *)

Section resolver.
Import asset_fetcher local_node_reader resolver_examples.

(** C7, as the code has it: the lookup by id consults the non-spot table
    first and the spot table second. The resolver of symbols looks the id
    up, and when that finds nothing looks up the id above the spot offset,
    10000 + id, in the same way; the first record found gives the symbol.
    Only an id that neither lookup finds is given the generic placeholder,
    and every id is given [ASSET_id] when no resolver is configured. The
    resolver is a total function: there is no error result. *)
Theorem lookup_order_and_placeholder (af : AssetFetcher) (id : Z) :
  (forall asset, perpAssets af !! id = Some asset ->
                 GetAssetByID af id = Some asset) /\
  (perpAssets af !! id = None -> GetAssetByID af id = spotAssets af !! id) /\
  (forall r,
      assetFetcher r = Some af ->
      (forall asset, GetAssetByID af id = Some asset ->
                     getAssetSymbol r id = Name asset) /\
      (forall asset, GetAssetByID af id = None ->
                     GetAssetByID af (Go.add64 10000 id) = Some asset ->
                     getAssetSymbol r id = Name asset) /\
      (GetAssetByID af id = None ->
       GetAssetByID af (Go.add64 10000 id) = None ->
       getAssetSymbol r id = generic_placeholder id)) /\
  (forall r, assetFetcher r = None ->
             getAssetSymbol r id = ("ASSET_" ++ Go.Itoa id)%string).
Proof.
  split; [|split; [|split]].
  - intros asset H. unfold GetAssetByID. by rewrite H.
  - intros H. unfold GetAssetByID. rewrite H. by destruct (spotAssets af !! id).
  - intros r Hr. unfold getAssetSymbol. rewrite Hr. split; [|split].
    + by intros asset ->.
    + by intros asset -> ->.
    + by intros -> ->.
  - intros r Hr. unfold getAssetSymbol. by rewrite Hr.
Qed.

Lemma lookup_order_and_placeholder_witness :
  getAssetSymbol reader1 1 = "ETH"%string /\
  getAssetSymbol reader2 7 = "PURR/USDC"%string /\
  getAssetSymbol reader1 7 = "@7"%string /\
  getAssetSymbol reader1 4242 = "ASSET_4242"%string.
Proof.
  split; [|split; [|split]].
  - apply (proj1 (proj1 (proj2 (proj2 (lookup_order_and_placeholder af1 1))) reader1
                    eq_refl) (mkAssetInfo 1 "ETH" 4 50 false 0)).
    reflexivity.
  - apply (proj1 (proj2 (proj1 (proj2 (proj2 (lookup_order_and_placeholder af2 7))) reader2
                           eq_refl)) (mkAssetInfo 10007 "PURR/USDC" 0 0 true 7));
      reflexivity.
  - apply (proj2 (proj2 (proj1 (proj2 (proj2 (lookup_order_and_placeholder af1 7))) reader1
                           eq_refl)));
      reflexivity.
  - apply (proj2 (proj2 (proj1 (proj2 (proj2 (lookup_order_and_placeholder af1 4242)))
                           reader1 eq_refl)));
      reflexivity.
Defined.

(** C7, as stated, fails: the id 7 is a key of neither table, and the
    resolver gives it the name of the spot pair of index 7, which it finds
    at 10007, not the placeholder. *)
Lemma id_in_neither_table_is_given_a_name :
  perpAssets af2 !! 7%Z = None /\
  spotAssets af2 !! 7%Z = None /\
  GetAssetByID af2 7 = None /\
  getAssetSymbol reader2 7 = "PURR/USDC"%string /\
  generic_placeholder 7 = "@7"%string /\
  getAssetSymbol reader2 7 <> generic_placeholder 7.
Proof.
  repeat split; try (vm_compute; reflexivity). by vm_compute.
Qed.

Lemma keep_last_snoc {A} (n : nat) (l : list A) (x : A) :
  (0 < n)%nat -> exists older, keep_last n (l ++ [x]) = older ++ [x].
Proof.
  intros Hn. unfold keep_last.
  destruct (n <? length (l ++ [x]))%nat eqn:Hlt.
  - apply Nat.ltb_lt in Hlt. rewrite length_app in *. simpl in *.
    exists (drop (length l + 1 - n) l).
    rewrite drop_app_le by lia. reflexivity.
  - by exists l.
Qed.

(** C5: the trade derived from an order carries the symbol the resolver
    gives for the asset of the order - the name of the record it finds, or
    the placeholder - the side "buy" or "sell" after the buy flag, and the
    price and size strings of the order unchanged; it is the last trade of
    the history of that symbol. The order on asset 0 at "100.5" for "2.0",
    with BTC as asset 0, gives coin "BTC", side "buy", px "100.5",
    sz "2.0". *)
Theorem order_becomes_trade :
  (forall E blockTime userAddress r order,
      let sym := getAssetSymbol r (Order.Asset order) in
      exists older trade,
        latestTrades (processOrder E blockTime userAddress r order) !! sym
          = Some (older ++ [trade]) /\
        older ++ [trade]
          = keep_last 1000 (default [] (latestTrades r !! sym) ++ [trade]) /\
        WsTrade.Time trade = fst (parseBlockTime E (clock r) blockTime) /\
        WsTrade.Coin trade = sym /\
        WsTrade.Side trade
          = (if Order.IsBuy order then "buy" else "sell")%string /\
        WsTrade.Px trade = Order.Price order /\
        WsTrade.Sz trade = Order.Size order /\
        WsTrade.Hash trade = Order.ClientOrderID order /\
        WsTrade.TID trade
          = time_Now_UnixNano E (snd (parseBlockTime E (clock r) blockTime)) /\
        WsTrade.Users trade = (userAddress, EmptyString) /\
        latestPrices (processOrder E blockTime userAddress r order) !! sym
          = Some (Order.Price order)) /\
  (exists trade,
      latestTrades (processSignedAction E0 "2025-01-01T00:00:00Z" reader1 action_BTC)
        !! "BTC"%string = Some [trade] /\
      WsTrade.Coin trade = "BTC"%string /\
      WsTrade.Side trade = "buy"%string /\
      WsTrade.Px trade = "100.5"%string /\
      WsTrade.Sz trade = "2.0"%string).
Proof.
  split.
  - intros E blockTime userAddress r order. cbv zeta.
    unfold processOrder.
    destruct (parseBlockTime E (clock r) blockTime) as [time tick].
    cbn [latestTrades latestPrices].
    rewrite !lookup_insert_eq.
    edestruct (keep_last_snoc 1000
                 (default [] (latestTrades r !! getAssetSymbol r (Order.Asset order))))
      as [older Hkeep]; [lia|].
    rewrite Hkeep. eexists older, _. split; [reflexivity|].
    split; [symmetry; exact Hkeep|]. by cbn.
  - eexists. split; [vm_compute; reflexivity|]. by cbn.
Qed.

Lemma order_becomes_trade_witness :
  (exists older trade,
      latestTrades (processOrder E0 "2025-01-01T00:00:00Z" "0xabc" reader1 order_BTC)
        !! "BTC"%string = Some (older ++ [trade]) /\
      WsTrade.Coin trade = "BTC"%string /\
      WsTrade.Side trade = "buy"%string /\
      WsTrade.Px trade = "100.5"%string /\
      WsTrade.Sz trade = "2.0"%string) /\
  (exists older trade,
      latestTrades (processOrder E0 "2025-01-01T00:00:00Z" "0xabc" reader2 order_7)
        !! "PURR/USDC"%string = Some (older ++ [trade]) /\
      WsTrade.Coin trade = "PURR/USDC"%string /\
      WsTrade.Side trade = "sell"%string /\
      WsTrade.Px trade = "0.25"%string /\
      WsTrade.Sz trade = "40"%string) /\
  (exists older trade,
      latestTrades (processOrder E0 "2025-01-01T00:00:00Z" "0xabc" reader1 order_4242)
        !! "ASSET_4242"%string = Some (older ++ [trade]) /\
      WsTrade.Coin trade = "ASSET_4242"%string /\
      WsTrade.Px trade = "1"%string).
Proof.
  split; [|split].
  - destruct (proj1 order_becomes_trade E0 "2025-01-01T00:00:00Z"%string
                "0xabc"%string reader1 order_BTC)
      as (older & trade & H1 & _ & _ & H2 & H3 & H4 & H5 & _).
    exists older, trade. split; [exact H1|]. split; [exact H2|]. split; [exact H3|].
    split; [exact H4|exact H5].
  - destruct (proj1 order_becomes_trade E0 "2025-01-01T00:00:00Z"%string
                "0xabc"%string reader2 order_7)
      as (older & trade & H1 & _ & _ & H2 & H3 & H4 & H5 & _).
    exists older, trade. split; [exact H1|]. split; [exact H2|]. split; [exact H3|].
    split; [exact H4|exact H5].
  - destruct (proj1 order_becomes_trade E0 "2025-01-01T00:00:00Z"%string
                "0xabc"%string reader1 order_4242)
      as (older & trade & H1 & _ & _ & H2 & _ & H4 & _).
    exists older, trade. split; [exact H1|]. split; [exact H2|exact H4].
Defined.

End resolver.

(** ** Refreshing the asset tables *)

Section refresh.
Import asset_fetcher resolver_examples table_examples.

Lemma fetchPerpetuals_loop_frame i universe af :
  spotAssets (fetchPerpetuals_loop i universe af) = spotAssets af /\
  lastUpdated (fetchPerpetuals_loop i universe af) = lastUpdated af.
Proof.
  revert i af. induction universe as [|m universe IH]; intros i af; [done|].
  cbn [fetchPerpetuals_loop].
  rewrite (proj1 (IH (Go.add64 i 1) _)), (proj2 (IH (Go.add64 i 1) _)). done.
Qed.

Lemma fetchPerpetuals_loop_dom i universe af :
  dom (perpAssets af) ⊆ dom (perpAssets (fetchPerpetuals_loop i universe af)) /\
  dom (assetsByName af) ⊆ dom (assetsByName (fetchPerpetuals_loop i universe af)).
Proof.
  revert i af. induction universe as [|m universe IH]; intros i af; [done|].
  cbn [fetchPerpetuals_loop].
  destruct (IH (Go.add64 i 1)
              (mkAssetFetcher
                 (<[i := mkAssetInfo i (PerpMeta.Name m) (PerpMeta.SzDecimals m)
                                     (PerpMeta.MaxLeverage m) false 0]> (perpAssets af))
                 (spotAssets af)
                 (<[PerpMeta.Name m :=
                      mkAssetInfo i (PerpMeta.Name m) (PerpMeta.SzDecimals m)
                                  (PerpMeta.MaxLeverage m) false 0]> (assetsByName af))
                 (lastUpdated af))) as [H1 H2].
  cbn [perpAssets assetsByName] in H1, H2.
  rewrite dom_insert in H1. rewrite dom_insert in H2.
  clear IH. split; set_solver.
Qed.

Lemma fetchSpotAssets_loop_frame tokenMap universe af :
  perpAssets (fetchSpotAssets_loop tokenMap universe af) = perpAssets af /\
  lastUpdated (fetchSpotAssets_loop tokenMap universe af) = lastUpdated af.
Proof.
  unfold fetchSpotAssets_loop. revert af.
  induction universe as [|pair universe IH]; intros af; [done|].
  cbn [fold_left]. rewrite (proj1 (IH _)), (proj2 (IH _)). done.
Qed.

Lemma fetchSpotAssets_loop_dom tokenMap universe af :
  dom (spotAssets af) ⊆ dom (spotAssets (fetchSpotAssets_loop tokenMap universe af)) /\
  dom (assetsByName af) ⊆ dom (assetsByName (fetchSpotAssets_loop tokenMap universe af)).
Proof.
  unfold fetchSpotAssets_loop. revert af.
  induction universe as [|pair universe IH]; intros af; [done|].
  cbn [fold_left].
  match goal with |- context [fold_left ?f universe ?a] =>
    destruct (IH a) as [H1 H2] end.
  cbn [spotAssets assetsByName] in H1, H2.
  rewrite dom_insert in H1. rewrite dom_insert in H2.
  clear IH. split; set_solver.
Qed.

Lemma fetchPerpetuals_cases reply af :
  match answered reply with
  | Some metaResp =>
      fetchPerpetuals reply af
        = (fetchPerpetuals_loop 0 (HyperliquidMetaResponse.Universe metaResp) af, None)
  | None => exists e, fetchPerpetuals reply af = (af, Some e)
  end.
Proof.
  destruct reply as [|code [metaResp|]]; cbn; [by eexists| |].
  - destruct (code =? 200)%Z; cbn; [done|by eexists].
  - destruct (code =? 200)%Z; cbn; by eexists.
Qed.

Lemma fetchSpotAssets_cases reply af :
  match answered reply with
  | Some spotResp =>
      fetchSpotAssets reply af
        = (fetchSpotAssets_loop
             (tokenMap_of (HyperliquidSpotMetaResponse.Tokens spotResp))
             (HyperliquidSpotMetaResponse.Universe spotResp) af, None)
  | None => exists e, fetchSpotAssets reply af = (af, Some e)
  end.
Proof.
  destruct reply as [|code [spotResp|]]; cbn; [by eexists| |].
  - destruct (code =? 200)%Z; cbn; [done|by eexists].
  - destruct (code =? 200)%Z; cbn; by eexists.
Qed.

(** Putting records under their keys one after the other lays the table
    of the records over the table there was. *)
Lemma table_of_nil {K} `{Countable K} (key : AssetInfo -> K) : table_of key [] = ∅.
Proof. reflexivity. Qed.

Lemma table_of_cons_union {K} `{Countable K} (key : AssetInfo -> K) a records
    (old : gmap K AssetInfo) :
  table_of key (a :: records) ∪ old = table_of key records ∪ <[key a := a]> old.
Proof.
  unfold table_of. cbn [map rev]. rewrite list_to_map_app. cbn [list_to_map foldr].
  rewrite <- (assoc_L (∪)). f_equal.
  by rewrite <- insert_union_l, (left_id_L ∅ (∪)).
Qed.

Lemma table_of_app_union {K} `{Countable K} (key : AssetInfo -> K) records1 records2
    (old : gmap K AssetInfo) :
  table_of key (records1 ++ records2) ∪ old
  = table_of key records2 ∪ (table_of key records1 ∪ old).
Proof.
  unfold table_of. rewrite map_app, rev_app_distr, list_to_map_app.
  by rewrite <- (assoc_L (∪)).
Qed.

(** A key of a table of records holds the last record with that key. *)
Lemma table_of_snoc {K} `{Countable K} (key : AssetInfo -> K) records a :
  table_of key (records ++ [a]) !! key a = Some a.
Proof.
  unfold table_of. rewrite map_app, rev_app_distr. cbn [map rev app list_to_map foldr].
  apply lookup_insert_eq.
Qed.

Lemma table_of_lookup_Some {K} `{Countable K} (key : AssetInfo -> K) records k a :
  table_of key records !! k = Some a -> a ∈ records /\ key a = k.
Proof.
  unfold table_of. intros Hk. apply elem_of_list_to_map_2 in Hk.
  apply list_elem_of_In, in_rev, list_elem_of_In in Hk.
  apply list_elem_of_fmap in Hk as (b & Heq & Hb). by injection Heq as -> ->.
Qed.

Lemma table_of_lookup_None {K} `{Countable K} (key : AssetInfo -> K) records k :
  table_of key records !! k = None <-> forall a, a ∈ records -> key a <> k.
Proof.
  unfold table_of. rewrite <- not_elem_of_list_to_map. split.
  - intros Hk a Ha Heq. apply Hk. apply list_elem_of_fmap. exists (key a, a).
    split; [done|]. apply list_elem_of_In, in_rev. rewrite rev_involutive.
    apply list_elem_of_In, list_elem_of_fmap. by exists a.
  - intros Hk Hin. apply list_elem_of_fmap in Hin as ([k' a] & -> & Hin).
    apply list_elem_of_In, in_rev, list_elem_of_In in Hin.
    apply list_elem_of_fmap in Hin as (b & Heq & Hb). injection Heq as -> ->.
    by apply (Hk b).
Qed.

Lemma fetchPerpetuals_loop_tables n universe af :
  (Z.of_nat n + Z.of_nat (length universe) <= Go.int64_max)%Z ->
  perpAssets (fetchPerpetuals_loop (Z.of_nat n) universe af)
  = table_of Index (perp_records_from n universe) ∪ perpAssets af /\
  assetsByName (fetchPerpetuals_loop (Z.of_nat n) universe af)
  = table_of Name (perp_records_from n universe) ∪ assetsByName af.
Proof.
  revert n af. induction universe as [|m universe IH]; intros n af Hmax.
  { cbn [fetchPerpetuals_loop perp_records_from].
    by rewrite !table_of_nil, !(left_id_L ∅ (∪)). }
  cbn [fetchPerpetuals_loop perp_records_from]. cbn [length] in Hmax.
  assert (Hmin : (Go.int64_min <= 0)%Z) by (by vm_compute).
  assert (Hnext : Go.add64 (Z.of_nat n) 1 = Z.of_nat (S n)).
  { unfold Go.add64. unfold Go.int64_min, Go.int64_max, Go.wrap64 in *.
    rewrite Z.mod_small; lia. }
  rewrite Hnext, !table_of_cons_union.
  destruct (IH (S n)
              (mkAssetFetcher (<[Z.of_nat n := perp_record n m]> (perpAssets af))
                 (spotAssets af)
                 (<[PerpMeta.Name m := perp_record n m]> (assetsByName af))
                 (lastUpdated af))) as [H1 H2]; [lia|].
  split; [exact H1|exact H2].
Qed.

Lemma fetchSpotAssets_loop_tables tokens universe af :
  spotAssets (fetchSpotAssets_loop (tokenMap_of tokens) universe af)
  = table_of Index (map (spot_record tokens) universe) ∪ spotAssets af /\
  assetsByName (fetchSpotAssets_loop (tokenMap_of tokens) universe af)
  = table_of Name (map (spot_record tokens) universe) ∪ assetsByName af.
Proof.
  unfold fetchSpotAssets_loop. revert af.
  induction universe as [|pair universe IH]; intros af.
  { cbn [fold_left map]. by rewrite !table_of_nil, !(left_id_L ∅ (∪)). }
  cbn [fold_left map]. rewrite !table_of_cons_union.
  match goal with |- context [fold_left ?f universe ?a] =>
    destruct (IH a) as [H1 H2] end.
  split; [exact H1|exact H2].
Qed.

(** C4, as the code has it: a refresh writes the fetched records into the
    tables in place. After it each table is the table of the records of
    this fetch laid over the table there was: a key the fetch has a record
    for holds the last such record, every other key holds what it held;
    no key loses its record. The non-spot records are those of the entries
    with their positions, the spot records those of the pairs with their
    display names; the name table takes both, the spot records last. When
    the non-spot query fails the three tables are left exactly as they
    were; when the spot query fails no spot record is written, the
    non-spot records are, and the time of the last update is kept. *)
Theorem refresh_merges_in_place perp spot now af af' err :
  fetchAssets perp spot now af = (af', err) ->
  (answered perp = None -> af' = af /\ err <> None) /\
  (forall metaResp,
      answered perp = Some metaResp ->
      (Z.of_nat (length (HyperliquidMetaResponse.Universe metaResp)) <= Go.int64_max)%Z ->
      let perps := perp_records (HyperliquidMetaResponse.Universe metaResp) in
      let spots := match answered spot with
                   | Some spotResp => spot_records spotResp
                   | None => []
                   end in
      perpAssets af' = table_of Index perps ∪ perpAssets af /\
      spotAssets af' = table_of Index spots ∪ spotAssets af /\
      assetsByName af' = table_of Name (perps ++ spots) ∪ assetsByName af /\
      (answered spot = None ->
       spotAssets af' = spotAssets af /\ lastUpdated af' = lastUpdated af /\ err <> None) /\
      (answered spot <> None -> lastUpdated af' = now /\ err = None)) /\
  (dom (perpAssets af) ⊆ dom (perpAssets af') /\
   dom (spotAssets af) ⊆ dom (spotAssets af') /\
   dom (assetsByName af) ⊆ dom (assetsByName af')).
Proof.
  intros Hfetch. unfold fetchAssets in Hfetch.
  pose proof (fetchPerpetuals_cases perp af) as Hp.
  destruct (answered perp) as [metaResp|] eqn:Hperp.
  2:{ destruct Hp as [e Hp]. rewrite Hp in Hfetch. injection Hfetch as <- <-.
      split; [done|]. split; [done|]. done. }
  rewrite Hp in Hfetch. clear Hp.
  set (af1 := fetchPerpetuals_loop 0 (HyperliquidMetaResponse.Universe metaResp) af)
    in *.
  destruct (fetchPerpetuals_loop_frame 0 (HyperliquidMetaResponse.Universe metaResp) af)
    as [Hspot1 Hupd1].
  destruct (fetchPerpetuals_loop_dom 0 (HyperliquidMetaResponse.Universe metaResp) af)
    as [Hdp1 Hdn1].
  fold af1 in Hspot1, Hupd1, Hdp1, Hdn1.
  pose proof (fetchSpotAssets_cases spot af1) as Hs.
  split; [done|].
  destruct (answered spot) as [spotResp|] eqn:Hspot.
  - rewrite Hs in Hfetch. clear Hs. injection Hfetch as <- <-.
    set (tokens := HyperliquidSpotMetaResponse.Tokens spotResp).
    set (universe := HyperliquidSpotMetaResponse.Universe spotResp).
    destruct (fetchSpotAssets_loop_frame (tokenMap_of tokens) universe af1)
      as [Hperp2 Hupd2].
    destruct (fetchSpotAssets_loop_dom (tokenMap_of tokens) universe af1) as [Hds2 Hdn2].
    destruct (fetchSpotAssets_loop_tables tokens universe af1) as [Hts Htn].
    cbn [perpAssets spotAssets assetsByName lastUpdated].
    split.
    + intros r [= <-] Hlen. cbv zeta.
      destruct (fetchPerpetuals_loop_tables 0 (HyperliquidMetaResponse.Universe metaResp)
                  af) as [Htp Htpn]; [cbn; lia|].
      change (Z.of_nat 0) with 0%Z in Htp, Htpn. fold af1 in Htp, Htpn.
      split; [by rewrite Hperp2|]. split; [by rewrite Hts, Hspot1|].
      split; [|split; [done|by intros _]].
      rewrite Htn, Htpn. symmetry. apply table_of_app_union.
    + split; [by rewrite Hperp2|]. split; [by rewrite <- Hspot1|]. set_solver.
  - destruct Hs as [e Hs]. rewrite Hs in Hfetch. injection Hfetch as <- <-.
    split.
    + intros r [= <-] Hlen. cbv zeta.
      destruct (fetchPerpetuals_loop_tables 0 (HyperliquidMetaResponse.Universe metaResp)
                  af) as [Htp Htpn]; [cbn; lia|].
      change (Z.of_nat 0) with 0%Z in Htp, Htpn. fold af1 in Htp, Htpn.
      split; [exact Htp|]. rewrite table_of_nil, (left_id_L ∅ (∪)), app_nil_r.
      split; [exact Hspot1|]. split; [exact Htpn|]. split; [done|done].
    + split; [done|]. split; [by rewrite Hspot1|done].
Qed.

Lemma refresh_merges_in_place_witness :
  (perpAssets (fst second_refresh)
   = table_of Index [mkAssetInfo 0 "BTC" 5 40 false 0] ∪ perpAssets af1 /\
   assetsByName (fst second_refresh)
   = table_of Name [mkAssetInfo 0 "BTC" 5 40 false 0;
                    mkAssetInfo 10000 "PURR/USDC" 0 0 true 0] ∪ assetsByName af1) /\
  spotAssets (fst half_failed_refresh) = spotAssets af1.
Proof.
  assert (Hlen : (Z.of_nat (length (HyperliquidMetaResponse.Universe
                                      (HyperliquidMetaResponse.mk [PerpMeta.mk "BTC" 5 40])))
                  <= Go.int64_max)%Z) by (vm_compute; discriminate).
  split.
  - pose proof (refresh_merges_in_place meta_BTC spotMeta_PURR 2000 af1
                  (fst second_refresh) (snd second_refresh) eq_refl) as (_ & H & _).
    destruct (H _ eq_refl Hlen) as (H1 & _ & H3 & _).
    split; [exact H1|exact H3].
  - pose proof (refresh_merges_in_place meta_BTC RequestFailed 2000 af1
                  (fst half_failed_refresh) (snd half_failed_refresh) eq_refl)
      as (_ & H & _).
    destruct (H _ eq_refl Hlen) as (_ & _ & _ & H4 & _).
    exact (proj1 (H4 eq_refl)).
Defined.

(** C4, as stated, fails: ETH, written by the first refresh at index 1,
    is still in the non-spot table and in the symbol table after a second,
    successful refresh whose fetch has no ETH; and a refresh whose spot
    query fails has already rewritten the non-spot record of BTC. *)
Lemma refresh_is_not_wholesale :
  (snd second_refresh = None /\
   perpAssets (fst second_refresh) !! 1%Z
     = Some (mkAssetInfo 1 "ETH" 4 50 false 0) /\
   assetsByName (fst second_refresh) !! "ETH"%string
     = Some (mkAssetInfo 1 "ETH" 4 50 false 0) /\
   answered meta_BTC
     = Some (HyperliquidMetaResponse.mk [PerpMeta.mk "BTC" 5 40])) /\
  (snd half_failed_refresh <> None /\
   perpAssets af1 !! 0%Z = Some (mkAssetInfo 0 "BTC" 5 50 false 0) /\
   perpAssets (fst half_failed_refresh) !! 0%Z
     = Some (mkAssetInfo 0 "BTC" 5 40 false 0)).
Proof.
  split.
  - repeat split; vm_compute; reflexivity.
  - split; [by vm_compute|]. split; vm_compute; reflexivity.
Qed.

End refresh.

(** ** Request and response correlation of the connector *)

Section correlation.
Import hyperliquid.

Lemma wrap64_small z :
  (Go.int64_min <= z <= Go.int64_max)%Z -> Go.wrap64 z = z.
Proof.
  unfold Go.int64_min, Go.int64_max, Go.wrap64. intros H.
  rewrite Z.mod_small; lia.
Qed.









End correlation.


(** ** The registry: requests of the sessions *)

Section requests.
Import proxy registry_examples.

Lemma only_heap_refl p : only_heap p p.
Proof. by repeat split. Qed.

Lemma only_heap_trans p1 p2 p3 : only_heap p1 p2 -> only_heap p2 p3 -> only_heap p1 p3.
Proof.
  intros (?&?&?&?&?&?) (?&?&?&?&?&?). repeat split; congruence.
Qed.

Lemma on_client_only_heap c f p p' :
  state_after (on_client c f p) = Some p' ->
  only_heap p p' /\ forall c', c' <> c -> heap p' c' = heap p c'.
Proof.
  unfold on_client. destruct (f (heap p c)) as [v| |v]; cbn; intros [= <-].
  - split; [by repeat split|]. intros c' Hne. cbn. unfold client.store.
    by destruct (decide (c' = c)).
  - split; [by repeat split|]. intros c' Hne. cbn. unfold client.store.
    by destruct (decide (c' = c)).
Qed.

Lemma heap_store_eq h c v : client.store h c v c = v.
Proof. unfold client.store. by destruct (decide (c = c)). Qed.

Lemma heap_store_ne h c v c' : c' <> c -> client.store h c v c' = h c'.
Proof. unfold client.store. by destruct (decide (c' = c)). Qed.

(** A non-blocking send to an open queue returns; the frame is queued when
    there is room and dropped when there is none. *)
Lemma SendMessage_open c message p :
  Go.closed (client.Send (heap p c)) = false ->
  exists p',
    on_client c (client.SendMessage message) p = Go.Returns p' /\
    only_heap p p' /\
    (forall c', c' <> c -> heap p' c' = heap p c') /\
    client.Subscriptions (heap p' c) = client.Subscriptions (heap p c) /\
    client.Send (heap p' c)
      = if Go.full (client.Send (heap p c)) then client.Send (heap p c)
        else Go.enqueue (client.Send (heap p c)) message.
Proof.
  intros Hopen. unfold on_client, client.SendMessage, Go.select_send.
  rewrite Hopen. destruct (Go.full (client.Send (heap p c))) eqn:Hfull.
  - eexists. split; [reflexivity|]. split; [by repeat split|].
    cbn. rewrite heap_store_eq. repeat split; [|done..].
    intros c' Hne. by rewrite heap_store_ne.
  - eexists. split; [reflexivity|]. split; [by repeat split|].
    cbn. rewrite heap_store_eq. repeat split.
    intros c' Hne. by rewrite heap_store_ne.
Qed.

(** C8, as the code has it: a frame that does not decode, or whose method
    is not known, sent by a session whose queue has not been closed, makes
    the gateway offer one error reply to the queue of that session, by a
    send that does not wait: the reply is queued when the queue has room and
    dropped when it is full. The reply says that the format is invalid, or
    names the unknown method. Nothing else changes: the registry, the
    subscription set of every session, the queue of every other session,
    the active set. *)
Theorem malformed_request_changes_nothing E c data p :
  malformed E data ->
  Go.closed (client.Send (heap p c)) = false ->
  exists p' errorMsg,
    handleClientMessage E c data p = Go.Returns p' /\
    errorMsg = match json_Unmarshal E data with
               | None => "Invalid message format"%string
               | Some msg => ("Unknown method: " ++ WSMessage.Method msg)%string
               end /\
    globalSubscriptions p' = globalSubscriptions p /\
    (forall key info, globalSubscriptions p !! key = Some info ->
                      exists info', globalSubscriptions p' !! key = Some info' /\
                                    Clients info' = Clients info) /\
    (forall c', client.Subscriptions (heap p' c')
                = client.Subscriptions (heap p c')) /\
    (forall c', c' <> c -> heap p' c' = heap p c') /\
    hub p' = hub p /\
    client.Send (heap p' c)
      = if Go.full (client.Send (heap p c)) then client.Send (heap p c)
        else Go.enqueue (client.Send (heap p c)) (ErrorReply errorMsg (time_Now E)).
Proof.
  intros Hbad Hopen.
  assert (Hsend : forall errorMsg,
    exists p',
      sendErrorToClient E c errorMsg p = Go.Returns p' /\
      globalSubscriptions p' = globalSubscriptions p /\
      (forall key info, globalSubscriptions p !! key = Some info ->
                        exists info', globalSubscriptions p' !! key = Some info' /\
                                      Clients info' = Clients info) /\
      (forall c', client.Subscriptions (heap p' c')
                  = client.Subscriptions (heap p c')) /\
      (forall c', c' <> c -> heap p' c' = heap p c') /\
      hub p' = hub p /\
      client.Send (heap p' c)
        = if Go.full (client.Send (heap p c)) then client.Send (heap p c)
          else Go.enqueue (client.Send (heap p c)) (ErrorReply errorMsg (time_Now E))).
  { intros errorMsg. unfold sendErrorToClient.
    destruct (SendMessage_open c (ErrorReply errorMsg (time_Now E)) p Hopen)
      as (p' & Hret & (Hhub & _ & Hreg & _) & Hother & Hsubs & Hqueue).
    exists p'. repeat split; try done.
    - intros key info Hk. exists info. by rewrite Hreg.
    - intros c'. destruct (decide (c' = c)) as [->|Hne]; [done|].
      by rewrite Hother. }
  unfold handleClientMessage.
  destruct Hbad as [Hnone|(msg & Hsome & Hs & Hu & Hp)].
  - rewrite Hnone. destruct (Hsend "Invalid message format"%string) as (p' & H1 & H).
    by exists p', "Invalid message format"%string.
  - rewrite Hsome.
    apply String.eqb_neq in Hs, Hu, Hp. rewrite Hs, Hu, Hp.
    destruct (Hsend ("Unknown method: " ++ WSMessage.Method msg)%string)
      as (p' & H1 & H).
    by exists p', ("Unknown method: " ++ WSMessage.Method msg)%string.
Qed.

Lemma malformed_request_changes_nothing_witness :
  exists p',
    handleClientMessage E 1%nat "hello" connected = Go.Returns p' /\
    globalSubscriptions p' = globalSubscriptions connected /\
    Go.buf (client.Send (heap p' 1%nat))
      = [ErrorReply "Unknown method: hello" 1700000000].
Proof.
  destruct (malformed_request_changes_nothing E 1%nat "hello" connected)
    as (p' & errorMsg & Hret & Hmsg & Hreg & _ & _ & _ & _ & Hqueue).
  - right. eexists. split; [reflexivity|]. repeat split; discriminate.
  - reflexivity.
  - exists p'. split; [exact Hret|]. split; [exact Hreg|].
    rewrite Hqueue, Hmsg. reflexivity.
Defined.

(** C8, as stated, fails: session 1 sends a frame with an unknown method
    while its queue is full, and the gateway queues no reply for it: the
    queue is what it was. And when the queue of the session has been closed,
    as it is once the session has disconnected, the same frame makes the
    gateway panic. *)
Lemma malformed_request_gets_no_reply :
  (malformed E "hello" /\
   Go.full (client.Send (heap saturated 1%nat)) = true /\
   handleClientMessage E 1%nat "hello" saturated = Go.Returns unanswered /\
   Go.buf (client.Send (heap unanswered 1%nat))
   = Go.buf (client.Send (heap saturated 1%nat))) /\
  (Go.closed (client.Send (heap disconnected 1%nat)) = true /\
   handleClientMessage E 1%nat "hello" disconnected = Go.Panics).
Proof.
  split; [split; [|split; [|split]]|split].
  - right. eexists. split; [reflexivity|]. repeat split; discriminate.
  - vm_compute. reflexivity.
  - apply returns_default. vm_compute. reflexivity.
  - vm_compute. reflexivity.
  - vm_compute. reflexivity.
  - vm_compute. reflexivity.
Qed.

Lemma state_after_and_then (m : Go.outcome Proxy) k p' :
  state_after (Go.and_then m k) = Some p' ->
  (exists p1, m = Go.Returns p1 /\ state_after (k p1) = Some p') \/
  m = Go.Blocks p'.
Proof.
  destruct m as [p1| |p1]; cbn; [|done|].
  - intros H. left. by exists p1.
  - intros [= <-]. by right.
Qed.

Lemma blocking_sends_only_heap {A} c (g : A -> frame) (frames : list A) :
  forall acc p',
  state_after
    (fold_left
       (fun acc a =>
          Go.and_then acc (on_client c (client.blocking_send (g a))))
       frames acc) = Some p' ->
  exists p0, state_after acc = Some p0 /\ only_heap p0 p'.
Proof.
  induction frames as [|message frames IH]; intros acc p' H; cbn in H.
  - exists p'. split; [done|apply only_heap_refl].
  - apply IH in H as (p1 & H1 & Hp1).
    apply state_after_and_then in H1 as [(p0 & -> & H1)| ->].
    + exists p0. split; [done|].
      apply on_client_only_heap in H1 as [H1 _].
      by eapply only_heap_trans.
    + by exists p1.
Qed.

Lemma sendInitialLocalNodeData_only_heap r c sub p p' :
  state_after (sendInitialLocalNodeData r c sub p) = Some p' -> only_heap p p'.
Proof.
  unfold sendInitialLocalNodeData.
  destruct (String.eqb (SubscriptionRequest.Type_ sub) "allMids").
  { destruct (0 <? size (allPrices r))%nat.
    - intros H. by apply on_client_only_heap in H as [H _].
    - intros [= <-]. apply only_heap_refl. }
  destruct (String.eqb (SubscriptionRequest.Type_ sub) "trades");
    [|intros [= <-]; apply only_heap_refl].
  destruct (negb (String.eqb (SubscriptionRequest.Coin sub) EmptyString));
    [|intros [= <-]; apply only_heap_refl].
  intros H. apply (blocking_sends_only_heap c Trades) in H as (p0 & [= <-] & H).
  done.
Qed.

(** The registry after [handleSubscribe]: the session is in the entry of
    the key, which is created when it is not there. *)
Lemma handleSubscribe_registry E c sub p p' :
  state_after (handleSubscribe E c (Some sub) p) = Some p' ->
  let info0 :=
    default (mkSubscriptionInfo sub ∅ None (time_Now E))
            (globalSubscriptions p !! createSubscriptionKey sub) in
  globalSubscriptions p'
    = <[createSubscriptionKey sub :=
          mkSubscriptionInfo (Subscription info0) ({[c]} ∪ Clients info0)
                             (LastMessage info0) (LastUpdate info0)]>
        (globalSubscriptions p).
Proof.
  unfold handleSubscribe.
  set (key := createSubscriptionKey sub).
  assert (Hrest : forall (subInfo : SubscriptionInfo) (q : Proxy) q',
    state_after
      (Go.and_then
         (on_client c (client.SendMessage (SubscriptionResponse "subscribe" sub)) q)
         (fun p =>
            match useLocalNode p, localNodeReader p with
            | true, Some r => sendInitialLocalNodeData r c sub p
            | _, _ =>
                match LastMessage subInfo with
                | Some lastMessage => on_client c (client.blocking_send lastMessage) p
                | None => Go.Returns p
                end
            end)) = Some q' ->
    globalSubscriptions q' = globalSubscriptions q).
  { intros subInfo q q' H.
    apply state_after_and_then in H as [(q1 & H1 & H2)|H1].
    - assert (Hq1 : only_heap q q1).
      { eapply on_client_only_heap. rewrite H1. reflexivity. }
      assert (Hq' : only_heap q1 q').
      { destruct (useLocalNode q1), (localNodeReader q1) as [r|];
          try (by eapply sendInitialLocalNodeData_only_heap);
          (destruct (LastMessage subInfo);
           [by eapply on_client_only_heap
           |injection H2 as <-; apply only_heap_refl]). }
      destruct (only_heap_trans _ _ _ Hq1 Hq') as (_ & _ & Hreg & _). done.
    - assert (Hq' : only_heap q q').
      { eapply on_client_only_heap. rewrite H1. reflexivity. }
      destruct Hq' as (_ & _ & Hreg & _). done. }
  destruct (globalSubscriptions p !! key) as [subInfo|] eqn:Hkey.
  - intros H. apply Hrest in H. rewrite H. reflexivity.
  - cbn [default].
    destruct (negb (useLocalNode _) && bool_decide (hlConnector _ <> None));
      intros H; apply Hrest in H; rewrite H; cbn;
      by rewrite insert_insert_eq.
Qed.

(** The registry after [handleUnsubscribe]: the session is out of the
    entry of the key, and the entry is gone when no session is left. *)
Lemma handleUnsubscribe_registry E c sub p p' :
  state_after (handleUnsubscribe E c (Some sub) p) = Some p' ->
  globalSubscriptions p'
    = match globalSubscriptions p !! createSubscriptionKey sub with
      | Some subInfo =>
          remove_client c (createSubscriptionKey sub) subInfo (globalSubscriptions p)
      | None => globalSubscriptions p
      end.
Proof.
  unfold handleUnsubscribe.
  set (key := createSubscriptionKey sub).
  destruct (globalSubscriptions p !! key) as [subInfo|] eqn:Hkey.
  - destruct ((size (Clients subInfo ∖ {[c]}) =? 0)%nat && _ && _);
      intros H; apply on_client_only_heap in H as [(_ & _ & Hreg & _) _];
      rewrite Hreg; reflexivity.
  - intros H. apply on_client_only_heap in H as [(_ & _ & Hreg & _) _].
    rewrite Hreg. reflexivity.
Qed.

(** The registry after the goroutine of a subscription has run: as it was,
    or without the entry when the upstream refused. *)
Lemma run_goroutine_Subscribe_registry E c sub key p p' :
  state_after (run_goroutine E (go_Subscribe c sub key) p) = Some p' ->
  globalSubscriptions p' = globalSubscriptions p \/
  globalSubscriptions p' = delete key (globalSubscriptions p).
Proof.
  unfold run_goroutine. destruct (hlConnector p) as [connector|];
    [|intros [= <-]; by left].
  destruct (hyperliquid.Subscribe (upstream_queue E) sub connector)
    as [connector' [e|]]; [|intros [= <-]; by left].
  intros H. apply state_after_and_then in H as [(p1 & H1 & H2)|H1].
  - injection H2 as <-. right. cbn.
    assert (Hp1 : only_heap (set_hlConnector (Some connector') p) p1).
    { eapply on_client_only_heap. unfold sendErrorToClient in H1. rewrite H1.
      reflexivity. }
    destruct Hp1 as (_ & _ & Hreg & _). by rewrite Hreg.
  - left.
    assert (Hp1 : only_heap (set_hlConnector (Some connector') p) p').
    { eapply on_client_only_heap. unfold sendErrorToClient in H1. rewrite H1.
      reflexivity. }
    destruct Hp1 as (_ & _ & Hreg & _). by rewrite Hreg.
Qed.

End requests.


(** ** The registry: publishing *)

Section publish.
Import proxy registry_examples delivery_examples publish_examples.

Lemma marked_insert_eq ctr c keys : marked (<[c := keys]> ctr) c = keys.
Proof. unfold marked. by rewrite lookup_insert_eq. Qed.

Lemma marked_insert_ne ctr c c' keys :
  c' <> c -> marked (<[c := keys]> ctr) c' = marked ctr c'.
Proof. intros H. unfold marked. by rewrite lookup_insert_ne. Qed.

Lemma select_send_Sent {A} (ch ch' : Go.chan A) a :
  Go.select_send ch a = Go.Sent ch' ->
  Go.closed ch = false /\ Go.full ch = false /\ ch' = Go.enqueue ch a.
Proof.
  unfold Go.select_send. destruct (Go.closed ch), (Go.full ch); try done.
  by intros [= <-].
Qed.

Lemma select_send_Default {A} (ch : Go.chan A) a :
  Go.select_send ch a = Go.Default -> Go.closed ch = false /\ Go.full ch = true.
Proof. unfold Go.select_send. by destruct (Go.closed ch), (Go.full ch). Qed.

(** The inner loop: a session whose queue is full keeps its queue and is
    marked for removal at the key; nothing else is marked. *)
Lemma deliver_spec data key cs : forall (heap : client.Heap) ctr heap' ctr',
  deliver data key cs (heap, ctr) = Some (heap', ctr') ->
  (forall c, Go.full (client.Send (heap c)) = true -> heap' c = heap c) /\
  (forall c, c ∈ cs -> Go.full (client.Send (heap c)) = true ->
             key ∈ marked ctr' c) /\
  (forall c k, k ∈ marked ctr c -> k ∈ marked ctr' c) /\
  (forall c k, k ∈ marked ctr' c -> k ∈ marked ctr c \/ k = key).
Proof.
  induction cs as [|c0 cs IH]; intros heap ctr heap' ctr' H.
  - injection H as <- <-. repeat split; try done.
    + intros c Hc. by apply elem_of_nil in Hc.
    + intros c k Hk. by left.
  - cbn [deliver] in H.
    destruct (Go.select_send (client.Send (heap c0)) data) as [ch| |] eqn:Hsend;
      [| |done].
    + apply select_send_Sent in Hsend as (_ & Hroom & _).
      apply IH in H as (Ha & Hb & Hc & Hd).
      assert (Hfull : forall c, Go.full (client.Send (heap c)) = true -> c <> c0).
      { intros c Hc0 ->. congruence. }
      repeat split.
      * intros c Hf. rewrite Ha; rewrite heap_store_ne; auto.
      * intros c Hin Hf. apply elem_of_cons in Hin as [->|Hin].
        -- by apply Hfull in Hf.
        -- apply Hb; [done|]. rewrite heap_store_ne; auto.
      * done.
      * done.
    + apply select_send_Default in Hsend as (_ & Hf0).
      apply IH in H as (Ha & Hb & Hc & Hd).
      repeat split.
      * done.
      * intros c Hin Hf. apply elem_of_cons in Hin as [->|Hin]; [|by apply Hb].
        apply Hc. rewrite marked_insert_eq. apply elem_of_app. right.
        by apply list_elem_of_singleton.
      * intros c k Hk. apply Hc.
        destruct (decide (c = c0)) as [->|Hne].
        -- rewrite marked_insert_eq. apply elem_of_app. by left.
        -- by rewrite marked_insert_ne.
      * intros c k Hk. apply Hd in Hk as [Hk|Hk]; [|by right].
        destruct (decide (c = c0)) as [->|Hne].
        -- rewrite marked_insert_eq in Hk. apply elem_of_app in Hk as [Hk|Hk].
           ++ by left.
           ++ right. by apply list_elem_of_singleton in Hk.
        -- rewrite marked_insert_ne in Hk by done. by left.
Qed.

(** The outer loop. *)
Lemma forward_loop_spec E channel data entries :
  forall m (heap : client.Heap) ctr m' heap' ctr',
  forward_loop E channel data entries (m, heap, ctr) = Some (m', heap', ctr') ->
  (forall c, Go.full (client.Send (heap c)) = true -> heap' c = heap c) /\
  (forall key subInfo c,
      (key, subInfo) ∈ entries ->
      SubscriptionRequest.Type_ (Subscription subInfo) = channel ->
      c ∈ Clients subInfo ->
      Go.full (client.Send (heap c)) = true ->
      key ∈ marked ctr' c) /\
  (forall c k, k ∈ marked ctr c -> k ∈ marked ctr' c) /\
  (forall c k, k ∈ marked ctr' c ->
               k ∈ marked ctr c \/
               exists subInfo, (k, subInfo) ∈ entries /\
                 SubscriptionRequest.Type_ (Subscription subInfo) = channel) /\
  (forall k,
      m' !! k = m !! k \/
      exists subInfo, (k, subInfo) ∈ entries /\
        SubscriptionRequest.Type_ (Subscription subInfo) = channel /\
        m' !! k = Some (mkSubscriptionInfo (Subscription subInfo) (Clients subInfo)
                                           (Some data) (time_Now E))).
Proof.
  induction entries as [|[key subInfo] entries IH]; intros m heap ctr m' heap' ctr' H.
  - injection H as <- <- <-. repeat split; try done.
    + intros key subInfo c Hin. by apply elem_of_nil in Hin.
    + intros c k Hk. by left.
    + intros k. by left.
  - cbn [forward_loop] in H.
    destruct (String.eqb (SubscriptionRequest.Type_ (Subscription subInfo)) channel)
      eqn:Htype.
    + apply String.eqb_eq in Htype.
      destruct (deliver data key (range_clients (order E) (Clients subInfo)) (heap, ctr))
        as [[heap1 ctr1]|] eqn:Hdel; [|done].
      apply deliver_spec in Hdel as (Da & Db & Dc & Dd).
      apply IH in H as (Ha & Hb & Hc & Hd & He).
      repeat split.
      * intros c Hf. rewrite Ha; rewrite Da; auto.
      * intros k s c Hin Ht Hcl Hf.
        apply elem_of_cons in Hin as [[= -> ->]|Hin].
        -- apply Hc, Db; [|done].
           rewrite (range_clients_perm (order E)). by apply elem_of_elements.
        -- eapply Hb; eauto. rewrite Da; auto.
      * intros c k Hk. by apply Hc, Dc.
      * intros c k Hk. apply Hd in Hk as [Hk|(s & Hin & Ht)].
        -- apply Dd in Hk as [Hk| ->]; [by left|].
           right. exists subInfo. split; [by left|done].
        -- right. exists s. split; [by right|done].
      * intros k. destruct (He k) as [Hk|(s & Hin & Ht & Hk)].
        -- destruct (decide (key = k)) as [<-|Hne].
           ++ right. exists subInfo. split; [by left|]. split; [done|].
              by rewrite Hk, lookup_insert_eq.
           ++ left. by rewrite Hk, lookup_insert_ne.
        -- right. exists s. split; [by right|done].
    + apply IH in H as (Ha & Hb & Hc & Hd & He).
      apply String.eqb_neq in Htype.
      repeat split.
      * done.
      * intros k s c Hin Ht Hcl Hf.
        apply elem_of_cons in Hin as [[= -> ->]|Hin]; [done|].
        eapply Hb; eauto.
      * done.
      * intros c k Hk. apply Hd in Hk as [Hk|(s & Hin & Ht)]; [by left|].
        right. exists s. split; [by right|done].
      * intros k. destruct (He k) as [Hk|(s & Hin & Ht & Hk)]; [by left|].
        right. exists s. split; [by right|done].
Qed.

Lemma shrinks_refl m : shrinks m m.
Proof. intros key info H. by exists info. Qed.

Lemma shrinks_trans m1 m2 m3 : shrinks m1 m2 -> shrinks m2 m3 -> shrinks m1 m3.
Proof.
  intros H12 H23 key info3 H3.
  destruct (H23 key info3 H3) as (info2 & H2 & Hs2 & Hc2).
  destruct (H12 key info2 H2) as (info1 & H1 & Hs1 & Hc1).
  exists info1. repeat split; [done|congruence|set_solver].
Qed.

Lemma absent_from_shrinks c key m m' :
  shrinks m m' -> absent_from c key m -> absent_from c key m'.
Proof.
  intros Hs Ha info' H'. destruct (Hs key info' H') as (info & H & _ & Hsub).
  specialize (Ha info H). set_solver.
Qed.

Lemma no_empty_entry_remove_client c key subInfo m :
  no_empty_entry m -> no_empty_entry (remove_client c key subInfo m).
Proof.
  intros Hm k info. unfold remove_client. cbn [Clients].
  destruct (size (Clients subInfo ∖ {[c]}) =? 0)%nat eqn:Hsize.
  - intros H. apply lookup_delete_Some in H as [_ H]. by eapply Hm.
  - destruct (decide (key = k)) as [<-|Hne].
    + rewrite lookup_insert_eq. intros [= <-]. cbn. intros Hempty.
      rewrite Hempty, size_empty in Hsize. done.
    + rewrite lookup_insert_ne by done. apply Hm.
Qed.

(** One removal: the session is out of the entry at the key, the other
    keys are not touched, nothing is added. *)
Lemma cleanup_key_spec c m key :
  shrinks m (cleanup_key c m key) /\
  absent_from c key (cleanup_key c m key) /\
  (forall k, k <> key -> cleanup_key c m key !! k = m !! k) /\
  (no_empty_entry m -> no_empty_entry (cleanup_key c m key)).
Proof.
  unfold cleanup_key. destruct (m !! key) as [subInfo|] eqn:Hkey.
  2:{ split; [apply shrinks_refl|]. split; [|done].
      intros info H. congruence. }
  split; [|split; [|split]].
  - intros k info'. unfold remove_client. cbn [Clients].
    destruct (size (Clients subInfo ∖ {[c]}) =? 0)%nat.
    + intros H. apply lookup_delete_Some in H as [_ H]. by exists info'.
    + destruct (decide (key = k)) as [<-|Hne].
      * rewrite lookup_insert_eq. intros [= <-]. exists subInfo.
        repeat split; [done|]. cbn.
        intros x Hx. by apply elem_of_difference in Hx as [Hx _].
      * rewrite lookup_insert_ne by done. intros H. by exists info'.
  - intros info. unfold remove_client. cbn [Clients].
    destruct (size (Clients subInfo ∖ {[c]}) =? 0)%nat.
    + by rewrite lookup_delete_eq.
    + rewrite lookup_insert_eq. intros [= <-]. cbn.
      intros Hin. apply elem_of_difference in Hin as [_ Hin].
      apply Hin. by apply elem_of_singleton.
  - intros k Hne. unfold remove_client. cbn [Clients].
    destruct (size (Clients subInfo ∖ {[c]}) =? 0)%nat.
    + by rewrite lookup_delete_ne.
    + by rewrite lookup_insert_ne.
  - apply no_empty_entry_remove_client.
Qed.

Lemma cleanup_keys_spec c keys : forall m,
  shrinks m (fold_left (cleanup_key c) keys m) /\
  (forall key, key ∈ keys -> absent_from c key (fold_left (cleanup_key c) keys m)) /\
  (forall k, k ∉ keys -> fold_left (cleanup_key c) keys m !! k = m !! k) /\
  (no_empty_entry m -> no_empty_entry (fold_left (cleanup_key c) keys m)).
Proof.
  induction keys as [|key0 keys IH]; intros m.
  - split; [apply shrinks_refl|]. split; [|done].
    intros key Hin. by apply elem_of_nil in Hin.
  - cbn [fold_left].
    destruct (cleanup_key_spec c m key0) as (Hs0 & Ha0 & Hk0 & Hn0).
    destruct (IH (cleanup_key c m key0)) as (Hs & Ha & Hk & Hn).
    split; [by eapply shrinks_trans|]. split; [|split].
    + intros key Hin. apply elem_of_cons in Hin as [->|Hin]; [|by apply Ha].
      by eapply absent_from_shrinks.
    + intros k Hnot. apply not_elem_of_cons in Hnot as [Hne Hnot].
      rewrite Hk, Hk0 by done. done.
    + auto.
Qed.

Lemma cleanup_spec removals : forall m,
  shrinks m (cleanup removals m) /\
  (forall c keys key, (c, keys) ∈ removals -> key ∈ keys ->
                      absent_from c key (cleanup removals m)) /\
  (forall k, (forall c keys, (c, keys) ∈ removals -> k ∉ keys) ->
             cleanup removals m !! k = m !! k) /\
  (no_empty_entry m -> no_empty_entry (cleanup removals m)).
Proof.
  unfold cleanup.
  induction removals as [|[c0 keys0] removals IH]; intros m.
  - split; [apply shrinks_refl|]. split; [|done].
    intros c keys key Hin. by apply elem_of_nil in Hin.
  - cbn [fold_left].
    destruct (cleanup_keys_spec c0 keys0 m) as (Hs0 & Ha0 & Hk0 & Hn0).
    destruct (IH (fold_left (cleanup_key c0) keys0 m)) as (Hs & Ha & Hk & Hn).
    split; [by eapply shrinks_trans|]. split; [|split].
    + intros c keys key Hin Hkey.
      apply elem_of_cons in Hin as [[= -> ->]|Hin]; [|by eapply Ha].
      eapply absent_from_shrinks; [exact Hs|]. by apply Ha0.
    + intros k Hnot. rewrite Hk, Hk0.
      * done.
      * eapply Hnot. by left.
      * intros c keys Hin. eapply Hnot. by right.
    + auto.
Qed.

(** The loops go through when no queue they send to is closed. *)
Lemma deliver_progress data key cs : forall (heap : client.Heap) ctr,
  (forall c, c ∈ cs -> Go.closed (client.Send (heap c)) = false) ->
  exists heap' ctr',
    deliver data key cs (heap, ctr) = Some (heap', ctr') /\
    forall c, Go.closed (client.Send (heap' c)) = Go.closed (client.Send (heap c)).
Proof.
  induction cs as [|c0 cs IH]; intros heap ctr Hopen.
  - by exists heap, ctr.
  - cbn [deliver]. unfold Go.select_send.
    rewrite (Hopen c0) by (by left).
    destruct (Go.full (client.Send (heap c0))).
    + apply IH. intros c Hin. apply Hopen. by right.
    + edestruct IH as (heap' & ctr' & Hdel & Hcl).
      2:{ exists heap', ctr'. split; [exact Hdel|]. intros c. rewrite Hcl.
          unfold client.store. by destruct (decide (c = c0)) as [->|]. }
      intros c Hin. unfold client.store.
      destruct (decide (c = c0)) as [->|]; cbn; apply Hopen; [by left|by right].
Qed.

Lemma elem_of_range_subs (ro : range_order) (m : gmap string SubscriptionInfo) key subInfo :
  (key, subInfo) ∈ range_subs ro m <-> m !! key = Some subInfo.
Proof. rewrite (range_subs_perm ro). apply elem_of_map_to_list. Qed.

Lemma elem_of_range_removals (ro : range_order) (m : gmap Go.ptr (list string)) c keys :
  (c, keys) ∈ range_removals ro m <-> m !! c = Some keys.
Proof. rewrite (range_removals_perm ro). apply elem_of_map_to_list. Qed.

(** *** The publish among the other goroutines *)

Lemma deliver_among_spec env data key cs :
  forall n (heap : client.Heap) ctr seen n' heap' ctr' seen',
  deliver_among env data key cs (n, heap, ctr, seen) = Some (n', heap', ctr', seen') ->
  exists new,
    seen' = seen ++ new /\
    map attempt_pair new = map (pair key) cs /\
    Forall (fun a => Go.closed (attempt_queue a) = false) new /\
    (forall c k, k ∈ marked ctr' c <->
                 k ∈ marked ctr c \/
                 exists q, mkAttempt k c q ∈ new /\ Go.full q = true).
Proof.
  induction cs as [|c0 cs IH]; intros n heap ctr seen n' heap' ctr' seen' H.
  - injection H as <- <- <- <-. exists []. rewrite app_nil_r.
    split; [done|]. split; [done|]. split; [constructor|].
    intros c k. split; [by left|].
    intros [Hk|(q & Hin & _)]; [done|by apply elem_of_nil in Hin].
  - cbn [deliver_among] in H. cbv zeta in H.
    set (heap0 := env n heap) in *.
    set (a0 := mkAttempt key c0 (client.Send (heap0 c0))) in *.
    destruct (Go.select_send (client.Send (heap0 c0)) data) as [ch| |] eqn:Hsend;
      [| |done].
    + apply select_send_Sent in Hsend as (Hopen & Hroom & _).
      apply IH in H as (new & -> & Hpairs & Hclosed & Hmarked).
      exists (a0 :: new). rewrite <- app_assoc. split; [done|].
      split; [cbn [map]; by rewrite Hpairs|]. split; [by constructor|].
      intros c k. rewrite Hmarked. split.
      * intros [Hk|(q & Hin & Hf)]; [by left|].
        right. exists q. split; [by right|done].
      * intros [Hk|(q & Hin & Hf)]; [by left|].
        apply elem_of_cons in Hin as [Heq|Hin]; [|right; by exists q].
        unfold a0 in Heq. injection Heq as -> -> ->. congruence.
    + apply select_send_Default in Hsend as (Hopen & Hfull).
      apply IH in H as (new & -> & Hpairs & Hclosed & Hmarked).
      exists (a0 :: new). rewrite <- app_assoc. split; [done|].
      split; [cbn [map]; by rewrite Hpairs|]. split; [by constructor|].
      intros c k. rewrite Hmarked. split.
      * intros [Hk|(q & Hin & Hf)].
        -- destruct (decide (c = c0)) as [->|Hne].
           ++ rewrite marked_insert_eq in Hk. apply elem_of_app in Hk as [Hk|Hk];
                [by left|].
              apply list_elem_of_singleton in Hk as ->.
              right. exists (client.Send (heap0 c0)). split; [by left|done].
           ++ rewrite marked_insert_ne in Hk by done. by left.
        -- right. exists q. split; [by right|done].
      * intros [Hk|(q & Hin & Hf)].
        -- left. destruct (decide (c = c0)) as [->|Hne].
           ++ rewrite marked_insert_eq. apply elem_of_app. by left.
           ++ by rewrite marked_insert_ne.
        -- apply elem_of_cons in Hin as [Heq|Hin]; [|right; by exists q].
           unfold a0 in Heq. injection Heq as -> -> ->.
           left. rewrite marked_insert_eq. apply elem_of_app. right.
           by apply list_elem_of_singleton.
Qed.

Lemma forward_loop_among_spec E env channel data entries :
  forall m n (heap : client.Heap) ctr seen m' n' heap' ctr' seen',
  forward_loop_among E env channel data entries (m, (n, heap, ctr, seen))
  = Some (m', (n', heap', ctr', seen')) ->
  exists new,
    seen' = seen ++ new /\
    map attempt_pair new = attempts_due E channel entries /\
    Forall (fun a => Go.closed (attempt_queue a) = false) new /\
    (forall c k, k ∈ marked ctr' c <->
                 k ∈ marked ctr c \/
                 exists q, mkAttempt k c q ∈ new /\ Go.full q = true) /\
    (forall k,
        m' !! k = m !! k \/
        exists subInfo, (k, subInfo) ∈ entries /\
          SubscriptionRequest.Type_ (Subscription subInfo) = channel /\
          m' !! k = Some (mkSubscriptionInfo (Subscription subInfo) (Clients subInfo)
                                             (Some data) (time_Now E))).
Proof.
  induction entries as [|[key subInfo] entries IH];
    intros m n heap ctr seen m' n' heap' ctr' seen' H.
  - injection H as <- <- <- <- <-. exists []. rewrite app_nil_r.
    split; [done|]. split; [done|]. split; [constructor|]. split.
    + intros c k. split; [by left|].
      intros [Hk|(q & Hin & _)]; [done|by apply elem_of_nil in Hin].
    + intros k. by left.
  - cbn [forward_loop_among] in H. cbn [attempts_due flat_map fst snd].
    fold (attempts_due E channel entries).
    destruct (String.eqb (SubscriptionRequest.Type_ (Subscription subInfo)) channel)
      eqn:Htype.
    + apply String.eqb_eq in Htype.
      destruct (deliver_among env data key (range_clients (order E) (Clients subInfo))
                  (n, heap, ctr, seen))
        as [[[[n1 heap1] ctr1] seen1]|] eqn:Hdel; [|done].
      apply deliver_among_spec in Hdel as (new1 & -> & Hpairs1 & Hclosed1 & Hmarked1).
      apply IH in H as (new & -> & Hpairs & Hclosed & Hmarked & Hm).
      exists (new1 ++ new). rewrite <- app_assoc. split; [done|].
      split; [by rewrite map_app, Hpairs1, Hpairs|].
      split; [by apply Forall_app|]. split.
      * intros c k. rewrite Hmarked, Hmarked1. split.
        -- intros [[Hk|(q & Hin & Hf)]|(q & Hin & Hf)]; [by left| |].
           ++ right. exists q. split; [|done]. apply elem_of_app. by left.
           ++ right. exists q. split; [|done]. apply elem_of_app. by right.
        -- intros [Hk|(q & Hin & Hf)]; [by left; left|].
           apply elem_of_app in Hin as [Hin|Hin].
           ++ left. right. by exists q.
           ++ right. by exists q.
      * intros k. destruct (Hm k) as [Hk|(s & Hin & Ht & Hk)].
        -- destruct (decide (key = k)) as [<-|Hne].
           ++ right. exists subInfo. split; [by left|]. split; [done|].
              by rewrite Hk, lookup_insert_eq.
           ++ left. by rewrite Hk, lookup_insert_ne.
        -- right. exists s. split; [by right|done].
    + apply String.eqb_neq in Htype.
      apply IH in H as (new & -> & Hpairs & Hclosed & Hmarked & Hm).
      exists new. split; [done|]. split; [done|]. split; [done|]. split; [done|].
      intros k. destruct (Hm k) as [Hk|(s & Hin & Ht & Hk)]; [by left|].
      right. exists s. split; [by right|done].
Qed.

Lemma elem_of_attempts_due E channel entries k c :
  (k, c) ∈ attempts_due E channel entries <->
  exists info, (k, info) ∈ entries /\
               SubscriptionRequest.Type_ (Subscription info) = channel /\
               c ∈ Clients info.
Proof.
  unfold attempts_due. rewrite list_elem_of_In, in_flat_map. split.
  - intros ([key info] & Hin & Hc). cbn [fst snd] in Hc.
    destruct (String.eqb _ channel) eqn:Htype; [|done].
    apply String.eqb_eq in Htype.
    apply list_elem_of_In, list_elem_of_fmap in Hc as (c' & [= -> ->] & Hc').
    rewrite (range_clients_perm (order E)) in Hc'. apply elem_of_elements in Hc'.
    exists info. split; [by apply list_elem_of_In|done].
  - intros (info & Hin & Htype & Hc). exists (k, info).
    split; [by apply list_elem_of_In|]. cbn [fst snd].
    apply String.eqb_eq in Htype. rewrite Htype.
    apply list_elem_of_In, list_elem_of_fmap. exists c. split; [done|].
    rewrite (range_clients_perm (order E)). by apply elem_of_elements.
Qed.

Lemma attempts_due_NoDup E channel entries :
  NoDup (map fst entries) -> NoDup (attempts_due E channel entries).
Proof.
  induction entries as [|[key info] entries IH]; intros Hnd; [constructor|].
  cbn [map fst] in Hnd. apply NoDup_cons in Hnd as [Hkey Hnd].
  cbn [attempts_due flat_map fst snd]. fold (attempts_due E channel entries).
  apply NoDup_app. split; [|split; [|by apply IH]].
  - destruct (String.eqb _ channel); [|constructor].
    apply (NoDup_fmap_2 (pair key)).
    rewrite (range_clients_perm (order E)). apply NoDup_elements.
  - intros [k c] Hin Hin'. apply elem_of_attempts_due in Hin' as (info' & Hin' & _).
    destruct (String.eqb _ channel); [|by apply elem_of_nil in Hin].
    apply list_elem_of_fmap in Hin as (c' & [= -> ->] & _).
    apply Hkey. apply list_elem_of_fmap. by exists (key, info').
Qed.

(** What the clean-up loop leaves of the sessions of an entry. *)
Lemma sessions_of_cleanup_key c m key k c' :
  c' ∈ sessions_of (cleanup_key c m key) k <->
  c' ∈ sessions_of m k /\ ~ (c' = c /\ k = key).
Proof.
  unfold cleanup_key. destruct (m !! key) as [subInfo|] eqn:Hkey.
  2:{ split; [|by intros [? _]]. intros Hin. split; [done|]. intros [-> ->].
      unfold sessions_of in Hin. rewrite Hkey in Hin. by apply elem_of_empty in Hin. }
  unfold remove_client. cbn [Clients].
  destruct (decide (k = key)) as [->|Hne].
  - destruct (size (Clients subInfo ∖ {[c]}) =? 0)%nat eqn:Hsize.
    + apply Nat.eqb_eq, size_empty_iff in Hsize.
      unfold sessions_of. rewrite lookup_delete_eq, Hkey. split.
      * intros Hin. by apply elem_of_empty in Hin.
      * intros [Hin Hne]. exfalso.
        assert (c' ∈ Clients subInfo ∖ {[c]}) as Hc'.
        { apply elem_of_difference. split; [done|]. intros Heq.
          apply elem_of_singleton in Heq. by apply Hne. }
        rewrite Hsize in Hc'. by apply elem_of_empty in Hc'.
    + unfold sessions_of. rewrite lookup_insert_eq, Hkey. cbn [Clients].
      rewrite elem_of_difference, elem_of_singleton. split.
      * intros [Hin Hne]. split; [done|]. by intros [-> _].
      * intros [Hin Hne]. split; [done|]. intros ->. by apply Hne.
  - unfold sessions_of.
    destruct (size (Clients subInfo ∖ {[c]}) =? 0)%nat.
    + rewrite lookup_delete_ne by done. split; [|by intros [? _]].
      intros Hin. split; [done|]. by intros [_ ->].
    + rewrite lookup_insert_ne by done. split; [|by intros [? _]].
      intros Hin. split; [done|]. by intros [_ ->].
Qed.

Lemma sessions_of_cleanup_keys c keys k c' : forall m,
  c' ∈ sessions_of (fold_left (cleanup_key c) keys m) k <->
  c' ∈ sessions_of m k /\ ~ (c' = c /\ k ∈ keys).
Proof.
  induction keys as [|key keys IH]; intros m; cbn [fold_left].
  - split; [|by intros [? _]]. intros Hin. split; [done|].
    intros [_ Hk]. by apply elem_of_nil in Hk.
  - rewrite IH, sessions_of_cleanup_key. split.
    + intros [[Hin Hne] Hne']. split; [done|]. intros [-> Hk].
      apply elem_of_cons in Hk as [->|Hk]; [by apply Hne|by apply Hne'].
    + intros [Hin Hne]. split; [split; [done|]|].
      * intros [-> ->]. apply Hne. split; [done|by left].
      * intros [-> Hk]. apply Hne. split; [done|by right].
Qed.

Lemma sessions_of_cleanup removals k c' : forall m,
  c' ∈ sessions_of (cleanup removals m) k <->
  c' ∈ sessions_of m k /\ ~ (exists keys, (c', keys) ∈ removals /\ k ∈ keys).
Proof.
  unfold cleanup.
  induction removals as [|[c keys] removals IH]; intros m; cbn [fold_left].
  - split; [|by intros [? _]]. intros Hin. split; [done|].
    intros (keys & Hk & _). by apply elem_of_nil in Hk.
  - rewrite IH, sessions_of_cleanup_keys. split.
    + intros [[Hin Hne] Hne']. split; [done|]. intros (keys' & Hin' & Hk).
      apply elem_of_cons in Hin' as [[= -> ->]|Hin']; [by apply Hne|].
      apply Hne'. by exists keys'.
    + intros [Hin Hne]. split; [split; [done|]|].
      * intros [-> Hk]. apply Hne. exists keys. split; [by left|done].
      * intros (keys' & Hin' & Hk). apply Hne. exists keys'. split; [by right|done].
Qed.

(** With nothing else running, the publish is [forwardMessageToClients]. *)
Lemma deliver_alone data key cs : forall n (heap : client.Heap) ctr seen,
  deliver data key cs (heap, ctr)
  = option_map (fun st => (snd (fst (fst st)), snd (fst st)))
               (deliver_among no_interference data key cs (n, heap, ctr, seen)).
Proof.
  induction cs as [|c0 cs IH]; intros n heap ctr seen; [done|].
  cbn [deliver deliver_among]. unfold no_interference at 1 2 3 4 5. cbv zeta.
  destruct (Go.select_send (client.Send (heap c0)) data); [apply IH|apply IH|done].
Qed.

Lemma forward_loop_alone E channel data entries :
  forall m n (heap : client.Heap) ctr seen,
  forward_loop E channel data entries (m, heap, ctr)
  = option_map (fun st => (fst st, snd (fst (fst (snd st))), snd (fst (snd st))))
      (forward_loop_among E no_interference channel data entries
         (m, (n, heap, ctr, seen))).
Proof.
  induction entries as [|[key subInfo] entries IH]; intros m n heap ctr seen; [done|].
  cbn [forward_loop forward_loop_among].
  destruct (String.eqb _ channel); [|apply IH].
  rewrite (deliver_alone data key _ n heap ctr seen).
  destruct (deliver_among no_interference data key _ (n, heap, ctr, seen))
    as [[[[n1 heap1] ctr1] seen1]|]; [|done].
  cbn [option_map fst snd]. apply IH.
Qed.

Lemma forwardMessageToClients_alone E channel data p :
  forwardMessageToClients E channel data p
  = published (forwardMessageToClients_among E no_interference channel data p).
Proof.
  unfold forwardMessageToClients, forwardMessageToClients_among.
  rewrite (forward_loop_alone E channel data _ _ O (heap p) ∅ []).
  by destruct (forward_loop_among _ _ _ _ _ _) as [[m1 [[[n1 heap1] ctr1] seen1]]|].
Qed.

Lemma attempt_pair_elem_of key c (seen : list attempt) :
  (exists q, mkAttempt key c q ∈ seen) <-> (key, c) ∈ map attempt_pair seen.
Proof.
  split.
  - intros (q & Hin). apply list_elem_of_fmap. by exists (mkAttempt key c q).
  - intros Hin. apply list_elem_of_fmap in Hin as ([k c' q] & [= -> ->] & Hin).
    by exists q.
Qed.

Lemma attempt_unique key c q q' (seen : list attempt) :
  NoDup (map attempt_pair seen) ->
  mkAttempt key c q ∈ seen -> mkAttempt key c q' ∈ seen -> q = q'.
Proof.
  induction seen as [|a seen IH]; intros Hnd Hq Hq'; [by apply elem_of_nil in Hq|].
  cbn [map] in Hnd. apply NoDup_cons in Hnd as [Hfresh Hnd].
  apply elem_of_cons in Hq as [<-|Hq]; apply elem_of_cons in Hq' as [Heq|Hq'].
  - by injection Heq.
  - exfalso. apply Hfresh. apply list_elem_of_fmap. by exists (mkAttempt key c q').
  - exfalso. apply Hfresh. subst a. apply list_elem_of_fmap.
    by exists (mkAttempt key c q).
  - by apply IH.
Qed.

(** C1, as the code has it. A publish on a channel type never parks the
    publisher. It makes one delivery attempt for each session of each
    entry of that type, whatever the other goroutines do to the queues in
    between, and when it returns it has removed a session from exactly
    those entries for which the attempt found the queue of the session
    full: the session is in the entry afterwards if and only if the queue
    had room at that attempt. The entries of the other channel types are
    as they were, no entry gains a session, and the active set is as it
    was. With nothing else running the publish is
    [forwardMessageToClients]: it returns when no queue it sends to has
    been closed, and it closes no queue. *)
Theorem publish_drops_a_session_where_its_queue_was_full E env channel data p :
  (forall r, forwardMessageToClients_among E env channel data p <> Go.Blocks r) /\
  (forall p' seen,
      forwardMessageToClients_among E env channel data p = Go.Returns (p', seen) ->
      (forall key c,
          (exists q, mkAttempt key c q ∈ seen) <->
          (exists info, globalSubscriptions p !! key = Some info /\
                        SubscriptionRequest.Type_ (Subscription info) = channel /\
                        c ∈ Clients info)) /\
      NoDup (map attempt_pair seen) /\
      (forall key c q,
          mkAttempt key c q ∈ seen ->
          Go.closed q = false /\
          (c ∈ sessions_of (globalSubscriptions p') key <-> Go.full q = false)) /\
      (forall key info,
          globalSubscriptions p !! key = Some info ->
          SubscriptionRequest.Type_ (Subscription info) <> channel ->
          globalSubscriptions p' !! key = Some info) /\
      (forall key, sessions_of (globalSubscriptions p') key
                   ⊆ sessions_of (globalSubscriptions p) key) /\
      hub p' = hub p) /\
  forwardMessageToClients E channel data p
  = published (forwardMessageToClients_among E no_interference channel data p) /\
  ((forall key info c,
       globalSubscriptions p !! key = Some info ->
       SubscriptionRequest.Type_ (Subscription info) = channel ->
       c ∈ Clients info ->
       Go.closed (client.Send (heap p c)) = false) ->
   exists p',
     forwardMessageToClients E channel data p = Go.Returns p' /\
     forall c, Go.closed (client.Send (heap p' c)) = Go.closed (client.Send (heap p c))).
Proof.
  split; [|split; [|split]].
  - intros r. unfold forwardMessageToClients_among.
    by destruct (forward_loop_among _ _ _ _ _ _) as [[m1 [[[n1 heap1] ctr1] seen1]]|].
  - intros p' seen Hret. unfold forwardMessageToClients_among in Hret.
    destruct (forward_loop_among E env channel data
                (range_subs (order E) (globalSubscriptions p))
                (globalSubscriptions p, (O, heap p, ∅, [])))
      as [[m1 [[[n1 heap1] ctr1] seen1]]|] eqn:Hloop; [|done].
    injection Hret as <- <-. cbn [globalSubscriptions set_heap set_globalSubscriptions hub].
    apply forward_loop_among_spec in Hloop as (new & Hseen & Hpairs & Hopen & Hmarked & Hm).
    cbn [app] in Hseen. subst new.
    assert (Hnd : NoDup (map attempt_pair seen1)).
    { rewrite Hpairs. apply attempts_due_NoDup.
      rewrite (range_subs_perm (order E)). apply NoDup_fst_map_to_list. }
    assert (Hdue : forall key c,
               (exists q, mkAttempt key c q ∈ seen1) <->
               (exists info, globalSubscriptions p !! key = Some info /\
                             SubscriptionRequest.Type_ (Subscription info) = channel /\
                             c ∈ Clients info)).
    { intros key c. etransitivity; [apply attempt_pair_elem_of|]. rewrite Hpairs.
      etransitivity; [apply elem_of_attempts_due|].
      split; intros (info & Hin & H); exists info.
      - split; [|exact H]. by apply (elem_of_range_subs (order E)) in Hin.
      - split; [|exact H]. by apply (elem_of_range_subs (order E)). }
    assert (Hclients : forall key, sessions_of m1 key
                                   = sessions_of (globalSubscriptions p) key).
    { intros key. destruct (Hm key) as [Hk|(s & Hin & _ & Hk)].
      - unfold sessions_of. by rewrite Hk.
      - apply elem_of_range_subs in Hin. unfold sessions_of. by rewrite Hk, Hin. }
    assert (Hremoved : forall key c,
               (exists keys, (c, keys) ∈ range_removals (order E) ctr1 /\ key ∈ keys) <->
               (exists q, mkAttempt key c q ∈ seen1 /\ Go.full q = true)).
    { intros key c. split.
      - intros (keys & Hin & Hk). apply elem_of_range_removals in Hin.
        assert (key ∈ marked ctr1 c) as Hk' by (unfold marked; by rewrite Hin).
        apply Hmarked in Hk' as [Hk'|Hk']; [|done].
        unfold marked in Hk'. rewrite lookup_empty in Hk'. by apply elem_of_nil in Hk'.
      - intros Hq. assert (key ∈ marked ctr1 c) as Hk by (apply Hmarked; by right).
        unfold marked in Hk. destruct (ctr1 !! c) as [keys|] eqn:Hctr;
          [|by apply elem_of_nil in Hk].
        exists keys. split; [by apply elem_of_range_removals|done]. }
    split; [exact Hdue|]. split; [exact Hnd|]. split; [|split; [|split; [|done]]].
    + intros key c q Hin. split.
      { rewrite Forall_forall in Hopen. exact (Hopen _ Hin). }
      rewrite sessions_of_cleanup, Hclients, Hremoved.
      assert (c ∈ sessions_of (globalSubscriptions p) key) as Hc.
      { destruct (proj1 (Hdue key c)) as (info & Hk & _ & Hc); [by exists q|].
        unfold sessions_of. by rewrite Hk. }
      split.
      * intros [_ Hnot]. destruct (Go.full q) eqn:Hf; [|done].
        exfalso. apply Hnot. by exists q.
      * intros Hroom. split; [done|]. intros (q' & Hin' & Hf).
        rewrite (attempt_unique key c q q' seen1 Hnd Hin Hin') in Hroom. congruence.
    + intros key info Hkey Htype.
      destruct (cleanup_spec (range_removals (order E) ctr1) m1) as (_ & _ & Hkeep & _).
      assert (Hm1 : m1 !! key = Some info).
      { destruct (Hm key) as [Heq|(s & Hin & Hs & _)]; [by rewrite Heq|].
        apply elem_of_range_subs in Hin. congruence. }
      rewrite Hkeep; [done|].
      intros c keys Hin Hk.
      destruct (proj1 (Hremoved key c)) as (q & Hq & _); [by exists keys|].
      destruct (proj1 (Hdue key c)) as (info' & Hk' & Ht' & _); [by exists q|].
      congruence.
    + intros key c Hin. apply sessions_of_cleanup in Hin as [Hin _].
      by rewrite Hclients in Hin.
  - apply forwardMessageToClients_alone.
  - intros Hopen.
    assert (Hloop : forall entries m (heap0 : client.Heap) ctr,
      (forall key subInfo c,
          (key, subInfo) ∈ entries ->
          SubscriptionRequest.Type_ (Subscription subInfo) = channel ->
          c ∈ Clients subInfo ->
          Go.closed (client.Send (heap0 c)) = false) ->
      exists m' heap' ctr',
        forward_loop E channel data entries (m, heap0, ctr) = Some (m', heap', ctr') /\
        forall c, Go.closed (client.Send (heap' c)) = Go.closed (client.Send (heap0 c))).
    { induction entries as [|[key subInfo] entries IH]; intros m heap0 ctr Hall.
      - by exists m, heap0, ctr.
      - cbn [forward_loop].
        destruct (String.eqb (SubscriptionRequest.Type_ (Subscription subInfo)) channel)
          eqn:Htype.
        + apply String.eqb_eq in Htype.
          destruct (deliver_progress data key (range_clients (order E) (Clients subInfo))
                      heap0 ctr) as (heap1 & ctr1 & -> & Hcl).
          { intros c Hin. eapply (Hall key subInfo); [by left|done|].
            rewrite (range_clients_perm (order E)) in Hin.
            by apply elem_of_elements in Hin. }
          edestruct IH as (m' & heap' & ctr' & Hrun & Hcl').
          2:{ exists m', heap', ctr'. split; [exact Hrun|].
              intros c. by rewrite Hcl', Hcl. }
          intros k s c Hin Ht Hc. rewrite Hcl. eapply Hall; eauto. by right.
        + apply IH. intros k s c Hin Ht Hc. eapply Hall; eauto. by right. }
    destruct (Hloop (range_subs (order E) (globalSubscriptions p))
                (globalSubscriptions p) (heap p) ∅) as (m1 & heap1 & ctr1 & Hrun & Hcl).
    { intros key info c Hin. apply elem_of_range_subs in Hin. by eapply Hopen. }
    unfold forwardMessageToClients. rewrite Hrun.
    eexists. split; [reflexivity|]. exact Hcl.
Qed.

Lemma returns_result (o : Go.outcome (Proxy * list attempt)) d :
  Go.returns o = true -> o = Go.Returns (result_of o d).
Proof. by destruct o. Qed.

Lemma publish_drops_a_session_where_its_queue_was_full_witness :
  (forwardMessageToClients_among E no_interference "trades" (Raw "trade") one_short
   = Go.Returns fills_midway /\
   1%nat ∈ sessions_of (globalSubscriptions (fst fills_midway)) "trades-ETH" /\
   ~ 1%nat ∈ sessions_of (globalSubscriptions (fst fills_midway)) "trades-BTC") /\
  (forwardMessageToClients_among E write_loop_runs "trades" (Raw "trade") one_short
   = Go.Returns drained_midway /\
   1%nat ∈ sessions_of (globalSubscriptions (fst drained_midway)) "trades-ETH" /\
   1%nat ∈ sessions_of (globalSubscriptions (fst drained_midway)) "trades-BTC").
Proof.
  pose (queue := client.Send (heap one_short 1%nat)).
  split.
  - assert (Hret : forwardMessageToClients_among E no_interference "trades" (Raw "trade")
                     one_short = Go.Returns fills_midway).
    { unfold fills_midway. apply returns_result. vm_compute. reflexivity. }
    assert (Hseen : snd fills_midway
                    = [mkAttempt "trades-ETH" 1%nat queue;
                       mkAttempt "trades-BTC" 1%nat (Go.enqueue queue (Raw "trade"))])
      by (vm_compute; reflexivity).
    destruct fills_midway as [p' seen]. cbn [fst snd] in *.
    pose proof (proj1 (proj2 (publish_drops_a_session_where_its_queue_was_full
                                E no_interference "trades" (Raw "trade") one_short))
                  p' seen Hret) as (_ & _ & H & _).
    split; [exact Hret|]. split.
    + apply (H "trades-ETH"%string 1%nat queue).
      * rewrite Hseen. by left.
      * vm_compute. reflexivity.
    + intros Hin.
      apply (H "trades-BTC"%string 1%nat (Go.enqueue queue (Raw "trade"))) in Hin.
      * vm_compute in Hin. discriminate.
      * rewrite Hseen. right. by left.
  - pose (drained := Go.mkchan (tail (Go.buf queue) ++ [Raw "trade"]) 256 false).
    assert (Hret : forwardMessageToClients_among E write_loop_runs "trades" (Raw "trade")
                     one_short = Go.Returns drained_midway).
    { unfold drained_midway. apply returns_result. vm_compute. reflexivity. }
    assert (Hseen : snd drained_midway
                    = [mkAttempt "trades-ETH" 1%nat queue;
                       mkAttempt "trades-BTC" 1%nat drained])
      by (vm_compute; reflexivity).
    destruct drained_midway as [p' seen]. cbn [fst snd] in *.
    pose proof (proj1 (proj2 (publish_drops_a_session_where_its_queue_was_full
                                E write_loop_runs "trades" (Raw "trade") one_short))
                  p' seen Hret) as (_ & _ & H & _).
    split; [exact Hret|]. split.
    + apply (H "trades-ETH"%string 1%nat queue).
      * rewrite Hseen. by left.
      * vm_compute. reflexivity.
    + apply (H "trades-BTC"%string 1%nat drained).
      * rewrite Hseen. right. by left.
      * vm_compute. reflexivity.
Defined.

(** C1, as stated, fails: session 1, subscribed to the trades of ETH and
    to all prices, has a full queue when a trade is published. The publish
    returns; the session is out of the trades entry, which is pruned, but
    it is still in the entry of all prices, still in the active set, and
    its queue is not closed. And when the session is in two entries of
    trades and its queue has room for one frame, the publish fills the
    queue with the first delivery and finds it full at the second: the
    session is out of the second entry and still in the first. *)
Lemma full_session_stays_elsewhere :
  (Go.full (client.Send (heap saturated 1%nat)) = true /\
   Clients <$> globalSubscriptions saturated !! "trades-ETH"%string = Some {[1%nat]} /\
   Clients <$> globalSubscriptions saturated !! "allMids"%string = Some {[1%nat]} /\
   forwardMessageToClients E "trades" (Raw "trade") saturated = Go.Returns after_trade /\
   globalSubscriptions after_trade !! "trades-ETH"%string = None /\
   Clients <$> globalSubscriptions after_trade !! "allMids"%string = Some {[1%nat]} /\
   client.Clients (hub after_trade) = {[1%nat]} /\
   Go.closed (client.Send (heap after_trade 1%nat)) = false) /\
  (Go.full (client.Send (heap one_short 1%nat)) = false /\
   Clients <$> globalSubscriptions one_short !! "trades-ETH"%string = Some {[1%nat]} /\
   Clients <$> globalSubscriptions one_short !! "trades-BTC"%string = Some {[1%nat]} /\
   forwardMessageToClients E "trades" (Raw "trade") one_short = Go.Returns after_fill /\
   Clients <$> globalSubscriptions after_fill !! "trades-ETH"%string = Some {[1%nat]} /\
   globalSubscriptions after_fill !! "trades-BTC"%string = None /\
   Go.full (client.Send (heap after_fill 1%nat)) = true /\
   client.Clients (hub after_fill) = {[1%nat]} /\
   Go.closed (client.Send (heap after_fill 1%nat)) = false).
Proof.
  split.
  - split; [vm_compute; reflexivity|].
    split; [vm_compute; reflexivity|].
    split; [vm_compute; reflexivity|].
    split; [apply returns_default; vm_compute; reflexivity|].
    repeat split; vm_compute; reflexivity.
  - split; [vm_compute; reflexivity|].
    split; [vm_compute; reflexivity|].
    split; [vm_compute; reflexivity|].
    split; [apply returns_default; vm_compute; reflexivity|].
    repeat split; vm_compute; reflexivity.
Qed.

End publish.


(** ** The registry: sessions that leave *)

Section teardown.
Import proxy registry_examples.

(** The hub's unregister case touches the active set and the queue of the
    session, and nothing of the registry. *)
Lemma Unregister_keeps_registry c p p' :
  state_after (Unregister c p) = Some p' ->
  globalSubscriptions p' = globalSubscriptions p /\
  forall c', client.Subscriptions (heap p' c') = client.Subscriptions (heap p c').
Proof.
  unfold Unregister, client.Run_Unregister.
  destruct (decide (c ∈ client.Clients (hub p))); [|by intros [= <-]].
  destruct (Go.close (client.Send (heap p c))) as [ch|]; [|done].
  intros [= <-]. split; [done|]. intros c'. cbn. unfold client.store.
  by destruct (decide (c' = c)) as [->|].
Qed.

(** C3, which the hub does not meet: session 1 is registered, subscribes
    to the trades of ETH and is unregistered. The unregister case closes its
    queue and drops it from the active set, but the registry still has the
    entry with session 1 in it; the next publish of a trade then sends on
    the closed queue and panics. *)
Theorem unregister_leaves_session_in_registry :
  Unregister 1%nat subscribed = Go.Returns disconnected /\
  client.Clients (hub disconnected) = ∅ /\
  Go.closed (client.Send (heap disconnected 1%nat)) = true /\
  Clients <$> globalSubscriptions disconnected !! "trades-ETH"%string
    = Some {[1%nat]} /\
  forwardMessageToClients E "trades" (Raw "trade") disconnected = Go.Panics.
Proof.
  split; [apply returns_default; vm_compute; reflexivity|].
  repeat split; vm_compute; reflexivity.
Qed.

Lemma handlePostRequest_keeps_registry E c msg p p' :
  state_after (handlePostRequest E c msg p) = Some p' ->
  globalSubscriptions p' = globalSubscriptions p.
Proof.
  unfold handlePostRequest, sendPostErrorToClient, sendErrorToClient.
  assert (Hsend : forall f q q',
             state_after (on_client c f q) = Some q' ->
             globalSubscriptions q' = globalSubscriptions q).
  { intros f q q' H. by apply on_client_only_heap in H as [(_ & _ & H & _) _]. }
  destruct (WSMessage.Request msg) as [request|], (WSMessage.ID msg) as [id|];
    try (by apply Hsend).
  destruct (useLocalNode p); [by apply Hsend|].
  destruct (hlConnector p) as [connector|]; [|by apply Hsend].
  destruct (hyperliquid.PostRequest _ _ _ _ connector) as [connector' result].
  destruct (hyperliquid.err result), (hyperliquid.response result);
    try (intros H; by apply Hsend in H).
  by intros [= <-].
Qed.

Lemma no_empty_entry_insert key info m :
  Clients info <> ∅ -> no_empty_entry m -> no_empty_entry (<[key := info]> m).
Proof.
  intros Hinfo Hm k i. destruct (decide (key = k)) as [<-|Hne].
  - rewrite lookup_insert_eq. by intros [= <-].
  - rewrite lookup_insert_ne by done. apply Hm.
Qed.

Lemma no_empty_entry_delete key m :
  no_empty_entry m -> no_empty_entry (delete key m).
Proof. intros Hm k i H. apply lookup_delete_Some in H as [_ H]. by eapply Hm. Qed.

Lemma handleClientMessage_no_empty_entry E c data p p' :
  no_empty_entry (globalSubscriptions p) ->
  state_after (handleClientMessage E c data p) = Some p' ->
  no_empty_entry (globalSubscriptions p').
Proof.
  intros Hp. unfold handleClientMessage.
  assert (Herr : forall errorMsg,
             state_after (sendErrorToClient E c errorMsg p) = Some p' ->
             no_empty_entry (globalSubscriptions p')).
  { intros errorMsg H. apply on_client_only_heap in H as [(_ & _ & H & _) _].
    by rewrite H. }
  destruct (json_Unmarshal E data) as [msg|]; [|apply Herr].
  destruct (String.eqb (WSMessage.Method msg) "subscribe").
  { destruct (WSMessage.Subscription msg) as [sub|]; [|apply Herr].
    intros H. apply handleSubscribe_registry in H. rewrite H.
    apply no_empty_entry_insert; [|done]. cbn.
    intros Hempty. apply (not_elem_of_empty (C := gset Go.ptr) c).
    rewrite <- Hempty. apply elem_of_union_l. by apply elem_of_singleton. }
  destruct (String.eqb (WSMessage.Method msg) "unsubscribe").
  { destruct (WSMessage.Subscription msg) as [sub|]; [|apply Herr].
    intros H. apply handleUnsubscribe_registry in H. rewrite H.
    destruct (globalSubscriptions p !! createSubscriptionKey sub); [|done].
    by apply no_empty_entry_remove_client. }
  destruct (String.eqb (WSMessage.Method msg) "post"); [|apply Herr].
  intros H. apply handlePostRequest_keeps_registry in H. by rewrite H.
Qed.

Lemma forwardMessageToClients_no_empty_entry E channel data p p' :
  no_empty_entry (globalSubscriptions p) ->
  state_after (forwardMessageToClients E channel data p) = Some p' ->
  no_empty_entry (globalSubscriptions p').
Proof.
  intros Hp. unfold forwardMessageToClients.
  destruct (forward_loop E channel data
              (range_subs (order E) (globalSubscriptions p))
              (globalSubscriptions p, heap p, ∅))
    as [[[m1 heap1] ctr1]|] eqn:Hloop; [|done].
  intros [= <-]. cbn [globalSubscriptions set_heap set_globalSubscriptions].
  apply forward_loop_spec in Hloop as (_ & _ & _ & _ & He).
  apply cleanup_spec.
  intros k info Hk. destruct (He k) as [Heq|(s & Hin & _ & Heq)].
  - rewrite Heq in Hk. by eapply Hp.
  - apply elem_of_range_subs in Hin. rewrite Hk in Heq. injection Heq as ->.
    cbn. by eapply Hp.
Qed.

(** In every state the gateway reaches, no registry entry has an empty
    session set. *)
Lemma reachable_no_empty_entry p0 p :
  no_empty_entry (globalSubscriptions p0) ->
  reachable p0 p ->
  no_empty_entry (globalSubscriptions p).
Proof.
  intros Hp0 Hreach. induction Hreach as [|p p' _ IH Hstep]; [done|].
  destruct Hstep as [E a p p' Hperform].
  destruct a as [c|c|c data|channel data|data|n|c]; cbn [perform] in Hperform.
  - by injection Hperform as <-.
  - apply Unregister_keeps_registry in Hperform as [-> _]. done.
  - by eapply handleClientMessage_no_empty_entry.
  - by eapply forwardMessageToClients_no_empty_entry.
  - unfold handleHyperliquidMessage in Hperform.
    destruct (json_Unmarshal E data) as [msg|]; [|by injection Hperform as <-].
    destruct (_ || _); [by injection Hperform as <-|].
    by eapply forwardMessageToClients_no_empty_entry.
  - destruct (goroutines p !! n) as [g|]; [|by injection Hperform as <-].
    destruct g as [c sub key|sub].
    + apply run_goroutine_Subscribe_registry in Hperform as [->| ->]; [done|].
      by apply no_empty_entry_delete.
    + unfold run_goroutine in Hperform. cbn [hlConnector set_goroutines] in Hperform.
      destruct (hlConnector p) as [connector|]; [|by injection Hperform as <-].
      destruct (hyperliquid.Unsubscribe _ sub connector) as [connector' e].
      by injection Hperform as <-.
  - by injection Hperform as <-.
Qed.

Lemma NewProxy_no_empty_entry EnableLocalNode LocalNodeDataPath p :
  reachable (NewProxy EnableLocalNode LocalNodeDataPath) p ->
  no_empty_entry (globalSubscriptions p).
Proof.
  apply reachable_no_empty_entry. intros key info.
  destruct EnableLocalNode; cbn; by rewrite lookup_empty.
Qed.

End teardown.


(** ** The registry: subscribe, then unsubscribe *)

Section roundtrip.
Import proxy registry_examples.

Lemma only_session_shrinks c key m m' :
  shrinks m m' -> only_session c key m -> only_session c key m'.
Proof.
  intros Hs Hm info' H'. destruct (Hs key info' H') as (info & Hinfo & _ & Hsub).
  specialize (Hm info Hinfo). by etransitivity.
Qed.

Lemma delete_shrinks key (m : gmap string SubscriptionInfo) : shrinks m (delete key m).
Proof. intros k info H. apply lookup_delete_Some in H as [_ H]. by exists info. Qed.

(** A publish adds no entry and no session to the registry. *)
Lemma forwardMessageToClients_shrinks E channel data p p' :
  state_after (forwardMessageToClients E channel data p) = Some p' ->
  shrinks (globalSubscriptions p) (globalSubscriptions p').
Proof.
  unfold forwardMessageToClients.
  destruct (forward_loop E channel data
              (range_subs (order E) (globalSubscriptions p))
              (globalSubscriptions p, heap p, ∅))
    as [[[m1 heap1] ctr1]|] eqn:Hloop; [|done].
  intros [= <-]. cbn [globalSubscriptions set_heap set_globalSubscriptions].
  apply forward_loop_spec in Hloop as (_ & _ & _ & _ & He).
  eapply shrinks_trans; [|apply cleanup_spec].
  intros k info1 Hk. destruct (He k) as [Heq|(s & Hin & _ & Heq)].
  - exists info1. by rewrite <- Heq.
  - apply elem_of_range_subs in Hin. exists s. rewrite Hk in Heq.
    injection Heq as ->. by cbn.
Qed.

Lemma perform_quiet c key E a p p' :
  quiet c key E a ->
  only_session c key (globalSubscriptions p) ->
  state_after (perform E a p) = Some p' ->
  only_session c key (globalSubscriptions p').
Proof.
  intros Hquiet Hp Hperform.
  destruct a as [c'|c'|c' data|channel data|data|n|c']; cbn [perform] in Hperform.
  - by injection Hperform as <-.
  - apply Unregister_keeps_registry in Hperform as [-> _]. done.
  - cbn in Hquiet. unfold handleClientMessage in Hperform.
    assert (Herr : forall errorMsg,
               state_after (sendErrorToClient E c' errorMsg p) = Some p' ->
               only_session c key (globalSubscriptions p')).
    { intros errorMsg H. apply on_client_only_heap in H as [(_ & _ & H & _) _].
      by rewrite H. }
    destruct (json_Unmarshal E data) as [msg|] eqn:Hmsg; [|by eapply Herr].
    destruct (String.eqb (WSMessage.Method msg) "subscribe") eqn:Hmethod.
    { apply String.eqb_eq in Hmethod.
      destruct (WSMessage.Subscription msg) as [sub|] eqn:Hsub; [|by eapply Herr].
      apply handleSubscribe_registry in Hperform. rewrite Hperform.
      intros info. destruct (decide (createSubscriptionKey sub = key)) as [Hkey|Hkey].
      - rewrite Hkey, lookup_insert_eq. intros [= <-]. cbn.
        destruct Hquiet as [->|Hother]; [|by destruct (Hother msg sub)].
        destruct (globalSubscriptions p !! key) as [info0|] eqn:H0; cbn.
        + specialize (Hp info0 H0). by apply union_least.
        + by rewrite union_empty_r_L.
      - rewrite lookup_insert_ne by done. apply Hp. }
    destruct (String.eqb (WSMessage.Method msg) "unsubscribe").
    { destruct (WSMessage.Subscription msg) as [sub|]; [|by eapply Herr].
      apply handleUnsubscribe_registry in Hperform. rewrite Hperform.
      pose proof (cleanup_key_spec c' (globalSubscriptions p) (createSubscriptionKey sub))
        as (Hshrink & _).
      unfold cleanup_key in Hshrink.
      destruct (globalSubscriptions p !! createSubscriptionKey sub); [|done].
      by eapply only_session_shrinks. }
    destruct (String.eqb (WSMessage.Method msg) "post"); [|by eapply Herr].
    apply handlePostRequest_keeps_registry in Hperform. by rewrite Hperform.
  - eapply only_session_shrinks; [|done]. by eapply forwardMessageToClients_shrinks.
  - unfold handleHyperliquidMessage in Hperform.
    destruct (json_Unmarshal E data) as [msg|]; [|by injection Hperform as <-].
    destruct (_ || _); [by injection Hperform as <-|].
    eapply only_session_shrinks; [|done]. by eapply forwardMessageToClients_shrinks.
  - destruct (goroutines p !! n) as [g|]; [|by injection Hperform as <-].
    destruct g as [c0 sub key0|sub].
    + apply run_goroutine_Subscribe_registry in Hperform as [->| ->]; [done|].
      eapply only_session_shrinks; [apply delete_shrinks|done].
    + unfold run_goroutine in Hperform. cbn [hlConnector set_goroutines] in Hperform.
      destruct (hlConnector p) as [connector|]; [|by injection Hperform as <-].
      destruct (hyperliquid.Unsubscribe _ sub connector) as [connector' e].
      by injection Hperform as <-.
  - by injection Hperform as <-.
Qed.

Lemma quiet_run_only_session c key p p' :
  quiet_run c key p p' ->
  only_session c key (globalSubscriptions p) ->
  only_session c key (globalSubscriptions p').
Proof.
  induction 1 as [|E a p p' p'' Hquiet Hperform _ IH]; [done|].
  intros Hp. apply IH. by eapply perform_quiet.
Qed.

(** C6: from a registry with no entry for the key of a spec, a session
    that subscribes with the spec and then unsubscribes with it leaves the
    registry with no entry for the key. With nothing in between the
    registry is the one from before; the entry is gone as well after any
    run of other actions in between (publishes, the upstream goroutines and
    their rollback, registrations, requests of other sessions) during which
    no other session subscribes under the key. *)
Theorem subscribe_then_unsubscribe E1 c sub p p1 :
  globalSubscriptions p !! createSubscriptionKey sub = None ->
  state_after (handleSubscribe E1 c (Some sub) p) = Some p1 ->
  (forall E2 p2,
      state_after (handleUnsubscribe E2 c (Some sub) p1) = Some p2 ->
      globalSubscriptions p2 !! createSubscriptionKey sub = None /\
      globalSubscriptions p2 = globalSubscriptions p) /\
  (forall p1' E2 p2,
      quiet_run c (createSubscriptionKey sub) p1 p1' ->
      state_after (handleUnsubscribe E2 c (Some sub) p1') = Some p2 ->
      globalSubscriptions p2 !! createSubscriptionKey sub = None).
Proof.
  intros Hnone Hsub.
  apply handleSubscribe_registry in Hsub. cbv zeta in Hsub.
  rewrite Hnone in Hsub. cbn [default Subscription Clients LastMessage LastUpdate] in Hsub.
  set (key := createSubscriptionKey sub) in *.
  split.
  - intros E2 p2 Hunsub.
    apply handleUnsubscribe_registry in Hunsub. fold key in Hunsub.
    rewrite Hsub, lookup_insert_eq in Hunsub. unfold remove_client in Hunsub.
    cbn [Clients] in Hunsub.
    rewrite union_empty_r_L, difference_diag_L, size_empty in Hunsub.
    cbn in Hunsub. rewrite delete_insert_eq, delete_id in Hunsub by done.
    by rewrite Hunsub.
  - intros p1' E2 p2 Hrun Hunsub.
    apply handleUnsubscribe_registry in Hunsub. fold key in Hunsub.
    assert (Honly : only_session c key (globalSubscriptions p1')).
    { eapply quiet_run_only_session; [exact Hrun|].
      intros info. rewrite Hsub, lookup_insert_eq. intros [= <-]. cbn.
      by rewrite union_empty_r_L. }
    rewrite Hunsub.
    destruct (globalSubscriptions p1' !! key) as [info|] eqn:Hkey; [|done].
    unfold remove_client. cbn [Clients].
    replace (Clients info ∖ {[c]}) with (∅ : gset Go.ptr).
    + rewrite size_empty. cbn. apply lookup_delete_eq.
    + specialize (Honly info Hkey). symmetry. apply leibniz_equiv.
      apply elem_of_equiv_empty. intros x Hx.
      apply elem_of_difference in Hx as [Hx Hne]. by apply Hne, Honly.
Qed.

Lemma subscribe_then_unsubscribe_witness :
  globalSubscriptions subscribed !! createSubscriptionKey sub_trades_ETH <> None /\
  globalSubscriptions unsubscribed !! createSubscriptionKey sub_trades_ETH = None /\
  globalSubscriptions busy_unsubscribed !! createSubscriptionKey sub_trades_ETH = None.
Proof.
  assert (Hnone : globalSubscriptions connected !! createSubscriptionKey sub_trades_ETH
                  = None) by (vm_compute; reflexivity).
  assert (Hsub : state_after (handleSubscribe E 1%nat (Some sub_trades_ETH) connected)
                 = Some subscribed).
  { apply state_after_default. vm_compute. reflexivity. }
  assert (Hunsub : state_after (handleUnsubscribe E 1%nat (Some sub_trades_ETH) subscribed)
                   = Some unsubscribed).
  { apply state_after_default. vm_compute. reflexivity. }
  assert (Hbusy : state_after (handleUnsubscribe E 1%nat (Some sub_trades_ETH) busy)
                  = Some busy_unsubscribed).
  { apply state_after_default. vm_compute. reflexivity. }
  pose proof (subscribe_then_unsubscribe E 1%nat sub_trades_ETH connected subscribed
                Hnone Hsub) as [Hplain Hquiet].
  split; [by vm_compute|].
  split; [exact (proj1 (Hplain E unsubscribed Hunsub))|].
  refine (Hquiet busy E busy_unsubscribed _ Hbusy).
  apply (quiet_step _ _ E (act_Goroutine 0) subscribed busy_1); [done| |].
  { apply state_after_default. by vm_compute. }
  apply (quiet_step _ _ E (act_Register 2%nat) busy_1 busy_2); [done| |].
  { apply state_after_default. by vm_compute. }
  apply (quiet_step _ _ E (act_ClientMessage 2%nat "hello") busy_2 busy_3).
  { right. intros msg sub Hmsg Hmethod. injection Hmsg as <-. discriminate. }
  { apply state_after_default. by vm_compute. }
  apply (quiet_step _ _ E (act_Publish "allMids" (Raw "mids")) busy_3 busy); [done| |].
  { apply state_after_default. by vm_compute. }
  apply quiet_done.
Defined.

End roundtrip.

(** ** The log reader: offsets *)

Section offsets.
Import local_node_reader reader_examples.

Lemma len_nonneg s : (0 <= Go.len s)%Z.
Proof. unfold Go.len. lia. Qed.

Lemma len_String c s : Go.len (String c s) = (Go.len s + 1)%Z.
Proof. unfold Go.len. cbn [String.length]. lia. Qed.

Lemma len_empty : Go.len EmptyString = 0%Z.
Proof. reflexivity. Qed.

Lemma sum_len_nonneg lines : (0 <= sum_len lines)%Z.
Proof.
  unfold sum_len. induction lines as [|l lines IH]; cbn [fold_right]; [lia|].
  pose proof (len_nonneg l). lia.
Qed.

Lemma Split_lines_nonempty s : Go.Split_lines s <> [].
Proof.
  destruct s as [|c s]; cbn; [done|].
  destruct (Go.Split_lines s); [done|]. by destruct (Ascii.eqb c Go.newline).
Qed.

(** The pieces and the newlines between them add up to the string. *)
Lemma sum_len_Split_lines s : sum_len (Go.Split_lines s) = (Go.len s + 1)%Z.
Proof.
  induction s as [|c s IH]; [reflexivity|].
  cbn [Go.Split_lines]. rewrite len_String.
  destruct (Go.Split_lines s) as [|piece pieces] eqn:Hs.
  { by pose proof (Split_lines_nonempty s). }
  unfold sum_len in *.
  destruct (Ascii.eqb c Go.newline); cbn [fold_right] in *.
  - rewrite len_empty. lia.
  - rewrite len_String. lia.
Qed.








Lemma drop_bytes_len n s : (Go.len (Go.drop_bytes n s) <= Go.len s)%Z.
Proof.
  revert s. induction n as [|n IH]; intros s; cbn [Go.drop_bytes]; [lia|].
  destruct s as [|c s]; [lia|]. rewrite len_String. specialize (IH s). lia.
Qed.

Lemma drop_bytes_len_exact n s :
  (n <= String.length s)%nat ->
  Go.len (Go.drop_bytes n s) = (Go.len s - Z.of_nat n)%Z.
Proof.
  revert s. induction n as [|n IH]; intros s Hn; cbn [Go.drop_bytes]; [lia|].
  destruct s as [|c s]; cbn in Hn; [lia|].
  rewrite len_String, IH by lia. lia.
Qed.


Lemma fold_left_keeps {R A X} (f : R -> A -> R) (g : R -> X) (l : list A) :
  (forall r a, g (f r a) = g r) -> forall r, g (fold_left f l r) = g r.
Proof.
  intros Hf. induction l as [|a l IH]; intros r; [done|].
  cbn [fold_left]. by rewrite IH, Hf.
Qed.

Lemma processOrder_lastReadFiles E blockTime userAddress r order :
  lastReadFiles (processOrder E blockTime userAddress r order) = lastReadFiles r.
Proof. unfold processOrder. by destruct (parseBlockTime _ _ _). Qed.

Lemma processSignedAction_lastReadFiles E blockTime r action :
  lastReadFiles (processSignedAction E blockTime r action) = lastReadFiles r.
Proof.
  unfold processSignedAction, processOrders, processCancellations.
  destruct (String.eqb _ "order"); [|by destruct (String.eqb _ _)].
  apply (fold_left_keeps _ lastReadFiles). intros. apply processOrder_lastReadFiles.
Qed.

Lemma processSignedActionBundle_lastReadFiles E blockTime r bundleArray :
  lastReadFiles (processSignedActionBundle E blockTime r bundleArray) = lastReadFiles r.
Proof.
  unfold processSignedActionBundle.
  destruct bundleArray as [|? [|bundleData ?]]; try done.
  destruct (json_Unmarshal_bundle E bundleData); [|done].
  apply (fold_left_keeps _ lastReadFiles). intros. apply processSignedAction_lastReadFiles.
Qed.

Lemma processBlock_lastReadFiles E r block :
  lastReadFiles (processBlock E r block) = lastReadFiles r.
Proof.
  unfold processBlock.
  match goal with |- context [fold_left ?f ?l ?r0] =>
    assert (H : lastReadFiles (fold_left f l r0) = lastReadFiles r)
  end.
  { rewrite (fold_left_keeps _ lastReadFiles); [done|].
    intros. apply processSignedActionBundle_lastReadFiles. }
  by destruct (_ <? 1000)%nat.
Qed.

Lemma sum_len_cons l lines : sum_len (l :: lines) = (Go.len l + 1 + sum_len lines)%Z.
Proof. reflexivity. Qed.

Lemma sum_len_pos l lines : (1 <= sum_len (l :: lines))%Z.
Proof.
  rewrite sum_len_cons. pose proof (len_nonneg l). pose proof (sum_len_nonneg lines). lia.
Qed.

Lemma add64_small a b :
  (Go.int64_min <= a + b <= Go.int64_max)%Z -> Go.add64 a b = (a + b)%Z.
Proof. apply wrap64_small. Qed.







Lemma sum_len_removelast lines :
  lines <> [] ->
  sum_len lines
    = (sum_len (List.removelast lines) + Go.len (List.last lines EmptyString) + 1)%Z.
Proof.
  induction lines as [|l [|l2 rest] IH]; intros Hne; [done| |].
  - cbn. lia.
  - change (List.removelast (l :: l2 :: rest)) with (l :: List.removelast (l2 :: rest)).
    change (List.last (l :: l2 :: rest) EmptyString)
      with (List.last (l2 :: rest) EmptyString).
    rewrite !(sum_len_cons l), IH by done. lia.
Qed.

Lemma readBlockFile_loop_cons E nlines bytesRead remainingSize fromPos size i line rest
    newPos r :
  readBlockFile_loop E nlines bytesRead remainingSize fromPos size i (line :: rest)
                     newPos r
  = let continue := readBlockFile_loop E nlines bytesRead remainingSize fromPos size
                      (i + 1) rest in
    let line := Go.TrimSpace line in
    if String.eqb line EmptyString then continue newPos r
    else
      let newPos :=
        if (i <? nlines - 1)%Z then Go.add64 newPos (Go.add64 (Go.len line) 1)
        else newPos in
      if (i =? nlines - 1)%Z && (bytesRead =? remainingSize)%Z
         && (Go.add64 fromPos bytesRead <? size)%Z
      then continue newPos r
      else
        match json_Unmarshal_block E line with
        | None => continue newPos r
        | Some block =>
            let r := processBlock E r block in
            let newPos :=
              if (i =? nlines - 1)%Z
                 && ((bytesRead <? remainingSize)%Z
                     || (size <=? Go.add64 fromPos bytesRead)%Z)
              then Go.add64 newPos (Go.len line)
              else newPos in
            continue newPos r
        end.
Proof. reflexivity. Qed.

(** The loop on lines as the node writes them: the position moves past
    every line that has a newline after it, and past the last piece when
    the read reached the end of the file and the piece decodes. *)
Lemma readBlockFile_loop_exact E nlines bytesRead fromPos size :
  forall lines i newPos r,
    lines <> [] ->
    (i + Go.len_list lines = nlines)%Z ->
    (forall l, l ∈ List.removelast lines -> clean l) ->
    Go.TrimSpace (List.last lines EmptyString) = List.last lines EmptyString ->
    (0 <= newPos)%Z ->
    (newPos + sum_len lines - 1 <= Go.int64_max)%Z ->
    fst (readBlockFile_loop E nlines bytesRead bytesRead fromPos size i lines newPos r)
      = (newPos + sum_len (List.removelast lines)
         + (if (size <=? Go.add64 fromPos bytesRead)%Z
               && decodes E (List.last lines EmptyString)
            then Go.len (List.last lines EmptyString) else 0))%Z.
Proof.
  assert (Hmin : (Go.int64_min <= 0)%Z) by (by vm_compute).
  induction lines as [|l [|l2 rest] IH]; intros i newPos r Hne Hi Hclean Htail Hpos Hmax;
    [done| |].
  - (* the last piece *)
    cbn [List.removelast List.last] in *. rewrite sum_len_cons in Hmax.
    cbn [readBlockFile_loop]. cbv zeta. rewrite Htail.
    pose proof (len_nonneg l) as Hl.
    unfold Go.len_list in Hi. cbn [length] in Hi.
    destruct (String.eqb l EmptyString) eqn:Hblank.
    { apply String.eqb_eq in Hblank. subst l. cbn.
      destruct (_ && _); rewrite ?len_empty; lia. }
    replace (i <? nlines - 1)%Z with false by lia.
    replace (i =? nlines - 1)%Z with true by lia.
    rewrite Z.eqb_refl, Z.ltb_irrefl. cbn [andb orb].
    unfold decodes.
    destruct (size <=? Go.add64 fromPos bytesRead)%Z eqn:Heof.
    + replace (Go.add64 fromPos bytesRead <? size)%Z with false by lia.
      destruct (json_Unmarshal_block E l); cbn; [|lia].
      rewrite add64_small by (cbn in Hmax; lia). lia.
    + replace (Go.add64 fromPos bytesRead <? size)%Z with true by lia.
      cbn. lia.
  - (* a line with a newline after it *)
    change (List.removelast (l :: l2 :: rest)) with (l :: List.removelast (l2 :: rest))
      in *.
    change (List.last (l :: l2 :: rest) EmptyString)
      with (List.last (l2 :: rest) EmptyString) in *.
    destruct (Hclean l) as [Hl Hne1]; [by left|].
    pose proof (len_nonneg l) as Hlen. pose proof (sum_len_pos l2 rest) as Hpos2.
    rewrite (sum_len_cons l) in *.
    rewrite readBlockFile_loop_cons. cbv zeta. rewrite Hl.
    apply String.eqb_neq in Hne1. rewrite Hne1.
    unfold Go.len_list in Hi. cbn [length] in Hi.
    replace (i <? nlines - 1)%Z with true by lia.
    replace (i =? nlines - 1)%Z with false by lia.
    cbn [andb].
    rewrite (add64_small (Go.len l) 1) by lia.
    rewrite add64_small by lia.
    assert (Hnext : (i + 1 + Go.len_list (l2 :: rest) = nlines)%Z).
    { unfold Go.len_list. cbn [length]. lia. }
    assert (Hclean' : forall l', l' ∈ List.removelast (l2 :: rest) -> clean l').
    { intros l' Hin. apply Hclean. by right. }
    destruct (json_Unmarshal_block E l) as [b|].
    + rewrite (IH (i + 1)%Z _ (processBlock E r b)) by (done || lia). lia.
    + rewrite (IH (i + 1)%Z _ r) by (done || lia). lia.
Qed.

Lemma take_bytes_len_exact n s :
  (n <= String.length s)%nat -> Go.len (Go.take_bytes n s) = Z.of_nat n.
Proof.
  revert s. induction n as [|n IH]; intros s Hn.
  - by destruct s.
  - destruct s as [|c s]; cbn in Hn; [lia|].
    cbn [Go.take_bytes]. rewrite len_String, IH by lia. lia.
Qed.

Lemma len_chunk file fromPos :
  (0 <= fromPos < Go.len file)%Z ->
  Go.len (chunk file fromPos) = Z.min (Go.len file - fromPos) MiB100.
Proof.
  intros Hfrom. unfold chunk.
  assert (HMiB : (0 < MiB100)%Z) by (by vm_compute).
  rewrite take_bytes_len_exact; [lia|].
  assert (Hdrop : Go.len (Go.drop_bytes (Z.to_nat fromPos) file)
                  = (Go.len file - fromPos)%Z).
  { rewrite drop_bytes_len_exact; [lia|]. unfold Go.len in Hfrom. lia. }
  unfold Go.len in *. lia.
Qed.





(** White space of Unicode around a line is not counted: the first line
    of the file ends in a no-break space, which the reader trims before it
    decodes the line and before it counts its bytes. Both records are
    handed on, and the offset is two bytes short of the end of the file. *)
Lemma padded_line_is_counted_without_its_padding :
  Go.TrimSpace (record "1" ++ no_break_space) = record "1" /\
  ~ clean (record "1" ++ no_break_space) /\
  Go.len padded = 56%Z /\
  offset (scanReplicaCmdsDirectory E (tree padded) reader0) logfile = 54%Z /\
  latestBlocks (scanReplicaCmdsDirectory E (tree padded) reader0) = [block 1; block 2].
Proof.
  split; [vm_compute; reflexivity|]. split; [|repeat split; vm_compute; reflexivity].
  intros [Htrim _]. vm_compute in Htrim. discriminate.
Qed.

End offsets.

(** * Further properties of the code *)

(** ** The log reader: what a block leaves in the histories *)

Section histories.
Import types asset_fetcher local_node_reader reader_examples history_examples.

Lemma fold_left_invariant {R A} (P : R -> Prop) (f : R -> A -> R) (l : list A) :
  (forall r a, P r -> P (f r a)) -> forall r, P r -> P (fold_left f l r).
Proof.
  intros Hf. induction l as [|a l IH]; intros r Hr; [done|].
  cbn [fold_left]. apply IH, Hf, Hr.
Qed.

Lemma fold_left_flat_map {R A B} (f : R -> B -> R) (g : A -> list B) (l : list A) :
  forall r, fold_left f (flat_map g l) r = fold_left (fun r a => fold_left f (g a) r) l r.
Proof.
  induction l as [|a l IH]; intros r; [done|].
  cbn [flat_map fold_left]. by rewrite fold_left_app, IH.
Qed.

Lemma fold_left_ext {R A} (f g : R -> A -> R) (l : list A) :
  (forall r a, f r a = g r a) -> forall r, fold_left f l r = fold_left g l r.
Proof.
  intros H. induction l as [|a l IH]; intros r; [done|].
  cbn [fold_left]. by rewrite H, IH.
Qed.

Lemma fold_left_map_arg {R A B} (f : R -> B -> R) (g : A -> B) (l : list A) :
  forall r, fold_left f (map g l) r = fold_left (fun r a => f r (g a)) l r.
Proof. induction l as [|a l IH]; intros r; [done|]. cbn. apply IH. Qed.

Lemma keep_last_drop {A} n (l : list A) : keep_last n l = drop (length l - n) l.
Proof.
  unfold keep_last. destruct (n <? length l)%nat eqn:H; [done|].
  apply Nat.ltb_ge in H. by replace (length l - n)%nat with 0%nat by lia.
Qed.

Lemma keep_last_length {A} n (l : list A) : (length (keep_last n l) <= n)%nat.
Proof. rewrite keep_last_drop, length_drop. lia. Qed.

Lemma keep_last_small {A} n (l : list A) : (length l <= n)%nat -> keep_last n l = l.
Proof.
  intros H. rewrite keep_last_drop. by replace (length l - n)%nat with 0%nat by lia.
Qed.

Lemma keep_last_app {A} n (l l2 : list A) :
  keep_last n (keep_last n l ++ l2) = keep_last n (l ++ l2).
Proof.
  rewrite !keep_last_drop, !length_app, length_drop.
  rewrite <- (drop_app_le l l2 (length l - n)) by lia.
  rewrite drop_drop. f_equal. lia.
Qed.

Lemma map_drop {A B} (f : A -> B) n (l : list A) : map f (drop n l) = drop n (map f l).
Proof. revert n. induction l as [|a l IH]; intros [|n]; cbn; auto. Qed.

Lemma map_keep_last {A B} (f : A -> B) n (l : list A) :
  map f (keep_last n l) = keep_last n (map f l).
Proof. by rewrite !keep_last_drop, map_drop, length_map. Qed.

Lemma getAssetSymbol_ext r r' assetID :
  assetFetcher r = assetFetcher r' -> getAssetSymbol r assetID = getAssetSymbol r' assetID.
Proof. unfold getAssetSymbol. by intros ->. Qed.

(** What one order changes. *)
Lemma processOrder_market E blockTime userAddress r order :
  let symbol := getAssetSymbol r (Order.Asset order) in
  let r' := processOrder E blockTime userAddress r order in
  exists trade,
    WsTrade.Px trade = Order.Price order /\
    latestTrades r' = <[symbol := keep_last 1000 (trades_of r symbol ++ [trade])]> (latestTrades r) /\
    latestPrices r' = <[symbol := Order.Price order]> (latestPrices r) /\
    assetFetcher r' = assetFetcher r /\
    latestBlocks r' = latestBlocks r /\
    blocksChan r' = blocksChan r.
Proof.
  cbv zeta. unfold processOrder. destruct (parseBlockTime _ _ _) as [time tick].
  eexists (WsTrade.mk _ _ (Order.Price order) _ _ _ _ _).
  cbn. repeat split; reflexivity.
Qed.

Lemma prices_for_ext r r' symbol orders :
  assetFetcher r = assetFetcher r' -> prices_for r symbol orders = prices_for r' symbol orders.
Proof.
  intros H. unfold prices_for. f_equal. apply filter_ext. intros o.
  by rewrite (getAssetSymbol_ext r r' _ H).
Qed.

Lemma prices_for_cons r symbol o orders :
  prices_for r symbol (o :: orders)
  = if String.eqb (getAssetSymbol r (Order.Asset o)) symbol
    then Order.Price o :: prices_for r symbol orders
    else prices_for r symbol orders.
Proof. unfold prices_for. cbn [List.filter]. by destruct (String.eqb _ _). Qed.

(** X1: after the orders of an action have been processed, the latest
    price of a symbol is the price of the last order of the list that
    resolves to that symbol; a symbol no order resolves to keeps the price
    it had. *)
Theorem latest_price_is_price_of_last_order E orders blockTime userAddress r symbol :
  GetLatestPrice (processOrders E orders blockTime userAddress r) symbol
  = match last (prices_for r symbol orders) with
    | Some price => Some price
    | None => GetLatestPrice r symbol
    end.
Proof.
  revert r. induction orders as [|o orders IH]; intros r; [done|].
  unfold processOrders in *. cbn [fold_left]. rewrite IH.
  destruct (processOrder_market E blockTime userAddress r o)
    as (trade & _ & _ & Hprices & Haf & _).
  rewrite <- (prices_for_ext r _ symbol orders) by done.
  rewrite prices_for_cons. unfold GetLatestPrice. rewrite Hprices.
  destruct (String.eqb_spec (getAssetSymbol r (Order.Asset o)) symbol) as [->|Hne].
  - rewrite last_cons, lookup_insert_eq. by destruct (last _).
  - by rewrite lookup_insert_ne.
Qed.

(** X2: the trades kept for a symbol are the most recent 1000, oldest
    first: the prices of the stored trades are the last 1000 of the prices
    stored before followed by the prices of the orders for the symbol, in
    the order of the list. *)
Theorem trade_ring_keeps_the_most_recent E orders blockTime userAddress r symbol :
  (length (trades_of r symbol) <= 1000)%nat ->
  map WsTrade.Px (trades_of (processOrders E orders blockTime userAddress r) symbol)
  = keep_last 1000 (map WsTrade.Px (trades_of r symbol) ++ prices_for r symbol orders).
Proof.
  revert r. induction orders as [|o orders IH]; intros r Hlen.
  { cbn. rewrite app_nil_r, keep_last_small; [done|]. by rewrite length_map. }
  unfold processOrders in *. cbn [fold_left].
  destruct (processOrder_market E blockTime userAddress r o)
    as (trade & Hpx & Htrades & _ & Haf & _).
  set (r1 := processOrder E blockTime userAddress r o) in *.
  assert (Hr1 : trades_of r1 symbol
                = if String.eqb (getAssetSymbol r (Order.Asset o)) symbol
                  then keep_last 1000 (trades_of r symbol ++ [trade])
                  else trades_of r symbol).
  { unfold trades_of at 1. rewrite Htrades.
    destruct (String.eqb_spec (getAssetSymbol r (Order.Asset o)) symbol) as [->|Hne].
    - by rewrite lookup_insert_eq.
    - by rewrite lookup_insert_ne. }
  rewrite IH.
  - rewrite <- (prices_for_ext r r1 symbol orders) by done.
    rewrite prices_for_cons, Hr1.
    destruct (String.eqb _ symbol); [|done].
    rewrite map_keep_last, map_app, keep_last_app. cbn [map].
    by rewrite Hpx, <- app_assoc.
  - rewrite Hr1. destruct (String.eqb _ symbol); [apply keep_last_length|done].
Qed.

Lemma trade_ring_keeps_the_most_recent_witness :
  map WsTrade.Px
      (trades_of (processOrders resolver_examples.E0
                    [order_ETH "10"; resolver_examples.order_BTC; order_ETH "11"]
                    "2025-01-01T00:00:00Z" "0xabc" resolver_examples.reader1) "ETH")
  = keep_last 1000 ["10"; "11"]%string.
Proof.
  pose proof (trade_ring_keeps_the_most_recent resolver_examples.E0
                [order_ETH "10"; resolver_examples.order_BTC; order_ETH "11"]
                "2025-01-01T00:00:00Z" "0xabc" resolver_examples.reader1 "ETH") as H.
  assert (Hlen : (length (trades_of resolver_examples.reader1 "ETH") <= 1000)%nat)
    by (vm_compute; lia).
  exact (H Hlen).
Defined.

(** The bounds are kept by everything a block does. *)
Lemma processOrder_bounded E blockTime userAddress r order :
  bounded r -> bounded (processOrder E blockTime userAddress r order).
Proof.
  intros (Ht & Hb & Hc).
  destruct (processOrder_market E blockTime userAddress r order)
    as (trade & _ & Htrades & _ & _ & Hblocks & Hchan).
  split; [|by rewrite Hblocks, Hchan].
  intros symbol trades. rewrite Htrades.
  destruct (decide (symbol = getAssetSymbol r (Order.Asset order))) as [->|Hne].
  - rewrite lookup_insert_eq. intros [= <-]. apply keep_last_length.
  - rewrite lookup_insert_ne by done. apply Ht.
Qed.

Lemma processSignedAction_bounded E blockTime r action :
  bounded r -> bounded (processSignedAction E blockTime r action).
Proof.
  intros Hr. unfold processSignedAction, processOrders, processCancellations.
  destruct (String.eqb _ "order"); [|by destruct (String.eqb _ _)].
  apply fold_left_invariant; [|done]. intros. by apply processOrder_bounded.
Qed.

Lemma processSignedActionBundle_bounded E blockTime r bundleArray :
  bounded r -> bounded (processSignedActionBundle E blockTime r bundleArray).
Proof.
  intros Hr. unfold processSignedActionBundle.
  destruct bundleArray as [|? [|bundleData ?]]; try done.
  destruct (json_Unmarshal_bundle E bundleData); [|done].
  apply fold_left_invariant; [|done]. intros. by apply processSignedAction_bounded.
Qed.

Lemma processBlock_bounded E r block : bounded r -> bounded (processBlock E r block).
Proof.
  intros (Ht & Hb & Hc). unfold processBlock.
  match goal with |- context [fold_left ?f ?l ?r0] =>
    assert (H : bounded (fold_left f l r0))
  end.
  { apply fold_left_invariant; [intros; by apply processSignedActionBundle_bounded|].
    split; [exact Ht|]. split; [apply keep_last_length|exact Hc]. }
  destruct (_ <? 1000)%nat eqn:Hlt; [|done].
  destruct H as (Ht' & Hb' & Hc'). apply Nat.ltb_lt in Hlt.
  split; [exact Ht'|]. split; [exact Hb'|]. cbn. rewrite length_app. cbn. lia.
Qed.

(** A property of the reader that blocks and offsets keep is kept by the
    scan of the log. *)
Lemma readBlockFile_loop_preserves (P : LocalNodeReader -> Prop) E nlines bytesRead
    remainingSize fromPos size :
  (forall r block, P r -> P (processBlock E r block)) ->
  forall lines i newPos r,
    P r ->
    P (snd (readBlockFile_loop E nlines bytesRead remainingSize fromPos size
              i lines newPos r)).
Proof.
  intros Hblock. induction lines as [|l rest IH]; intros i newPos r Hr; [done|].
  rewrite readBlockFile_loop_cons. cbv zeta.
  destruct (String.eqb _ _); [by apply IH|].
  destruct (_ && _); [by apply IH|].
  destruct (json_Unmarshal_block _ _); [|by apply IH].
  apply IH, Hblock, Hr.
Qed.

Lemma readBlockFile_preserves (P : LocalNodeReader -> Prop) E fs filePath fromPos r :
  (forall r block, P r -> P (processBlock E r block)) ->
  (forall r m, P r -> P (set_lastReadFiles m r)) ->
  P r -> P (readBlockFile E fs filePath fromPos r).
Proof.
  intros Hblock Hset Hr. unfold readBlockFile.
  destruct (ReadFile fs filePath); [|done].
  destruct (_ <=? _)%Z; [done|]. cbv zeta.
  destruct (_ =? 0)%Z; [done|].
  match goal with |- context [readBlockFile_loop ?a ?b ?c ?d ?e ?f ?g ?h ?i ?j] =>
    pose proof (readBlockFile_loop_preserves P a b c d e f Hblock h g i j Hr) as H;
    destruct (readBlockFile_loop a b c d e f g h i j) as [newPos r']
  end.
  by apply Hset.
Qed.

Lemma scanBlockFiles_preserves (P : LocalNodeReader -> Prop) E fs dirPath r :
  (forall r block, P r -> P (processBlock E r block)) ->
  (forall r m, P r -> P (set_lastReadFiles m r)) ->
  P r -> P (scanBlockFiles E fs dirPath r).
Proof.
  intros Hblock Hset Hr. unfold scanBlockFiles.
  destruct (ReadDir fs dirPath); [|done].
  apply fold_left_invariant; [|done].
  intros r0 fileName Hr0.
  destruct (ReadFile fs _); [|done].
  destruct (lastReadFiles r0 !! _); [destruct (_ <? _)%Z|];
    try done; by apply readBlockFile_preserves.
Qed.

Lemma scanReplicaCmdsDirectory_preserves (P : LocalNodeReader -> Prop) E fs r :
  (forall r block, P r -> P (processBlock E r block)) ->
  (forall r m, P r -> P (set_lastReadFiles m r)) ->
  P r -> P (scanReplicaCmdsDirectory E fs r).
Proof.
  intros Hblock Hset Hr. unfold scanReplicaCmdsDirectory.
  destruct (ReadDir fs _); [|done].
  destruct (String.eqb _ _); [done|].
  destruct (String.eqb _ _); [done|].
  by apply scanBlockFiles_preserves.
Qed.

(** X3: whatever the log holds, after any number of scan ticks no symbol
    has more than 1000 trades stored, the block history has at most 100
    blocks and the block queue at most 1000. *)
Theorem histories_stay_bounded E ticks dataPath assetFetcher :
  bounded (scans E ticks (NewLocalNodeReader dataPath assetFetcher)).
Proof.
  unfold scans. apply fold_left_invariant.
  - intros r fs Hr. apply scanReplicaCmdsDirectory_preserves; [| |done].
    + intros. by apply processBlock_bounded.
    + by intros r0 m (? & ? & ?).
  - split; [|cbn; lia]. intros symbol trades. cbn. by rewrite lookup_empty.
Qed.

(** One order, with the address of its sender. *)
Lemma same_market_refl r : same_market r r.
Proof. by repeat split. Qed.

Lemma same_market_trans r1 r2 r3 :
  same_market r1 r2 -> same_market r2 r3 -> same_market r1 r3.
Proof. intros (? & ? & ? & ?) (? & ? & ? & ?). repeat split; congruence. Qed.

Lemma processOrder_same_market E blockTime userAddress r1 r2 order :
  same_market r1 r2 ->
  same_market (processOrder E blockTime userAddress r1 order)
              (processOrder E blockTime userAddress r2 order).
Proof.
  intros (Ht & Hp & Ha & Hc). unfold processOrder.
  rewrite (getAssetSymbol_ext r1 r2 _ Ha), Hc.
  destruct (parseBlockTime _ _ _) as [time tick].
  repeat split; cbn; congruence.
Qed.

Lemma processSignedAction_orders E blockTime r action :
  processSignedAction E blockTime r action
  = fold_left (fun r uo => processOrder E blockTime (fst uo) r (snd uo))
      (if String.eqb (ActionData.Type_ (SignedAction.Action action)) "order"
       then map (pair (SignedAction.VaultAddress action))
                (ActionData.Orders (SignedAction.Action action))
       else []) r.
Proof.
  unfold processSignedAction, processOrders, processCancellations.
  destruct (String.eqb _ "order").
  - by rewrite fold_left_map_arg.
  - by destruct (String.eqb _ _).
Qed.

Lemma processSignedActionBundle_orders E blockTime r bundleArray :
  processSignedActionBundle E blockTime r bundleArray
  = fold_left (fun r uo => processOrder E blockTime (fst uo) r (snd uo))
      (bundle_orders E bundleArray) r.
Proof.
  unfold processSignedActionBundle, bundle_orders.
  destruct bundleArray as [|? [|bundleData ?]]; try done.
  destruct (json_Unmarshal_bundle E bundleData) as [bundle|]; [|done].
  rewrite fold_left_flat_map. apply fold_left_ext. intros.
  apply processSignedAction_orders.
Qed.

(** X4: a block is recorded in the block history whatever it holds, and
    the market data it leaves is that of its orders alone, processed in
    the order of the log: the orders of the order actions of the bundles
    whose body decodes. A bundle that is too short or does not decode and
    an action of another type contribute nothing and stop nothing. *)
Theorem block_contributes_its_orders E r block :
  latestBlocks (processBlock E r block) = keep_last 100 (latestBlocks r ++ [block]) /\
  same_market
    (processBlock E r block)
    (fold_left
       (fun r uo => processOrder E (HyperliquidNodeBlock.Time block) (fst uo) r (snd uo))
       (block_orders E block) r).
Proof.
  unfold processBlock.
  match goal with |- context [fold_left ?f ?l ?r0] =>
    set (r1 := r0);
    assert (H : fold_left f l r1
                = fold_left
                    (fun r uo => processOrder E (HyperliquidNodeBlock.Time block)
                                   (fst uo) r (snd uo))
                    (block_orders E block) r1)
  end.
  { unfold block_orders. rewrite fold_left_flat_map. apply fold_left_ext.
    intros. apply processSignedActionBundle_orders. }
  rewrite H. clear H.
  match goal with |- context [fold_left ?f ?l r1] => set (step := f); set (orders := l) end.
  assert (Hblocks : latestBlocks (fold_left step orders r1)
                    = keep_last 100 (latestBlocks r ++ [block])).
  { rewrite (fold_left_keeps _ latestBlocks); [done|].
    intros r0 uo. subst step. cbv beta.
    by destruct (processOrder_market E (HyperliquidNodeBlock.Time block) uo.1 r0 uo.2)
      as (? & ? & ? & ? & ? & ? & ?). }
  assert (Hmarket : same_market (fold_left step orders r1) (fold_left step orders r)).
  { assert (H1 : same_market r1 r) by (by repeat split).
    clearbody r1. clear Hblocks. revert r1 r H1.
    induction orders as [|uo orders IH]; intros r1 r H1; [done|].
    cbn [fold_left]. apply IH. subst step. by apply processOrder_same_market. }
  destruct (_ <? 1000)%nat; [|done].
  split; [done|]. eapply same_market_trans; [|exact Hmarket]. by repeat split.
Qed.

Lemma readBlockFile_loop_lastReadFiles E nlines bytesRead remainingSize fromPos size
    lines i newPos r :
  lastReadFiles (snd (readBlockFile_loop E nlines bytesRead remainingSize fromPos size
                        i lines newPos r)) = lastReadFiles r.
Proof.
  apply (readBlockFile_loop_preserves (fun r' => lastReadFiles r' = lastReadFiles r));
    [|done].
  intros r0 block H. by rewrite processBlock_lastReadFiles.
Qed.

(** One read of a file that has bytes after the position it starts from. *)
Lemma readBlockFile_unfold E fs filePath file fromPos r :
  ReadFile fs filePath = Some file ->
  (0 <= fromPos < Go.len file)%Z ->
  (Go.len file <= Go.int64_max)%Z ->
  let lines := Go.Split_lines (chunk file fromPos) in
  let res := readBlockFile_loop E (Go.len_list lines) (Go.len (chunk file fromPos))
               (Go.len (chunk file fromPos)) fromPos (Go.len file) 0 lines fromPos r in
  readBlockFile E fs filePath fromPos r
  = set_lastReadFiles (<[filePath := fst res]> (lastReadFiles r)) (snd res).
Proof.
  intros Hfile Hfrom Hfits lines res.
  assert (Hmin : (Go.int64_min <= 0)%Z) by (by vm_compute).
  assert (HMiB : (0 < MiB100)%Z) by (by vm_compute).
  pose proof (len_chunk file fromPos Hfrom) as Hlen.
  unfold readBlockFile. rewrite Hfile.
  replace (Go.len file <=? fromPos)%Z with false by lia.
  assert (Hsub : Go.sub64 (Go.len file) fromPos = (Go.len file - fromPos)%Z).
  { apply wrap64_small. lia. }
  rewrite Hsub.
  replace (if (MiB100 <? Go.len file - fromPos)%Z then MiB100
           else (Go.len file - fromPos)%Z)
    with (Z.min (Go.len file - fromPos) MiB100)
    by (destruct (MiB100 <? Go.len file - fromPos)%Z eqn:H; lia).
  replace (if (0 <? fromPos)%Z then fromPos else 0%Z) with fromPos
    by (destruct (0 <? fromPos)%Z eqn:H; lia).
  fold (chunk file fromPos). fold lines.
  replace (Go.len (chunk file fromPos) =? 0)%Z with false by lia.
  rewrite <- Hlen. fold res.
  pose proof (readBlockFile_loop_lastReadFiles E (Go.len_list lines)
                (Go.len (chunk file fromPos)) (Go.len (chunk file fromPos)) fromPos
                (Go.len file) lines 0 fromPos r) as Hkeep.
  fold res in Hkeep. destruct res as [newPos r']. cbn [fst snd] in *.
  unfold set_lastReadFiles. by rewrite Hkeep.
Qed.

Lemma decoded_blocks_cons E line lines :
  decoded_blocks E (line :: lines)
  = match (if String.eqb (Go.TrimSpace line) EmptyString then None
           else json_Unmarshal_block E (Go.TrimSpace line)) with
    | Some block => block :: decoded_blocks E lines
    | None => decoded_blocks E lines
    end.
Proof. reflexivity. Qed.

(** The blocks the loop processes: those of all its lines, or of all but
    the last when the chunk stopped before the end of the file. *)
Lemma readBlockFile_loop_blocks E nlines bytesRead remainingSize fromPos size :
  forall lines i newPos r,
    (i + Go.len_list lines = nlines)%Z ->
    snd (readBlockFile_loop E nlines bytesRead remainingSize fromPos size
           i lines newPos r)
    = fold_left (processBlock E)
        (decoded_blocks E
           (if (bytesRead =? remainingSize)%Z && (Go.add64 fromPos bytesRead <? size)%Z
            then List.removelast lines else lines)) r.
Proof.
  induction lines as [|l rest IH]; intros i newPos r Hi.
  { cbn. by destruct (_ && _). }
  rewrite readBlockFile_loop_cons. cbv zeta.
  unfold Go.len_list in Hi. cbn [length] in Hi.
  destruct rest as [|l2 rest].
  - (* the last line *)
    replace (i =? nlines - 1)%Z with true by (cbn in Hi; lia).
    cbn [andb readBlockFile_loop List.removelast].
    destruct ((bytesRead =? remainingSize)%Z && _).
    + by destruct (String.eqb _ _).
    + rewrite decoded_blocks_cons.
      destruct (String.eqb _ _); [done|].
      by destruct (json_Unmarshal_block _ _).
  - (* a line with a newline after it *)
    assert (Hnext : (i + 1 + Go.len_list (l2 :: rest) = nlines)%Z)
      by (unfold Go.len_list; cbn [length] in *; lia).
    replace (i =? nlines - 1)%Z with false
      by (unfold Go.len_list in Hnext; cbn [length] in Hnext; lia).
    cbn [andb].
    assert (Hcons : decoded_blocks E
                      (if (bytesRead =? remainingSize)%Z
                          && (Go.add64 fromPos bytesRead <? size)%Z
                       then List.removelast (l :: l2 :: rest) else l :: l2 :: rest)
                    = match (if String.eqb (Go.TrimSpace l) EmptyString then None
                             else json_Unmarshal_block E (Go.TrimSpace l)) with
                      | Some block =>
                          block :: decoded_blocks E
                            (if (bytesRead =? remainingSize)%Z
                                && (Go.add64 fromPos bytesRead <? size)%Z
                             then List.removelast (l2 :: rest) else l2 :: rest)
                      | None =>
                          decoded_blocks E
                            (if (bytesRead =? remainingSize)%Z
                                && (Go.add64 fromPos bytesRead <? size)%Z
                             then List.removelast (l2 :: rest) else l2 :: rest)
                      end).
    { destruct (_ && _); apply decoded_blocks_cons. }
    rewrite Hcons.
    destruct (String.eqb _ _); [by apply IH|].
    destruct (json_Unmarshal_block _ _); cbn [fold_left]; by apply IH.
Qed.

(** X5: one read of a file processes the blocks of the lines of the chunk
    it read, each once and in the order of the file; a line that does not
    decode is skipped and the lines after it are still processed. The last
    piece of the chunk is left out when the chunk stopped at 100 MiB,
    before the end of the file. *)
Theorem every_line_that_decodes_is_processed E fs filePath file fromPos r :
  ReadFile fs filePath = Some file ->
  (0 <= fromPos < Go.len file)%Z ->
  (Go.len file <= Go.int64_max)%Z ->
  let lines := Go.Split_lines (chunk file fromPos) in
  let complete :=
    if (MiB100 <? Go.len file - fromPos)%Z then List.removelast lines else lines in
  exists newPos,
    readBlockFile E fs filePath fromPos r
    = set_lastReadFiles (<[filePath := newPos]> (lastReadFiles r))
        (fold_left (processBlock E) (decoded_blocks E complete) r).
Proof.
  intros Hfile Hfrom Hfits lines complete.
  rewrite (readBlockFile_unfold E fs filePath file fromPos r Hfile Hfrom Hfits).
  cbv zeta. fold lines. eexists. f_equal.
  rewrite readBlockFile_loop_blocks by lia.
  rewrite Z.eqb_refl. cbn [andb].
  pose proof (len_chunk file fromPos Hfrom) as Hlen.
  assert (Hmin : (Go.int64_min <= 0)%Z) by (by vm_compute).
  assert (HMiB : (0 < MiB100)%Z) by (by vm_compute).
  rewrite add64_small by lia.
  subst complete.
  replace (fromPos + Go.len (chunk file fromPos) <? Go.len file)%Z
    with (MiB100 <? Go.len file - fromPos)%Z by lia.
  done.
Qed.

Lemma every_line_that_decodes_is_processed_witness :
  latestBlocks
    (readBlockFile E (tree (record "1" ++ nl ++ "garbage" ++ nl ++ record "2" ++ nl))
       logfile 0 reader0)
  = [block 1; block 2].
Proof.
  pose proof (every_line_that_decodes_is_processed E
                (tree (record "1" ++ nl ++ "garbage" ++ nl ++ record "2" ++ nl))
                logfile (record "1" ++ nl ++ "garbage" ++ nl ++ record "2" ++ nl)
                0 reader0) as H.
  assert (H1 : ReadFile (tree (record "1" ++ nl ++ "garbage" ++ nl ++ record "2" ++ nl))
                 logfile
               = Some (record "1" ++ nl ++ "garbage" ++ nl ++ record "2" ++ nl)%string)
    by reflexivity.
  assert (H2 : (0 <= 0 < Go.len (record "1" ++ nl ++ "garbage" ++ nl ++ record "2" ++ nl))%Z)
    by (vm_compute; split; [discriminate|reflexivity]).
  assert (H3 : (Go.len (record "1" ++ nl ++ "garbage" ++ nl ++ record "2" ++ nl)
                <= Go.int64_max)%Z) by (vm_compute; discriminate).
  destruct (H H1 H2 H3) as [newPos ->]. reflexivity.
Defined.

(** ** The log reader: the order of the names *)

Lemma ascii_compare_N a b :
  Ascii.compare a b = N.compare (N_of_ascii a) (N_of_ascii b).
Proof. reflexivity. Qed.

Lemma string_compare_refl s : String.compare s s = Eq.
Proof.
  induction s as [|c s IH]; [done|]. cbn.
  rewrite ascii_compare_N, N.compare_refl. exact IH.
Qed.

Lemma string_leb_refl s : String.leb s s = true.
Proof. unfold String.leb. by rewrite string_compare_refl. Qed.

Lemma string_compare_trans c s1 : forall s2 s3,
  String.compare s1 s2 = c -> String.compare s2 s3 = c -> String.compare s1 s3 = c.
Proof.
  induction s1 as [|a s1 IH]; intros [|b s2] [|d s3]; cbn; try congruence.
  rewrite !ascii_compare_N.
  destruct (N.compare_spec (N_of_ascii a) (N_of_ascii b)) as [Hab|Hab|Hab];
    destruct (N.compare_spec (N_of_ascii b) (N_of_ascii d)) as [Hbd|Hbd|Hbd];
    try congruence.
  - rewrite Hab, Hbd, N.compare_refl. apply IH.
  - intros _ <-.
    by replace (N_of_ascii a ?= N_of_ascii d)%N with Lt
      by (symmetry; apply N.compare_lt_iff; lia).
  - intros _ <-.
    by replace (N_of_ascii a ?= N_of_ascii d)%N with Gt
      by (symmetry; apply N.compare_gt_iff; lia).
  - intros <- _.
    by replace (N_of_ascii a ?= N_of_ascii d)%N with Lt
      by (symmetry; apply N.compare_lt_iff; lia).
  - intros <- _.
    by replace (N_of_ascii a ?= N_of_ascii d)%N with Lt
      by (symmetry; apply N.compare_lt_iff; lia).
  - intros <- _.
    by replace (N_of_ascii a ?= N_of_ascii d)%N with Gt
      by (symmetry; apply N.compare_gt_iff; lia).
  - intros <- _.
    by replace (N_of_ascii a ?= N_of_ascii d)%N with Gt
      by (symmetry; apply N.compare_gt_iff; lia).
Qed.

Lemma string_leb_trans s1 s2 s3 :
  String.leb s1 s2 = true -> String.leb s2 s3 = true -> String.leb s1 s3 = true.
Proof.
  unfold String.leb.
  destruct (String.compare s1 s2) eqn:H12; [| |done];
    destruct (String.compare s2 s3) eqn:H23; try done; intros _ _.
  - apply String.compare_eq_iff in H12 as ->. by rewrite H23.
  - apply String.compare_eq_iff in H12 as ->. by rewrite H23.
  - apply String.compare_eq_iff in H23 as <-. by rewrite H12.
  - by rewrite (string_compare_trans Lt s1 s2 s3).
Qed.

Lemma insert_sorted_perm x l : insert_sorted x l ≡ₚ x :: l.
Proof.
  induction l as [|y l IH]; [done|]. cbn.
  destruct (String.leb x y); [done|]. rewrite IH. apply Permutation_swap.
Qed.

Lemma sort_Strings_perm l : sort_Strings l ≡ₚ l.
Proof.
  induction l as [|x l IH]; [done|]. cbn. by rewrite insert_sorted_perm, IH.
Qed.

Lemma insert_sorted_sorted x l :
  StronglySorted (fun a b => String.leb a b = true) l ->
  StronglySorted (fun a b => String.leb a b = true) (insert_sorted x l).
Proof.
  induction 1 as [|y l Hl IH Hy]; cbn.
  { constructor; [constructor|constructor]. }
  destruct (String.leb x y) eqn:Hxy.
  - constructor; [by constructor|].
    constructor; [done|].
    eapply Forall_impl; [exact Hy|]. intros z Hz. by eapply string_leb_trans.
  - constructor; [exact IH|].
    rewrite insert_sorted_perm. constructor; [|done].
    destruct (String.leb_total x y) as [H|H]; congruence.
Qed.

Lemma sort_Strings_sorted l :
  StronglySorted (fun a b => String.leb a b = true) (sort_Strings l).
Proof.
  induction l as [|x l IH]; [constructor|]. cbn. by apply insert_sorted_sorted.
Qed.

Lemma sorted_last_greatest l :
  StronglySorted (fun a b => String.leb a b = true) l ->
  forall d, d ∈ l -> String.leb d (List.last l EmptyString) = true.
Proof.
  induction 1 as [|y l Hl IH Hy]; intros d Hd; [by apply elem_of_nil in Hd|].
  destruct l as [|z l].
  - apply list_elem_of_singleton in Hd as ->. apply string_leb_refl.
  - change (List.last (y :: z :: l) EmptyString) with (List.last (z :: l) EmptyString).
    apply elem_of_cons in Hd as [->|Hd]; [|by apply IH].
    eapply string_leb_trans; [|apply IH; left].
    by apply Forall_cons in Hy as [? _].
Qed.

Lemma last_elem_of (l : list string) : l <> [] -> List.last l EmptyString ∈ l.
Proof.
  induction l as [|x [|y l] IH]; intros H; [done|left|].
  right. by apply IH.
Qed.

(** X6: among the entries of a listing the reader picks the directory
    whose name is the greatest in byte-wise order; files are not
    candidates, and a path that cannot be listed or has no directory gives
    the empty name. *)
Theorem most_recent_directory_is_greatest fs basePath :
  (ReadDir fs basePath = None -> getMostRecentDirectory fs basePath = EmptyString) /\
  (forall entries,
      ReadDir fs basePath = Some entries ->
      (dirs_of entries = [] -> getMostRecentDirectory fs basePath = EmptyString) /\
      (dirs_of entries <> [] ->
       getMostRecentDirectory fs basePath ∈ dirs_of entries /\
       forall d, d ∈ dirs_of entries ->
                 String.leb d (getMostRecentDirectory fs basePath) = true)).
Proof.
  unfold getMostRecentDirectory. split; [by intros ->|].
  intros entries ->. fold (dirs_of entries). split; [by intros ->|].
  intros Hne.
  assert (Hne' : sort_Strings (dirs_of entries) <> []).
  { intros H. apply Hne. apply Permutation_nil_r. by rewrite <- H, sort_Strings_perm. }
  split.
  - rewrite <- (sort_Strings_perm (dirs_of entries)) at 2. by apply last_elem_of.
  - intros d Hd. apply sorted_last_greatest; [apply sort_Strings_sorted|].
    by rewrite sort_Strings_perm.
Qed.

Lemma most_recent_directory_is_greatest_witness :
  getMostRecentDirectory listing "/data/replica_cmds" ∈ ["1700000000"; "1800000000"]%string /\
  String.leb "1700000000" (getMostRecentDirectory listing "/data/replica_cmds") = true.
Proof.
  pose proof (proj2 (most_recent_directory_is_greatest listing "/data/replica_cmds")
                [("1700000000", true); ("notes.txt", false); ("1800000000", true)]%string
                eq_refl) as [_ H].
  assert (Hne : dirs_of [("1700000000", true); ("notes.txt", false); ("1800000000", true)]%string
                <> []) by discriminate.
  destruct (H Hne) as [H1 H2]. split; [exact H1|].
  apply H2. left.
Defined.

(** ** The log reader: a second scan *)

Lemma offset_insert_eq r m filePath pos :
  offset (set_lastReadFiles (<[filePath := pos]> m) r) filePath = pos.
Proof. unfold offset. cbn. by rewrite lookup_insert_eq. Qed.

(** One read of what is left of a file of complete records moves the
    offset to the end of the file. *)
Lemma readBlockFile_complete_records E fs filePath file r :
  complete_records fs r filePath ->
  ReadFile fs filePath = Some file ->
  (offset r filePath < Go.len file)%Z ->
  exists r',
    readBlockFile E fs filePath (offset r filePath) r
    = set_lastReadFiles (<[filePath := Go.len file]> (lastReadFiles r)) r'.
Proof.
  intros Hrec Hfile Hlt. destruct (Hrec file Hfile) as (Hfits & Hpos & Hrest).
  destruct (Hrest Hlt) as (Hchunk & Hclean & Hlast).
  set (fromPos := offset r filePath) in *.
  assert (Hfrom : (0 <= fromPos < Go.len file)%Z) by lia.
  rewrite (readBlockFile_unfold E fs filePath file fromPos r Hfile Hfrom Hfits).
  cbv zeta. eexists. f_equal. f_equal.
  set (lines := Go.Split_lines (chunk file fromPos)) in *.
  pose proof (len_chunk file fromPos Hfrom) as Hlen.
  pose proof (sum_len_Split_lines (chunk file fromPos)) as Hsum. fold lines in Hsum.
  pose proof (sum_len_removelast lines (Split_lines_nonempty _)) as Hrem.
  rewrite Hlast, len_empty in Hrem.
  assert (Hmin : (Go.int64_min <= 0)%Z) by (by vm_compute).
  rewrite (readBlockFile_loop_exact E (Go.len_list lines) (Go.len (chunk file fromPos))
             fromPos (Go.len file) lines 0 fromPos r);
    [| apply Split_lines_nonempty | done | exact Hclean | by rewrite Hlast | lia | lia].
  rewrite Hlast, len_empty. destruct (_ && _); lia.
Qed.

(** The step of [scanBlockFiles] for one name leaves a file that has been
    read to its end alone. *)
Lemma scan_step_read_to_end E fs filePath r :
  read_to_end fs r filePath ->
  match ReadFile fs filePath with
  | None => r
  | Some file =>
      match lastReadFiles r !! filePath with
      | None => readBlockFile E fs filePath 0 r
      | Some lastReadPos =>
          if (lastReadPos <? Go.len file)%Z
          then readBlockFile E fs filePath lastReadPos r
          else r
      end
  end = r.
Proof.
  intros Hend. destruct (ReadFile fs filePath) as [file|] eqn:Hfile; [|done].
  specialize (Hend file Hfile). unfold offset in Hend.
  destruct (lastReadFiles r !! filePath) as [pos|]; cbn in Hend.
  - by replace (pos <? Go.len file)%Z with false by lia.
  - unfold readBlockFile. rewrite Hfile.
    by replace (Go.len file <=? 0)%Z with true by lia.
Qed.

(** X7: when what is left of every file of a directory is a run of
    complete records, one scan reads every file to its end, and a second
    scan of the same directory changes nothing: no record is processed
    twice. *)
Theorem second_scan_reads_nothing E fs dirPath entries r :
  ReadDir fs dirPath = Some entries ->
  (forall fileName, fileName ∈ files_of entries ->
                    complete_records fs r (Join dirPath fileName)) ->
  (forall fileName, fileName ∈ files_of entries ->
                    read_to_end fs (scanBlockFiles E fs dirPath r) (Join dirPath fileName)) /\
  scanBlockFiles E fs dirPath (scanBlockFiles E fs dirPath r)
    = scanBlockFiles E fs dirPath r.
Proof.
  intros Hdir Hrec.
  unfold scanBlockFiles. rewrite Hdir. fold (files_of entries).
  set (step := fun (r : LocalNodeReader) (fileName : string) => _).
  assert (Hnames : forall fileName,
             fileName ∈ sort_Strings (files_of entries) ->
             complete_records fs r (Join dirPath fileName)).
  { intros fileName H. apply Hrec. by rewrite <- sort_Strings_perm. }
  (* an offset is the one the scan started with, or the end of the file *)
  set (I := fun r' : LocalNodeReader =>
              forall path,
                lastReadFiles r' !! path = lastReadFiles r !! path \/
                read_to_end fs r' path).
  assert (Hstep_end : forall r' fileName path,
             read_to_end fs r' path -> read_to_end fs (step r' fileName) path).
  { intros r' fileName path Hend. subst step. cbv beta.
    destruct (decide (path = Join dirPath fileName)) as [->|Hne].
    - by rewrite scan_step_read_to_end.
    - destruct (ReadFile fs (Join dirPath fileName)) as [file|] eqn:Hfile; [|done].
      assert (Hother : forall fromPos,
                 read_to_end fs (readBlockFile E fs (Join dirPath fileName) fromPos r') path).
      { intros fromPos file' Hfile'. specialize (Hend file' Hfile').
        unfold offset in *.
        assert (Hkeep : lastReadFiles (readBlockFile E fs (Join dirPath fileName) fromPos r')
                          !! path = lastReadFiles r' !! path).
        { unfold readBlockFile. rewrite Hfile.
          destruct (_ <=? _)%Z; [done|]. cbv zeta.
          destruct (_ =? 0)%Z; [done|].
          destruct (readBlockFile_loop _ _ _ _ _ _ _ _ _ _) as [newPos r''] eqn:Hloop.
          cbn. rewrite lookup_insert_ne by done.
          pose proof (readBlockFile_loop_lastReadFiles E
                        (Go.len_list (Go.Split_lines
                           (Go.take_bytes
                              (Z.to_nat (if (MiB100 <? Go.sub64 (Go.len file) fromPos)%Z
                                         then MiB100 else Go.sub64 (Go.len file) fromPos))
                              (Go.drop_bytes
                                 (Z.to_nat (if (0 <? fromPos)%Z then fromPos else 0%Z)) file))))
                        (Go.len (Go.take_bytes
                              (Z.to_nat (if (MiB100 <? Go.sub64 (Go.len file) fromPos)%Z
                                         then MiB100 else Go.sub64 (Go.len file) fromPos))
                              (Go.drop_bytes
                                 (Z.to_nat (if (0 <? fromPos)%Z then fromPos else 0%Z)) file)))
                        (if (MiB100 <? Go.sub64 (Go.len file) fromPos)%Z
                         then MiB100 else Go.sub64 (Go.len file) fromPos)
                        fromPos (Go.len file)
                        (Go.Split_lines
                           (Go.take_bytes
                              (Z.to_nat (if (MiB100 <? Go.sub64 (Go.len file) fromPos)%Z
                                         then MiB100 else Go.sub64 (Go.len file) fromPos))
                              (Go.drop_bytes
                                 (Z.to_nat (if (0 <? fromPos)%Z then fromPos else 0%Z)) file)))
                        0 fromPos r') as Hk.
          rewrite Hloop in Hk. cbn in Hk. by rewrite Hk. }
        by rewrite Hkeep. }
      destruct (lastReadFiles r' !! Join dirPath fileName); [destruct (_ <? _)%Z|]; auto. }
  assert (Hstep : forall r' fileName,
             complete_records fs r (Join dirPath fileName) ->
             I r' -> I (step r' fileName) /\
                     read_to_end fs (step r' fileName) (Join dirPath fileName)).
  { intros r' fileName Hcr HI.
    destruct (HI (Join dirPath fileName)) as [Hsame|Hend].
    2:{ split; [|by apply Hstep_end]. intros path.
        subst step. cbv beta. rewrite scan_step_read_to_end by done. apply HI. }
    assert (Hcr' : complete_records fs r' (Join dirPath fileName)).
    { intros file Hfile. specialize (Hcr file Hfile). unfold offset in *.
      by rewrite Hsame. }
    assert (Hown : read_to_end fs (step r' fileName) (Join dirPath fileName) /\
                   forall path, path <> Join dirPath fileName ->
                     lastReadFiles (step r' fileName) !! path = lastReadFiles r' !! path).
    { subst step. cbv beta.
      destruct (ReadFile fs (Join dirPath fileName)) as [file|] eqn:Hfile.
      2:{ split; [|done]. intros file Hfile'. congruence. }
      destruct (Hcr' file Hfile) as (Hfits & Hpos & _).
      destruct (Z.lt_ge_cases (offset r' (Join dirPath fileName)) (Go.len file))
        as [Hlt|Hge].
      - destruct (readBlockFile_complete_records E fs _ file r' Hcr' Hfile Hlt)
          as [r'' Hread].
        unfold offset in Hread, Hlt.
        destruct (lastReadFiles r' !! Join dirPath fileName) as [pos|] eqn:Hlook;
          cbn in Hread, Hlt.
        + replace (pos <? Go.len file)%Z with true by lia. rewrite Hread.
          split; [|intros path Hne; cbn; by rewrite lookup_insert_ne].
          intros file' Hfile'. rewrite offset_insert_eq.
          assert (file' = file) by congruence. subst. lia.
        + rewrite Hread.
          split; [|intros path Hne; cbn; by rewrite lookup_insert_ne].
          intros file' Hfile'. rewrite offset_insert_eq.
          assert (file' = file) by congruence. subst. lia.
      - assert (Hend : read_to_end fs r' (Join dirPath fileName)).
        { intros file' Hfile'. assert (file' = file) by congruence. subst. lia. }
        pose proof (scan_step_read_to_end E fs _ r' Hend) as Hid.
        rewrite Hfile in Hid. rewrite Hid. by split. }
    destruct Hown as [Hown Hothers]. split; [|exact Hown].
    intros path. destruct (decide (path = Join dirPath fileName)) as [->|Hne].
    - by right.
    - destruct (HI path) as [H1|H1].
      + left. by rewrite Hothers.
      + right. by apply Hstep_end. }
  assert (Hfold : forall names r',
             (forall fileName, fileName ∈ names ->
                               complete_records fs r (Join dirPath fileName)) ->
             I r' ->
             I (fold_left step names r') /\
             forall path, (read_to_end fs r' path \/
                           exists fileName, fileName ∈ names /\ path = Join dirPath fileName) ->
                          read_to_end fs (fold_left step names r') path).
  { induction names as [|fileName names IH]; intros r' Hcr HI.
    { split; [done|]. intros path [H|(? & H & _)]; [done|by apply elem_of_nil in H]. }
    cbn [fold_left].
    destruct (Hstep r' fileName) as [HI' Hown]; [apply Hcr; left|done|].
    destruct (IH (step r' fileName)) as [HI'' Hends];
      [intros; apply Hcr; by right|done|].
    split; [done|]. intros path [H|(name & Hin & ->)].
    - apply Hends. left. by apply Hstep_end.
    - apply elem_of_cons in Hin as [->|Hin].
      + apply Hends. by left.
      + apply Hends. right. by exists name. }
  destruct (Hfold (sort_Strings (files_of entries)) r Hnames) as [_ Hends].
  { intros path. by left. }
  assert (Hall : forall fileName,
             fileName ∈ sort_Strings (files_of entries) ->
             read_to_end fs (fold_left step (sort_Strings (files_of entries)) r)
                         (Join dirPath fileName)).
  { intros fileName Hin. apply Hends. right. by exists fileName. }
  split.
  - intros fileName Hin. apply Hall. by rewrite sort_Strings_perm.
  - (* the second scan *)
    set (r1 := fold_left step (sort_Strings (files_of entries)) r) in *.
    clearbody r1. clear -Hall.
    assert (Hid : forall names,
               (forall fileName, fileName ∈ names ->
                                 read_to_end fs r1 (Join dirPath fileName)) ->
               fold_left step names r1 = r1).
    { induction names as [|fileName names IH]; intros H; [done|].
      cbn [fold_left]. subst step. cbv beta.
      rewrite scan_step_read_to_end by (apply H; left).
      apply IH. intros. apply H. by right. }
    by apply Hid.
Qed.

Lemma second_scan_reads_nothing_witness :
  offset (scanBlockFiles E (tree chunk_2) "/data/replica_cmds/1700000000/20250101" reader0)
         logfile = Go.len chunk_2 /\
  scanBlockFiles E (tree chunk_2) "/data/replica_cmds/1700000000/20250101"
    (scanBlockFiles E (tree chunk_2) "/data/replica_cmds/1700000000/20250101" reader0)
  = scanBlockFiles E (tree chunk_2) "/data/replica_cmds/1700000000/20250101" reader0.
Proof.
  assert (Hdir : ReadDir (tree chunk_2) "/data/replica_cmds/1700000000/20250101"
                 = Some [("100"%string, false)]) by reflexivity.
  assert (Hrec : forall fileName,
             fileName ∈ files_of [("100"%string, false)] ->
             complete_records (tree chunk_2) reader0
               (Join "/data/replica_cmds/1700000000/20250101" fileName)).
  { intros fileName Hin. apply list_elem_of_singleton in Hin as ->.
    intros file Hfile. injection Hfile as <-. cbv zeta.
    split; [by vm_compute|]. split; [by vm_compute|]. intros _.
    split; [by vm_compute|]. split; [|by vm_compute].
    intros l Hl. vm_compute in Hl.
    apply elem_of_cons in Hl as [->|Hl]; [by split|].
    apply list_elem_of_singleton in Hl as ->. by split. }
  pose proof (second_scan_reads_nothing E (tree chunk_2)
                "/data/replica_cmds/1700000000/20250101" [("100"%string, false)]
                reader0 Hdir Hrec) as [_ H].
  split; [by vm_compute|exact H].
Defined.

End histories.

(** ** The resolver: what the tables hold *)

Section tables.
Import asset_fetcher resolver_examples table_examples.

Lemma fetchPerpetuals_loop_keyed i universe af :
  keyed af -> keyed (fetchPerpetuals_loop i universe af).
Proof.
  revert i af. induction universe as [|m universe IH]; intros i af Haf; [done|].
  cbn [fetchPerpetuals_loop]. apply IH.
  destruct Haf as (Hp & Hs & Hn). split; [|split]; cbn.
  - intros id asset. destruct (decide (i = id)) as [->|Hne].
    + rewrite lookup_insert_eq. by intros [= <-].
    + rewrite lookup_insert_ne by done. apply Hp.
  - exact Hs.
  - intros name asset. destruct (decide (PerpMeta.Name m = name)) as [<-|Hne].
    + rewrite lookup_insert_eq. by intros [= <-].
    + rewrite lookup_insert_ne by done. apply Hn.
Qed.

Lemma fetchSpotAssets_loop_keyed tokenMap universe af :
  keyed af -> keyed (fetchSpotAssets_loop tokenMap universe af).
Proof.
  unfold fetchSpotAssets_loop. apply fold_left_invariant.
  intros af0 pair (Hp & Hs & Hn). split; [|split]; cbn.
  - exact Hp.
  - intros id asset.
    destruct (decide (Go.add64 10000 (SpotPair.Index pair) = id)) as [<-|Hne].
    + rewrite lookup_insert_eq. by intros [= <-].
    + rewrite lookup_insert_ne by done. apply Hs.
  - intros name asset.
    destruct (decide (spot_assetName tokenMap pair = name)) as [<-|Hne].
    + rewrite lookup_insert_eq. by intros [= <-].
    + rewrite lookup_insert_ne by done. apply Hn.
Qed.

Lemma fetchAssets_keyed perp spot now af :
  keyed af -> keyed (fst (fetchAssets perp spot now af)).
Proof.
  intros Haf. unfold fetchAssets.
  pose proof (fetchPerpetuals_cases perp af) as Hperp.
  destruct (answered perp) as [metaResp|]; [|by destruct Hperp as [e ->]].
  rewrite Hperp.
  set (af1 := fetchPerpetuals_loop 0 _ af).
  assert (Haf1 : keyed af1) by (by apply fetchPerpetuals_loop_keyed).
  pose proof (fetchSpotAssets_cases spot af1) as Hspot.
  destruct (answered spot) as [spotResp|]; [|by destruct Hspot as [e ->]].
  rewrite Hspot. cbn [fst].
  by apply (fetchSpotAssets_loop_keyed
              (tokenMap_of (HyperliquidSpotMetaResponse.Tokens spotResp))
              (HyperliquidSpotMetaResponse.Universe spotResp)) in Haf1.
Qed.

(** X8: after any run of refreshes, whatever the queries answered, every
    record of the resolver sits under the key its own fields give. A
    lookup by id returns a record with that index, a spot record only
    under the index of its pair above the spot offset of 10000, and a
    lookup by name returns a record with that name. *)
Theorem resolver_records_match_their_keys replies :
  let af := refreshes replies NewAssetFetcher in
  keyed af /\
  (forall id asset, GetAssetByID af id = Some asset -> Index asset = id) /\
  (forall id asset, GetAssetByID af id = Some asset -> IsSpot asset = true ->
                    id = Go.add64 10000 (TokenIndex asset)) /\
  (forall name asset, GetAssetByName af name = Some asset -> Name asset = name).
Proof.
  cbv zeta.
  assert (H : keyed (refreshes replies NewAssetFetcher)).
  { unfold refreshes. apply fold_left_invariant.
    - intros af reply Haf. by apply fetchAssets_keyed.
    - split; [|split]; intros ? ?; cbn; by rewrite lookup_empty. }
  split; [exact H|]. destruct H as (Hp & Hs & Hn).
  unfold GetAssetByID, GetAssetByName. split; [|split].
  - intros id asset.
    destruct (perpAssets _ !! id) as [a|] eqn:H1.
    { intros [= <-]. by apply Hp. }
    destruct (spotAssets _ !! id) as [a|] eqn:H2; [|done].
    intros [= <-]. by apply Hs.
  - intros id asset.
    destruct (perpAssets _ !! id) as [a|] eqn:H1.
    { intros [= <-] Hspot. destruct (Hp id a H1) as [_ Hno]. congruence. }
    destruct (spotAssets _ !! id) as [a|] eqn:H2; [|done].
    intros [= <-] _. by apply Hs.
  - intros name asset. apply Hn.
Qed.

Lemma resolver_records_match_their_keys_witness :
  exists asset, GetAssetByID af1 10000 = Some asset /\ Index asset = 10000%Z /\
                Name asset = "PURR/USDC"%string.
Proof.
  pose proof (resolver_records_match_their_keys [(meta_BTC_ETH, spotMeta_PURR, 1000%Z)])
    as (_ & H & _).
  assert (Hget : GetAssetByID af1 10000
                 = Some (mkAssetInfo 10000 "PURR/USDC" 0 0 true 0)) by (by vm_compute).
  exists (mkAssetInfo 10000 "PURR/USDC" 0 0 true 0).
  split; [exact Hget|]. split; [|reflexivity].
  exact (H 10000%Z _ Hget).
Defined.

Lemma fetchPerpetuals_loop_below i universe af j :
  (0 <= i)%Z -> (i + Z.of_nat (length universe) <= Go.int64_max)%Z -> (j < i)%Z ->
  perpAssets (fetchPerpetuals_loop i universe af) !! j = perpAssets af !! j.
Proof.
  revert i af. induction universe as [|m universe IH]; intros i af Hi Hmax Hj; [done|].
  cbn [fetchPerpetuals_loop]. cbn [length] in Hmax.
  assert (Hmin : (Go.int64_min <= 0)%Z) by (by vm_compute).
  rewrite add64_small by lia.
  rewrite IH by lia. cbn. apply lookup_insert_ne. lia.
Qed.

Lemma fetchPerpetuals_loop_at i universe af k m :
  (0 <= i)%Z -> (i + Z.of_nat (length universe) <= Go.int64_max)%Z ->
  universe !! k = Some m ->
  perpAssets (fetchPerpetuals_loop i universe af) !! (i + Z.of_nat k)%Z
  = Some (mkAssetInfo (i + Z.of_nat k) (PerpMeta.Name m) (PerpMeta.SzDecimals m)
                      (PerpMeta.MaxLeverage m) false 0).
Proof.
  revert i af k. induction universe as [|m0 universe IH]; intros i af k Hi Hmax Hk;
    [done|].
  cbn [fetchPerpetuals_loop]. cbn [length] in Hmax.
  assert (Hmin : (Go.int64_min <= 0)%Z) by (by vm_compute).
  rewrite add64_small by lia.
  destruct k as [|k].
  - injection Hk as ->. rewrite fetchPerpetuals_loop_below by lia.
    cbn. rewrite Z.add_0_r. apply lookup_insert_eq.
  - cbn in Hk. replace (i + Z.of_nat (S k))%Z with (i + 1 + Z.of_nat k)%Z by lia.
    apply IH; [lia|lia|done].
Qed.

(** X9: a refresh whose non-spot query is answered stores the entry at
    position i of the answer under the id i, with the name, the decimals
    and the leverage of the entry, whatever the table held before and
    whether or not the spot query is answered; the lookup by id then
    returns that record. *)
Theorem refresh_stores_each_entry_under_its_position perp spot now af metaResp i m :
  answered perp = Some metaResp ->
  (Z.of_nat (length (HyperliquidMetaResponse.Universe metaResp)) <= Go.int64_max)%Z ->
  HyperliquidMetaResponse.Universe metaResp !! i = Some m ->
  perpAssets (fst (fetchAssets perp spot now af)) !! Z.of_nat i = Some (perp_record i m) /\
  GetAssetByID (fst (fetchAssets perp spot now af)) (Z.of_nat i) = Some (perp_record i m).
Proof.
  intros Hperp Hlen Hi.
  assert (H : perpAssets (fst (fetchAssets perp spot now af)) !! Z.of_nat i
              = Some (perp_record i m)).
  { unfold fetchAssets.
    pose proof (fetchPerpetuals_cases perp af) as Hp. rewrite Hperp in Hp. rewrite Hp.
    set (af1 := fetchPerpetuals_loop 0 _ af).
    assert (H1 : perpAssets af1 !! Z.of_nat i = Some (perp_record i m)).
    { subst af1.
      pose proof (fetchPerpetuals_loop_at 0 (HyperliquidMetaResponse.Universe metaResp)
                    af i m) as H.
      rewrite Z.add_0_l in H. apply H; [lia|lia|done]. }
    pose proof (fetchSpotAssets_cases spot af1) as Hs.
    destruct (answered spot) as [spotResp|].
    - rewrite Hs. cbn [fst perpAssets].
      by rewrite (proj1 (fetchSpotAssets_loop_frame _ _ _)).
    - by destruct Hs as [e ->]. }
  split; [exact H|]. unfold GetAssetByID. by rewrite H.
Qed.

Lemma refresh_stores_each_entry_under_its_position_witness :
  GetAssetByID (fst half_failed_refresh) 0 = Some (mkAssetInfo 0 "BTC" 5 40 false 0).
Proof.
  pose proof (refresh_stores_each_entry_under_its_position meta_BTC RequestFailed 2000 af1
                (HyperliquidMetaResponse.mk [PerpMeta.mk "BTC" 5 40]) 0
                (PerpMeta.mk "BTC" 5 40)) as H.
  assert (H1 : answered meta_BTC = Some (HyperliquidMetaResponse.mk [PerpMeta.mk "BTC" 5 40]))
    by reflexivity.
  assert (H2 : (Z.of_nat (length (HyperliquidMetaResponse.Universe
                                    (HyperliquidMetaResponse.mk [PerpMeta.mk "BTC" 5 40])))
                <= Go.int64_max)%Z) by (vm_compute; discriminate).
  exact (proj2 (H H1 H2 eq_refl)).
Defined.

End tables.

(** ** The connector: reconnection and resubscription *)

Section upstream.
Import types hyperliquid upstream_examples.

Lemma Subscribe_connected queue sub c delay :
  isConnected c = true ->
  queue = ReadyAfter delay tt -> (delay < send_timeout)%Z ->
  Subscribe queue sub c
  = (mkConnector true (outgoingMessages c ++ [subscribe_message sub])
                 (<[createSubscriptionKey sub := sub]> (subscriptions c))
                 (postRequests c) (nextRequestID c), None).
Proof.
  intros Hc -> Hd. unfold Subscribe, sendMessage. rewrite Hc. cbn.
  by replace (delay <? send_timeout)%Z with true by lia.
Qed.

Lemma resubscribe_loop_spec queue : forall subs n c,
  isConnected c = true ->
  accepts queue ->
  (forall sub, sub ∈ subs -> subscriptions c !! createSubscriptionKey sub = Some sub) ->
  resubscribe_loop queue n subs c
  = mkConnector true (outgoingMessages c ++ map subscribe_message subs)
                (subscriptions c) (postRequests c) (nextRequestID c).
Proof.
  induction subs as [|sub subs IH]; intros n c Hc Hq Hsubs.
  { cbn. rewrite app_nil_r. destruct c. cbn in Hc. by subst. }
  cbn [resubscribe_loop map].
  destruct (Hq n) as (delay & Hqn & Hdelay).
  rewrite (Subscribe_connected (queue n) sub c delay Hc Hqn Hdelay). cbn [fst].
  rewrite insert_id by (apply Hsubs; left).
  rewrite IH; cbn; [by rewrite <- app_assoc|done|done|].
  intros sub' Hin. apply Hsubs. by right.
Qed.

Lemma resubscribe_loop_disconnected queue : forall subs n c,
  isConnected c = false -> resubscribe_loop queue n subs c = c.
Proof.
  induction subs as [|sub subs IH]; intros n c Hc; [done|].
  cbn [resubscribe_loop]. unfold Subscribe. rewrite Hc. cbn [negb fst]. by apply IH.
Qed.

(** X10: on a connected connector whose outgoing queue takes the messages,
    [resubscribeAll] sends one subscribe message for every tracked
    subscription, none twice and none left out, in the order the map is
    visited, and leaves the tracked set as it was. On a connector that is
    not connected it sends nothing. *)
Theorem resubscribe_sends_every_tracked_subscription_once range queue c :
  (forall m, range m ≡ₚ map_to_list m) ->
  upstream_examples.keyed c ->
  (isConnected c = false -> resubscribeAll range queue c = c) /\
  (isConnected c = true ->
   accepts queue ->
   exists sent,
     sent ≡ₚ map snd (map_to_list (subscriptions c)) /\
     resubscribeAll range queue c
     = mkConnector true (outgoingMessages c ++ map subscribe_message sent)
                   (subscriptions c) (postRequests c) (nextRequestID c)).
Proof.
  intros Hrange Hkeyed. split.
  - intros Hc. by apply resubscribe_loop_disconnected.
  - intros Hc Hq. exists (map snd (range (subscriptions c))). split.
    + by rewrite Hrange.
    + apply resubscribe_loop_spec; [done|done|].
      intros sub Hin. apply list_elem_of_In, in_map_iff in Hin as ([key sub'] & <- & Hin).
      apply list_elem_of_In in Hin. rewrite Hrange in Hin.
      apply elem_of_map_to_list in Hin. cbn.
      by rewrite (Hkeyed key sub' Hin).
Qed.

Lemma resubscribe_sends_every_tracked_subscription_once_witness :
  exists sent,
    sent ≡ₚ [registry_examples.sub_allMids; registry_examples.sub_trades_ETH] /\
    outgoingMessages (resubscribeAll map_to_list (fun _ => ReadyAfter 0 tt) tracking)
    = map subscribe_message sent.
Proof.
  assert (Hrange : forall m : gmap string SubscriptionRequest.t,
             map_to_list m ≡ₚ map_to_list m) by done.
  assert (Hkeyed : upstream_examples.keyed tracking).
  { intros key sub. unfold tracking. cbn [subscriptions].
    intros H. apply lookup_insert_Some in H as [[<- <-]|[_ H]]; [done|].
    apply lookup_insert_Some in H as [[<- <-]|[_ H]]; [done|].
    by rewrite lookup_empty in H. }
  assert (Hq : accepts (fun _ => ReadyAfter 0 tt)).
  { intros n. exists 0%Z. by split. }
  destruct (proj2 (resubscribe_sends_every_tracked_subscription_once
                     map_to_list (fun _ => ReadyAfter 0 tt) tracking Hrange Hkeyed)
              eq_refl Hq) as (sent & Hsent & Heq).
  exists sent. split; [|by rewrite Heq].
  rewrite Hsent. by vm_compute.
Defined.

(** A successful [Subscribe] or [Unsubscribe] keeps the tracked set
    keyed. *)
Lemma Subscribe_keyed queue sub c :
  upstream_examples.keyed c -> upstream_examples.keyed (fst (Subscribe queue sub c)).
Proof.
  intros Hk. unfold Subscribe. destruct (negb (isConnected c)); [done|].
  match goal with |- context [sendMessage ?q ?m ?c0] =>
    assert (H : subscriptions (fst (fst (sendMessage q m c0)))
                = <[createSubscriptionKey sub := sub]> (subscriptions c));
    [|destruct (sendMessage q m c0) as [[c' err] waited]]
  end.
  { unfold sendMessage. destruct queue as [delay ?|]; [|done].
    by destruct (delay <? send_timeout)%Z. }
  cbn [fst] in *. intros key sub'. rewrite H.
  intros Hl. apply lookup_insert_Some in Hl as [[<- <-]|[_ Hl]]; [done|by apply Hk].
Qed.

Lemma wait_shift maxR interval cur rounds :
  map (wait (mkReconnection maxR interval (cur + 1))) (seq 1 rounds)
  = map (wait (mkReconnection maxR interval cur)) (seq 2 rounds).
Proof.
  rewrite <- (seq_shift rounds 1), map_map. apply map_ext. intros k.
  unfold wait. cbn [currentRetries retryInterval]. f_equal. lia.
Qed.

Lemma wait_one maxR interval cur :
  wait (mkReconnection maxR interval cur) 1 = ((cur + 1) * interval)%Z.
Proof. reflexivity. Qed.

Lemma attemptReconnect_loop_fail dial c maxR interval : forall rounds n cur slept,
  (0 <= cur)%Z -> (maxR <= Go.int64_max)%Z -> (0 <= interval)%Z ->
  (maxR * interval <= Go.int64_max)%Z ->
  rounds = Z.to_nat (maxR - cur) ->
  (forall k, (k < rounds)%nat -> dial (n + k)%nat = false) ->
  attemptReconnect_loop rounds dial n (c, mkReconnection maxR interval cur) slept
  = (c, mkReconnection maxR interval (Z.max cur maxR),
     slept ++ map (wait (mkReconnection maxR interval cur)) (seq 1 rounds)).
Proof.
  assert (Hmin : (Go.int64_min <= 0)%Z) by (by vm_compute).
  induction rounds as [|rounds IH]; intros n cur slept Hcur Hmax Hint Hprod Hrounds Hdial.
  { cbn. replace (cur <? maxR)%Z with false by lia.
    rewrite app_nil_r. by replace (Z.max cur maxR) with cur by lia. }
  cbn [attemptReconnect_loop currentRetries maxRetries retryInterval].
  replace (cur <? maxR)%Z with true by lia.
  rewrite add64_small by lia.
  rewrite wrap64_small
    by (assert (cur + 1 <= maxR)%Z by lia;
        assert (0 <= (cur + 1) * interval <= maxR * interval)%Z by nia; lia).
  unfold Connect. rewrite <- (Nat.add_0_r n) at 1. rewrite (Hdial 0%nat) by lia.
  rewrite IH; [|lia|exact Hmax|exact Hint|exact Hprod|lia|].
  - rewrite wait_shift, <- app_assoc. cbn [app].
    change (seq 1 (S rounds)) with (1%nat :: seq 2 rounds). cbn [map].
    rewrite wait_one.
    by replace (Z.max (cur + 1) maxR) with (Z.max cur maxR) by lia.
  - intros k Hk. replace (S n + k)%nat with (n + S k)%nat by lia. apply Hdial. lia.
Qed.

Lemma attemptReconnect_loop_success dial c maxR interval : forall j rounds n cur slept,
  (0 <= cur)%Z -> (maxR <= Go.int64_max)%Z -> (0 <= interval)%Z ->
  (maxR * interval <= Go.int64_max)%Z ->
  rounds = Z.to_nat (maxR - cur) ->
  (j < rounds)%nat ->
  (forall k, (k < j)%nat -> dial (n + k)%nat = false) ->
  dial (n + j)%nat = true ->
  attemptReconnect_loop rounds dial n (c, mkReconnection maxR interval cur) slept
  = (set_isConnected true c, mkReconnection maxR interval 0,
     slept ++ map (wait (mkReconnection maxR interval cur)) (seq 1 (S j))).
Proof.
  assert (Hmin : (Go.int64_min <= 0)%Z) by (by vm_compute).
  induction j as [|j IH];
    intros rounds n cur slept Hcur Hmax Hint Hprod Hrounds Hj Hfail Hdial.
  - destruct rounds as [|rounds]; [lia|].
    cbn [attemptReconnect_loop currentRetries maxRetries retryInterval].
    replace (cur <? maxR)%Z with true by lia.
    rewrite add64_small by lia.
    rewrite wrap64_small
      by (assert (cur + 1 <= maxR)%Z by lia;
          assert (0 <= (cur + 1) * interval <= maxR * interval)%Z by nia; lia).
    unfold Connect. rewrite Nat.add_0_r in Hdial. rewrite Hdial.
    cbn [maxRetries retryInterval seq map]. by rewrite wait_one.
  - destruct rounds as [|rounds]; [lia|].
    cbn [attemptReconnect_loop currentRetries maxRetries retryInterval].
    replace (cur <? maxR)%Z with true by lia.
    rewrite add64_small by lia.
    rewrite wrap64_small
      by (assert (cur + 1 <= maxR)%Z by lia;
          assert (0 <= (cur + 1) * interval <= maxR * interval)%Z by nia; lia).
    unfold Connect. rewrite <- (Nat.add_0_r n) at 1. rewrite (Hfail 0%nat) by lia.
    rewrite (IH rounds (S n) (cur + 1)%Z);
      [|lia|exact Hmax|exact Hint|exact Hprod|lia|lia| |].
    + rewrite wait_shift, <- app_assoc. cbn [app].
      change (seq 1 (S (S j))) with (1%nat :: seq 2 (S j)). cbn [map].
      by rewrite wait_one.
    + intros k Hk. replace (S n + k)%nat with (n + S k)%nat by lia. apply Hfail. lia.
    + replace (S n + j)%nat with (n + S j)%nat by lia. exact Hdial.
Qed.

(** X11: a reconnection dials at most [maxRetries - currentRetries] times
    and sleeps before the k-th dial for k more retry intervals than the
    counter started with: the wait grows by one interval per attempt.
    The first dial that succeeds ends it with the connector connected and
    the counter back at 0; when every dial fails the connector is left as
    it was, with the counter at [maxRetries]. *)
Theorem reconnection_waits_grow_by_one_interval dial c rc :
  (0 <= currentRetries rc <= maxRetries rc)%Z ->
  (maxRetries rc <= Go.int64_max)%Z ->
  (0 <= retryInterval rc)%Z ->
  (maxRetries rc * retryInterval rc <= Go.int64_max)%Z ->
  let rounds := Z.to_nat (maxRetries rc - currentRetries rc) in
  (fail_before dial rounds ->
   attemptReconnect dial (c, rc)
   = (c, mkReconnection (maxRetries rc) (retryInterval rc) (maxRetries rc),
      map (wait rc) (seq 1 rounds))) /\
  (forall j,
      (j < rounds)%nat -> fail_before dial j -> dial j = true ->
      attemptReconnect dial (c, rc)
      = (set_isConnected true c,
         mkReconnection (maxRetries rc) (retryInterval rc) 0,
         map (wait rc) (seq 1 (S j)))).
Proof.
  destruct rc as [maxR interval cur]. cbn [currentRetries maxRetries retryInterval].
  intros Hcur Hmax Hint Hprod. cbv zeta. set (rounds := Z.to_nat (maxR - cur)).
  unfold attemptReconnect. cbn [snd maxRetries currentRetries]. fold rounds. split.
  - intros Hfail.
    rewrite (attemptReconnect_loop_fail dial c maxR interval rounds 0 cur []);
      [|lia|done|done|done|done|by intros; apply Hfail].
    by replace (Z.max cur maxR) with maxR by lia.
  - intros j Hj Hfail Hdial.
    by rewrite (attemptReconnect_loop_success dial c maxR interval j rounds 0 cur []);
      [|lia|done|done|done|done|done|by intros; apply Hfail|done].
Qed.

Lemma reconnection_waits_grow_by_one_interval_witness :
  attemptReconnect third_dial (Disconnect tracking, NewReconnection)
  = (tracking, NewReconnection, [5 * Second; 10 * Second; 15 * Second]%Z).
Proof.
  pose proof (reconnection_waits_grow_by_one_interval third_dial (Disconnect tracking)
                NewReconnection) as H.
  assert (H1 : (0 <= currentRetries NewReconnection <= maxRetries NewReconnection)%Z)
    by (by vm_compute).
  assert (H2 : (maxRetries NewReconnection <= Go.int64_max)%Z) by (by vm_compute).
  assert (H3 : (0 <= retryInterval NewReconnection)%Z) by (by vm_compute).
  assert (H4 : (maxRetries NewReconnection * retryInterval NewReconnection
                <= Go.int64_max)%Z) by (by vm_compute).
  destruct (H H1 H2 H3 H4) as [_ Hok].
  assert (Hj : (2 < Z.to_nat (maxRetries NewReconnection - currentRetries NewReconnection))%nat)
    by (vm_compute; lia).
  assert (Hfail : fail_before third_dial 2).
  { intros [|[|k]] Hk; [done|done|lia]. }
  exact (Hok 2%nat Hj Hfail eq_refl).
Defined.

(** X12: a frame of the upstream on the channel of the responses that
    carries a request id is never handed to the message handler. When no
    request with that id is pending the state is left as it was; when the
    slot of the request is empty the decoded response is put into that
    slot and into no other, and a second frame for the same id is
    dropped. *)
Theorem response_goes_to_the_slot_of_its_request json_Unmarshal json_Unmarshal_response
    data msg id c :
  data <> pong_method -> data <> pong_status ->
  json_Unmarshal data = Some msg ->
  WSMessage.Channel msg = "post"%string ->
  WSMessage.ID msg = Some id ->
  snd (processMessage json_Unmarshal json_Unmarshal_response data c) = None /\
  (postRequests c !! id = None ->
   fst (processMessage json_Unmarshal json_Unmarshal_response data c) = Go.Returns c) /\
  (forall response,
      json_Unmarshal_response data = Some response ->
      postRequests c !! id = Some (Go.make 1) ->
      let c1 := mkConnector (isConnected c) (outgoingMessages c) (subscriptions c)
                            (<[id := Go.mkchan [response] 1 false]> (postRequests c))
                            (nextRequestID c) in
      fst (processMessage json_Unmarshal json_Unmarshal_response data c) = Go.Returns c1 /\
      fst (processMessage json_Unmarshal json_Unmarshal_response data c1) = Go.Returns c1).
Proof.
  intros Hp1 Hp2 Hmsg Hchan Hid. unfold processMessage.
  apply String.eqb_neq in Hp1, Hp2. rewrite Hp1, Hp2, Hmsg, Hid, Hchan. cbn [orb String.eqb].
  replace (String.eqb "post" "post") with true by reflexivity.
  cbn [fst snd]. split; [done|]. split.
  - intros Hnone. unfold handlePostResponse. by rewrite Hnone.
  - intros response Hresp Hslot. cbv zeta. unfold handlePostResponse.
    rewrite Hslot, Hresp. cbn [postRequests]. rewrite lookup_insert_eq.
    split; reflexivity.
Qed.

Lemma response_goes_to_the_slot_of_its_request_witness :
  Go.buf <$> postRequests (default pending (match fst (processMessage decode_frame
                                                         decode_response "post 7" pending) with
                                            | Go.Returns c => Some c
                                            | _ => None
                                            end)) !! 7%Z
  = Some [answer_7].
Proof.
  pose proof (response_goes_to_the_slot_of_its_request decode_frame decode_response
                "post 7" (WSMessage.mk EmptyString None "post" EmptyString (Some 7%Z) None)
                7 pending) as H.
  assert (H1 : "post 7"%string <> pong_method) by discriminate.
  assert (H2 : "post 7"%string <> pong_status) by discriminate.
  destruct (H H1 H2 eq_refl eq_refl eq_refl) as (_ & _ & Hslot).
  destruct (Hslot answer_7 eq_refl eq_refl) as [-> _].
  reflexivity.
Defined.

End upstream.

(** ** The hub *)

Section sessions.
Import types client hub_examples.

Lemma store_eq (heap : Heap) c v : store heap c v c = v.
Proof. unfold store. by rewrite decide_True. Qed.

Lemma store_ne (heap : Heap) c v c' : c' <> c -> store heap c v c' = heap c'.
Proof. intros H. unfold store. by rewrite decide_False. Qed.

Lemma elem_of_remove (c c' : Go.ptr) (X : gset Go.ptr) :
  c' ∈ X ∖ {[c]} <-> c' ∈ X /\ c' <> c.
Proof. rewrite elem_of_difference, elem_of_singleton. tauto. Qed.

(** X13: the hub closes the queue of a session once. Leaving removes a
    registered session from the active set and closes its queue; for a
    session that is not registered, and so for a session that has
    already left, it does nothing: a second leave is harmless. With every
    registered queue open the case never panics. *)
Theorem leaving_twice_is_harmless c h heap :
  (c ∉ Clients h -> Run_Unregister c (h, heap) = Go.Returns (h, heap)) /\
  (c ∈ Clients h ->
   Go.closed (Send (heap c)) = false ->
   exists heap',
     Run_Unregister c (h, heap) = Go.Returns (mkHub (Clients h ∖ {[c]}), heap') /\
     Go.closed (Send (heap' c)) = true /\
     Go.buf (Send (heap' c)) = Go.buf (Send (heap c)) /\
     (forall c', c' <> c -> heap' c' = heap c') /\
     Run_Unregister c (mkHub (Clients h ∖ {[c]}), heap')
       = Go.Returns (mkHub (Clients h ∖ {[c]}), heap')) /\
  (hub_open (h, heap) ->
   exists st', Run_Unregister c (h, heap) = Go.Returns st' /\ hub_open st').
Proof.
  split; [|split].
  - intros Hnot. unfold Run_Unregister. by rewrite decide_False.
  - intros Hin Hopen. unfold Run_Unregister at 1. rewrite decide_True by done.
    unfold Go.close. rewrite Hopen. eexists. split; [reflexivity|].
    rewrite store_eq. cbn. split; [done|]. split; [done|]. split.
    + intros c' Hne. by rewrite store_ne.
    + unfold Run_Unregister. rewrite decide_False; [done|]. cbn.
      rewrite elem_of_remove. by intros [_ ?].
  - intros Hopen. unfold Run_Unregister.
    destruct (decide (c ∈ Clients h)) as [Hin|Hnot]; [|by eexists].
    pose proof (Hopen c Hin) as Hc. cbn in Hc.
    unfold Go.close. rewrite Hc. eexists. split; [reflexivity|].
    intros c' Hc'. cbn in Hc'. apply elem_of_remove in Hc' as [Hc' Hne]. cbn [snd].
    rewrite store_ne by done. by apply (Hopen c').
Qed.

Lemma leaving_twice_is_harmless_witness :
  exists heap',
    Run_Unregister 1%nat two_sessions = Go.Returns (mkHub ({[1%nat; 2%nat]} ∖ {[1%nat]}), heap') /\
    Go.closed (Send (heap' 1%nat)) = true.
Proof.
  assert (Hin : 1%nat ∈ Clients (fst two_sessions)).
  { cbn. apply elem_of_union_l. by apply elem_of_singleton. }
  destruct (proj1 (proj2 (leaving_twice_is_harmless 1%nat (fst two_sessions)
                            (snd two_sessions))) Hin eq_refl)
    as (heap' & H1 & H2 & _).
  exists heap'. by split.
Defined.

Lemma Run_Broadcast_spec message : forall order h (heap : Heap),
  NoDup order ->
  (forall c, c ∈ order -> Go.closed (Send (heap c)) = false) ->
  exists h' heap',
    Run_Broadcast message order (h, heap) = Go.Returns (h', heap') /\
    (forall c, c ∈ Clients h' <->
               c ∈ Clients h /\ ~ (c ∈ order /\ Go.full (Send (heap c)) = true)) /\
    (forall c, c ∈ order -> heap' c = broadcast_to message (heap c)) /\
    (forall c, c ∉ order -> heap' c = heap c).
Proof.
  induction order as [|c order IH]; intros h heap Hnodup Hopen.
  { exists h, heap. split; [done|]. split; [|split]; [|by intros ? ?%elem_of_nil|done].
    intros c. split; [|by intros [? _]]. intros Hc. split; [done|].
    by intros [?%elem_of_nil _]. }
  apply NoDup_cons in Hnodup as [Hnotin Hnodup].
  cbn [Run_Broadcast]. unfold Go.select_send, Go.close.
  rewrite (Hopen c) by left.
  destruct (Go.full (Send (heap c))) eqn:Hfull.
  - (* the queue is full: close it, forget the session *)
    set (heap1 := store heap c _).
    destruct (IH (mkHub (Clients h ∖ {[c]})) heap1 Hnodup) as (h' & heap' & Hrun & Hh & Hin & Hout).
    { intros c' Hc'. subst heap1. rewrite store_ne by (intros ->; done).
      apply Hopen. by right. }
    exists h', heap'. split; [exact Hrun|]. split; [|split].
    + intros c'. rewrite Hh. cbn [Clients].
      destruct (decide (c' = c)) as [->|Hne].
      * rewrite elem_of_remove. split; [by intros [[_ ?] _]|].
        intros [_ Hno]. exfalso. apply Hno. split; [left|done].
      * subst heap1. rewrite store_ne by done. rewrite elem_of_cons, elem_of_remove.
        tauto.
    + intros c' Hc'. apply elem_of_cons in Hc' as [->|Hc'].
      * rewrite Hout by done. subst heap1. rewrite store_eq.
        unfold broadcast_to. by rewrite Hfull.
      * rewrite Hin by done. subst heap1. rewrite store_ne by (intros ->; done). done.
    + intros c' Hc'. apply not_elem_of_cons in Hc' as [Hne Hc'].
      rewrite Hout by done. subst heap1. by rewrite store_ne.
  - (* the message is queued *)
    set (heap1 := store heap c _).
    destruct (IH h heap1 Hnodup) as (h' & heap' & Hrun & Hh & Hin & Hout).
    { intros c' Hc'. subst heap1. rewrite store_ne by (intros ->; done).
      apply Hopen. by right. }
    exists h', heap'. split; [exact Hrun|]. split; [|split].
    + intros c'. rewrite Hh.
      destruct (decide (c' = c)) as [->|Hne].
      * split; [intros [? ?]; split; [done|]; intros [_ ?]; congruence|].
        intros [? ?]. split; [done|]. by intros [? _].
      * subst heap1. rewrite store_ne by done. rewrite elem_of_cons.
        split; [intros [? ?]; split; [done|tauto]|].
        intros [? ?]. split; [done|tauto].
    + intros c' Hc'. apply elem_of_cons in Hc' as [->|Hc'].
      * rewrite Hout by done. subst heap1. rewrite store_eq.
        unfold broadcast_to. by rewrite Hfull.
      * rewrite Hin by done. subst heap1. rewrite store_ne by (intros ->; done). done.
    + intros c' Hc'. apply not_elem_of_cons in Hc' as [Hne Hc'].
      rewrite Hout by done. subst heap1. by rewrite store_ne.
Qed.

(** X14: when every registered queue is open, a broadcast visits every
    registered session once, in whatever order, and never panics: the
    message is appended to every queue that has room; a session whose
    queue is full gets nothing, its queue is closed and it leaves the
    active set. Sessions that are not registered are not touched, and
    every session still registered afterwards has an open queue. *)
Theorem broadcast_evicts_the_full_sessions message order h heap :
  hub_open (h, heap) ->
  order ≡ₚ elements (Clients h) ->
  exists h' heap',
    Run_Broadcast message order (h, heap) = Go.Returns (h', heap') /\
    hub_open (h', heap') /\
    (forall c, c ∈ Clients h' <-> c ∈ Clients h /\ Go.full (Send (heap c)) = false) /\
    (forall c, c ∈ Clients h -> heap' c = broadcast_to message (heap c)) /\
    (forall c, c ∉ Clients h -> heap' c = heap c).
Proof.
  intros Hopen Horder.
  assert (Hmem : forall c, c ∈ order <-> c ∈ Clients h).
  { intros c. by rewrite Horder, elem_of_elements. }
  destruct (Run_Broadcast_spec message order h heap) as (h' & heap' & Hrun & Hh & Hin & Hout).
  { rewrite Horder. apply NoDup_elements. }
  { intros c Hc. apply (Hopen c). by apply Hmem. }
  exists h', heap'. split; [exact Hrun|].
  assert (Hh' : forall c, c ∈ Clients h' <-> c ∈ Clients h /\ Go.full (Send (heap c)) = false).
  { intros c. rewrite Hh, Hmem. destruct (Go.full (Send (heap c))); split.
    - intros [? Hno]. exfalso. by apply Hno.
    - by intros [_ ?].
    - by intros [? _].
    - intros [? _]. split; [done|]. by intros [_ ?]. }
  split; [|split; [exact Hh'|split]].
  - intros c Hc. cbn in Hc. apply Hh' in Hc as [Hc Hfull]. cbn [snd].
    rewrite Hin by (by apply Hmem). unfold broadcast_to. rewrite Hfull. cbn.
    apply (Hopen c Hc).
  - intros c Hc. apply Hin. by apply Hmem.
  - intros c Hc. apply Hout. by rewrite Hmem.
Qed.

Lemma broadcast_evicts_the_full_sessions_witness :
  exists h' heap',
    Run_Broadcast (Raw "b") (elements ({[1%nat; 2%nat]} : gset Go.ptr)) two_sessions
    = Go.Returns (h', heap') /\
    (1%nat ∈ Clients h' /\ 2%nat ∉ Clients h') /\
    Go.buf (Send (heap' 1%nat)) = [Raw "b"] /\
    Go.closed (Send (heap' 2%nat)) = true.
Proof.
  assert (Hopen : hub_open (fst two_sessions, snd two_sessions)).
  { intros c _. unfold two_sessions. cbn [fst snd]. by destruct (decide _). }
  assert (Horder : elements ({[1%nat; 2%nat]} : gset Go.ptr)
                   ≡ₚ elements (Clients (fst two_sessions))) by done.
  destruct (broadcast_evicts_the_full_sessions (Raw "b")
              (elements ({[1%nat; 2%nat]} : gset Go.ptr))
              (fst two_sessions) (snd two_sessions) Hopen Horder)
    as (h' & heap' & Hrun & _ & Hh & Hin & _).
  exists h', heap'. split; [exact Hrun|].
  assert (H1 : 1%nat ∈ Clients (fst two_sessions)).
  { cbn. apply elem_of_union_l. by apply elem_of_singleton. }
  assert (H2 : 2%nat ∈ Clients (fst two_sessions)).
  { cbn. apply elem_of_union_r. by apply elem_of_singleton. }
  split; [split|split].
  - apply Hh. by split.
  - intros H. apply Hh in H as [_ H]. discriminate H.
  - by rewrite (Hin 1%nat H1).
  - by rewrite (Hin 2%nat H2).
Defined.

(** ** The write loop of a session *)

Lemma Split_lines_app s t :
  Go.Split_lines (s ++ String Go.newline t) = Go.Split_lines s ++ Go.Split_lines t.
Proof.
  induction s as [|c s IH].
  - change (Go.Split_lines (String Go.newline t) = [EmptyString] ++ Go.Split_lines t).
    cbn [Go.Split_lines app]. rewrite Ascii.eqb_refl.
    destruct (Go.Split_lines t) eqn:Ht; [by apply Split_lines_nonempty in Ht|done].
  - change (Go.Split_lines (String c (s ++ String Go.newline t))
            = Go.Split_lines (String c s) ++ Go.Split_lines t).
    cbn [Go.Split_lines]. rewrite IH.
    destruct (Go.Split_lines s) as [|piece pieces] eqn:Hs;
      [by apply Split_lines_nonempty in Hs|].
    cbn [app]. by destruct (Ascii.eqb c Go.newline).
Qed.

Lemma Split_lines_one s : has_newline s = false -> Go.Split_lines s = [s].
Proof.
  induction s as [|c s IH]; [done|]. cbn [has_newline Go.Split_lines].
  intros H. apply orb_false_iff in H as [Hc Hs]. by rewrite IH, Hc.
Qed.

(** X15: when the write loop wakes up it empties the queue into one text
    message: the frame it received, then every frame still queued, each
    after a newline. When no frame holds a newline, splitting the message
    at the newlines gives the queued frames back, all of them and in the
    order they were queued. A queue that is closed and empty gives a
    close message. *)
Theorem coalesced_write_splits_back bytes_of c :
  (forall m, m ∈ Go.buf (Send c) -> has_newline (bytes_of m) = false) ->
  (Go.buf (Send c) <> [] ->
   exists w,
     writePump_Send bytes_of c
     = Some (TextMessage w,
             mkClient (Go.mkchan [] (Go.cap (Send c)) (Go.closed (Send c)))
                      (Subscriptions c)) /\
     Go.Split_lines w = map bytes_of (Go.buf (Send c))) /\
  (Go.buf (Send c) = [] ->
   writePump_Send bytes_of c
   = if Go.closed (Send c) then Some (CloseMessage, c) else None).
Proof.
  intros Hclean. unfold writePump_Send. split; [|by intros ->].
  destruct (Go.buf (Send c)) as [|message queued]; [done|]. intros _.
  eexists. split; [reflexivity|].
  assert (H : forall acc,
             (forall m, m ∈ queued -> has_newline (bytes_of m) = false) ->
             Go.Split_lines
               (fold_left
                  (fun w m => (w ++ String Go.newline EmptyString ++ bytes_of m)%string)
                  queued acc)
             = Go.Split_lines acc ++ map bytes_of queued).
  { clear. induction queued as [|m queued IH]; intros acc Hq.
    { cbn. by rewrite app_nil_r. }
    cbn [fold_left map]. rewrite IH by (intros; apply Hq; by right).
    change (String Go.newline EmptyString ++ bytes_of m)%string
      with (String Go.newline (bytes_of m)).
    rewrite Split_lines_app, (Split_lines_one (bytes_of m)) by (apply Hq; left).
    by rewrite <- app_assoc. }
  rewrite H by (intros; apply Hclean; by right).
  by rewrite (Split_lines_one (bytes_of message)) by (apply Hclean; left).
Qed.

Lemma coalesced_write_splits_back_witness :
  exists w,
    fst <$> writePump_Send raw_bytes three_queued = Some (TextMessage w) /\
    Go.Split_lines w = ["{1}"; "{2}"; "{3}"]%string.
Proof.
  assert (Hclean : forall m, m ∈ Go.buf (Send three_queued) ->
                             has_newline (raw_bytes m) = false).
  { intros m Hm. cbn in Hm.
    repeat (apply elem_of_cons in Hm as [->|Hm]; [done|]).
    by apply elem_of_nil in Hm. }
  assert (Hne : Go.buf (Send three_queued) <> []) by discriminate.
  destruct (proj1 (coalesced_write_splits_back raw_bytes three_queued Hclean) Hne)
    as (w & Hw & Hsplit).
  exists w. split; [by rewrite Hw|exact Hsplit].
Defined.

End sessions.

(** ** The registry: who a published payload reaches *)

Section delivery.
Import types proxy registry_examples delivery_examples.

Lemma grown_refl data cl : grown data 0 cl cl.
Proof. unfold grown. cbn. rewrite app_nil_r. by destruct cl as [[? ? ?] ?]. Qed.

Lemma grown_trans data n1 n2 cl1 cl2 cl3 :
  grown data n1 cl1 cl2 -> grown data n2 cl2 cl3 -> grown data (n1 + n2) cl1 cl3.
Proof. unfold grown. intros -> ->. cbn. by rewrite repeat_app, app_assoc. Qed.

Lemma grown_enqueue data cl :
  grown data 1 cl (client.mkClient (Go.enqueue (client.Send cl) data)
                                   (client.Subscriptions cl)).
Proof. reflexivity. Qed.

Lemma deliver_grown data key cs : forall (heap : client.Heap) ctr heap' ctr',
  deliver data key cs (heap, ctr) = Some (heap', ctr') ->
  (forall c, exists n, grown data n (heap c) (heap' c)) /\
  (forall c, c ∉ cs -> heap' c = heap c) /\
  (forall c, c ∈ cs -> Go.full (client.Send (heap c)) = false ->
             exists n, grown data (S n) (heap c) (heap' c)).
Proof.
  induction cs as [|c0 cs IH]; intros heap ctr heap' ctr' H.
  { injection H as <- <-. split; [|split]; [|done|by intros ? ?%elem_of_nil].
    intros c. exists 0%nat. apply grown_refl. }
  cbn [deliver] in H.
  destruct (Go.select_send (client.Send (heap c0)) data) as [ch| |] eqn:Hsend; [| |done].
  - apply select_send_Sent in Hsend as (Hopen & Hfull & ->).
    apply IH in H as (H1 & H2 & H3).
    assert (Hc0 : exists n, grown data (S n) (heap c0) (heap' c0)).
    { destruct (H1 c0) as [n Hn]. rewrite heap_store_eq in Hn. exists n.
      apply (grown_trans data 1 n _ _ _ (grown_enqueue data (heap c0)) Hn). }
    split; [|split].
    + intros c. destruct (decide (c = c0)) as [->|Hne].
      * destruct Hc0 as [n Hn]. by exists (S n).
      * destruct (H1 c) as [n Hn]. rewrite heap_store_ne in Hn by done. by exists n.
    + intros c Hc. apply not_elem_of_cons in Hc as [Hne Hc].
      rewrite H2 by done. by rewrite heap_store_ne.
    + intros c Hc Hroom. destruct (decide (c = c0)) as [->|Hne]; [done|].
      apply elem_of_cons in Hc as [->|Hc]; [done|].
      destruct (H3 c Hc) as [n Hn]; [by rewrite heap_store_ne|].
      rewrite heap_store_ne in Hn by done. by exists n.
  - apply select_send_Default in Hsend as (Hopen & Hfull).
    apply IH in H as (H1 & H2 & H3). split; [done|]. split.
    + intros c Hc. apply not_elem_of_cons in Hc as [_ Hc]. by apply H2.
    + intros c Hc Hroom. apply elem_of_cons in Hc as [->|Hc]; [congruence|].
      by apply H3.
Qed.

Lemma forward_loop_grown E channel data entries :
  forall m (heap : client.Heap) ctr m' heap' ctr',
  forward_loop E channel data entries (m, heap, ctr) = Some (m', heap', ctr') ->
  (forall c, exists n, grown data n (heap c) (heap' c)) /\
  (forall c,
      (forall key info, (key, info) ∈ entries ->
                        SubscriptionRequest.Type_ (Subscription info) = channel ->
                        c ∉ Clients info) ->
      heap' c = heap c) /\
  (forall c key info,
      (key, info) ∈ entries ->
      SubscriptionRequest.Type_ (Subscription info) = channel ->
      c ∈ Clients info ->
      Go.full (client.Send (heap c)) = false ->
      exists n, grown data (S n) (heap c) (heap' c)).
Proof.
  induction entries as [|[key0 info0] entries IH]; intros m heap ctr m' heap' ctr' H.
  { injection H as <- <- <-. split; [|split]; [|done|by intros ? ? ? ?%elem_of_nil].
    intros c. exists 0%nat. apply grown_refl. }
  cbn [forward_loop] in H.
  destruct (String.eqb_spec (SubscriptionRequest.Type_ (Subscription info0)) channel)
    as [Htype|Htype].
  - destruct (deliver data key0 (range_clients (order E) (Clients info0)) (heap, ctr))
      as [[heap1 ctr1]|] eqn:Hdeliver; [|done].
    apply deliver_grown in Hdeliver as (D1 & D2 & D3).
    apply IH in H as (H1 & H2 & H3).
    assert (Hmem : forall c, c ∈ range_clients (order E) (Clients info0)
                             <-> c ∈ Clients info0).
    { intros c. by rewrite (range_clients_perm (order E)), elem_of_elements. }
    assert (Hmono : forall c k, grown data k (heap c) (heap1 c) ->
                                exists n, grown data (k + n) (heap c) (heap' c)).
    { intros c k Hk. destruct (H1 c) as [n Hn]. exists n.
      by apply (grown_trans data k n _ _ _ Hk Hn). }
    split; [|split].
    + intros c. destruct (D1 c) as [k Hk]. destruct (Hmono c k Hk) as [n Hn]. by eexists.
    + intros c Hc. rewrite H2.
      * apply D2. rewrite Hmem. apply (Hc key0 info0); [left|done].
      * intros key info Hin. apply (Hc key). by right.
    + intros c key info Hin Hinfo Hc Hroom.
      destruct (decide (c ∈ Clients info0)) as [Hc0|Hc0].
      * destruct (D3 c) as [k Hk]; [by apply Hmem|done|].
        destruct (Hmono c (S k) Hk) as [n Hn]. by exists (k + n)%nat.
      * apply elem_of_cons in Hin as [[= -> ->]|Hin]; [done|].
        assert (Hsame : heap1 c = heap c) by (apply D2; by rewrite Hmem).
        destruct (H3 c key info Hin Hinfo Hc) as [n Hn]; [by rewrite Hsame|].
        rewrite Hsame in Hn. by exists n.
  - apply IH in H as (H1 & H2 & H3). split; [done|]. split.
    + intros c Hc. apply H2. intros key info Hin. apply (Hc key). by right.
    + intros c key info Hin Hinfo Hc Hroom.
      apply elem_of_cons in Hin as [[= -> ->]|Hin]; [done|]. by eapply H3.
Qed.

(** X16: a publish on a channel type reaches the sessions of every entry
    of that type, and no other session. The payload is compared with
    nothing but the type of the subscription: a session in an entry of the
    type whose queue has room gets at least one copy, whatever the coin or
    the user of its subscription. A queue only ever grows by copies of the
    payload, its frames already queued stay in order, and the
    subscriptions of the sessions are not touched. *)
Theorem publish_reaches_every_session_of_the_type E channel data p p' :
  forwardMessageToClients E channel data p = Go.Returns p' ->
  (forall c, ~ receives channel c (globalSubscriptions p) -> heap p' c = heap p c) /\
  (forall c, exists n, grown data n (heap p c) (heap p' c)) /\
  (forall c, receives channel c (globalSubscriptions p) ->
             Go.full (client.Send (heap p c)) = false ->
             exists n, grown data (S n) (heap p c) (heap p' c)).
Proof.
  unfold forwardMessageToClients.
  destruct (forward_loop _ _ _ _ _) as [[[m heap'] ctr]|] eqn:Hloop; [|done].
  intros [= <-]. cbn [heap set_heap].
  apply forward_loop_grown in Hloop as (H1 & H2 & H3).
  split; [|split; [exact H1|]].
  - intros c Hc. apply H2. intros key info Hin Htype Hmem. apply Hc.
    exists key, info. by rewrite <- elem_of_range_subs.
  - intros c (key & info & Hkey & Htype & Hmem) Hroom.
    apply (H3 c key info); [|done..]. by apply elem_of_range_subs.
Qed.

Lemma publish_reaches_every_session_of_the_type_witness :
  SubscriptionRequest.Coin sub_trades_BTC = "BTC"%string /\
  WsTrade.Coin trade_ETH = "ETH"%string /\
  exists n, grown (Trades trade_ETH) (S n) (heap btc_subscriber 1%nat)
                  (heap after_trade_ETH 1%nat).
Proof.
  split; [done|]. split; [done|].
  assert (Hrun : forwardMessageToClients E "trades" (Trades trade_ETH) btc_subscriber
                 = Go.Returns after_trade_ETH).
  { apply returns_default. by vm_compute. }
  pose proof (publish_reaches_every_session_of_the_type E "trades" (Trades trade_ETH)
                btc_subscriber after_trade_ETH Hrun) as (_ & _ & H).
  apply H; [|by vm_compute].
  exists "trades-BTC"%string.
  exists (mkSubscriptionInfo sub_trades_BTC {[1%nat]} None 1700000000).
  split; [by vm_compute|]. split; [done|]. cbn [Clients]. by apply elem_of_singleton.
Defined.

Lemma forward_loop_no_match E channel data entries st :
  (forall key info, (key, info) ∈ entries ->
                    SubscriptionRequest.Type_ (Subscription info) <> channel) ->
  forward_loop E channel data entries st = Some st.
Proof.
  induction entries as [|[key info] entries IH]; intros H; [done|].
  cbn [forward_loop]. destruct st as [[m heap] ctr].
  destruct (String.eqb_spec (SubscriptionRequest.Type_ (Subscription info)) channel)
    as [Htype|Htype].
  - exfalso. by apply (H key info); [left|].
  - apply IH. intros key' info' Hin. apply (H key'). by right.
Qed.

(** X17: a publish on a channel type that no entry of the registry has is
    a no-op: the registry, the queues and everything else are left as
    they were. *)
Theorem publish_without_entries_changes_nothing E channel data p :
  (forall key info, globalSubscriptions p !! key = Some info ->
                    SubscriptionRequest.Type_ (Subscription info) <> channel) ->
  forwardMessageToClients E channel data p = Go.Returns p.
Proof.
  intros Hnone. unfold forwardMessageToClients.
  rewrite forward_loop_no_match.
  - assert (Hnil : range_removals (order E) ∅ = []).
    { apply Permutation_nil_r. rewrite (range_removals_perm (order E)).
      by rewrite map_to_list_empty. }
    rewrite Hnil. by destruct p.
  - intros key info Hin. apply (Hnone key). by apply elem_of_range_subs in Hin.
Qed.

Lemma publish_without_entries_changes_nothing_witness :
  forwardMessageToClients E "allMids" (Raw "mids") btc_subscriber
  = Go.Returns btc_subscriber.
Proof.
  apply publish_without_entries_changes_nothing.
  intros key info Hkey.
  destruct (decide (key = "trades-BTC"%string)) as [->|Hne].
  - assert (Hinfo : globalSubscriptions btc_subscriber !! "trades-BTC"%string
                    = Some (mkSubscriptionInfo sub_trades_BTC {[1%nat]} None 1700000000))
      by (by vm_compute).
    rewrite Hinfo in Hkey. by injection Hkey as <-.
  - assert (Hreg : globalSubscriptions btc_subscriber
                   = <["trades-BTC"%string :=
                         mkSubscriptionInfo sub_trades_BTC {[1%nat]} None 1700000000]> ∅)
      by (by vm_compute).
    rewrite Hreg, lookup_insert_ne, lookup_empty in Hkey by done. done.
Defined.

End delivery.

(** ** The registry: who is subscribed after a run of requests *)

Section membership.
Import types proxy registry_examples delivery_examples.

Lemma sessions_of_subscribe E c sub p p' :
  state_after (handleSubscribe E c (Some sub) p) = Some p' ->
  sessions_of (globalSubscriptions p') (createSubscriptionKey sub)
    = {[c]} ∪ sessions_of (globalSubscriptions p) (createSubscriptionKey sub) /\
  globalSubscriptions p' !! createSubscriptionKey sub <> None /\
  (forall k, k <> createSubscriptionKey sub ->
             globalSubscriptions p' !! k = globalSubscriptions p !! k).
Proof.
  intros H. apply handleSubscribe_registry in H. cbv zeta in H. rewrite H.
  unfold sessions_of. rewrite lookup_insert_eq. cbn [Clients]. split; [|split].
  - by destruct (globalSubscriptions p !! createSubscriptionKey sub).
  - done.
  - intros k Hk. by rewrite lookup_insert_ne.
Qed.

Lemma sessions_of_unsubscribe E c sub p p' :
  state_after (handleUnsubscribe E c (Some sub) p) = Some p' ->
  sessions_of (globalSubscriptions p') (createSubscriptionKey sub)
    = sessions_of (globalSubscriptions p) (createSubscriptionKey sub) ∖ {[c]} /\
  (globalSubscriptions p' !! createSubscriptionKey sub = None <->
   sessions_of (globalSubscriptions p) (createSubscriptionKey sub) ∖ {[c]} = ∅) /\
  (forall k, k <> createSubscriptionKey sub ->
             globalSubscriptions p' !! k = globalSubscriptions p !! k).
Proof.
  intros H. apply handleUnsubscribe_registry in H. rewrite H. clear H.
  unfold sessions_of.
  destruct (globalSubscriptions p !! createSubscriptionKey sub) as [info|] eqn:Hkey.
  - unfold remove_client. cbn [Clients].
    destruct (size (Clients info ∖ {[c]}) =? 0)%nat eqn:Hsize.
    + apply Nat.eqb_eq, size_empty_iff in Hsize. apply leibniz_equiv in Hsize.
      rewrite lookup_delete_eq. split; [done|]. split; [done|].
      intros k Hk. by rewrite lookup_delete_ne.
    + apply Nat.eqb_neq in Hsize. rewrite lookup_insert_eq. cbn [Clients].
      split; [done|]. split.
      * split; [done|]. intros Hempty. rewrite Hempty, size_empty in Hsize. done.
      * intros k Hk. by rewrite lookup_insert_ne.
  - rewrite Hkey. split; [by rewrite difference_disjoint_L|].
    split; [|done]. split; [|done]. intros _. apply leibniz_equiv.
    apply elem_of_equiv_empty. intros x. rewrite elem_of_difference.
    intros [Hx _]. by apply elem_of_empty in Hx.
Qed.

(** X18: after the gateway has served a run of subscribe and unsubscribe
    requests about one subscription, the sessions of its entry are those
    whose last request was a subscribe, together with the sessions that
    were in the entry before and sent no request; the entry is absent
    exactly when that set is empty, and no other entry of the registry
    has changed. *)
Theorem entry_holds_the_sessions_whose_last_request_was_subscribe sub rs : forall p p',
  no_empty_entry (globalSubscriptions p) ->
  serve_all sub rs p = Some p' ->
  (forall c,
      c ∈ sessions_of (globalSubscriptions p') (createSubscriptionKey sub) <->
      match last_request c rs with
      | Some b => b = true
      | None => c ∈ sessions_of (globalSubscriptions p) (createSubscriptionKey sub)
      end) /\
  (globalSubscriptions p' !! createSubscriptionKey sub = None <->
   sessions_of (globalSubscriptions p') (createSubscriptionKey sub) = ∅) /\
  (forall k, k <> createSubscriptionKey sub ->
             globalSubscriptions p' !! k = globalSubscriptions p !! k).
Proof.
  set (key := createSubscriptionKey sub).
  assert (Hentry : forall m : gmap string SubscriptionInfo,
             (m !! key = None <-> sessions_of m key = ∅) <->
             (forall info, m !! key = Some info -> Clients info <> ∅)).
  { intros m. unfold sessions_of. destruct (m !! key) as [info|].
    - split.
      + intros [_ H] info' [= <-] Hempty. by specialize (H Hempty).
      + intros H. split; [done|]. intros Hempty. by destruct (H info eq_refl).
    - split; [done|]. by intros _. }
  induction rs as [|[E r] rs IH]; intros p p' Hne Hserve.
  { injection Hserve as <-. split; [done|]. split; [|done].
    apply Hentry. intros info. apply Hne. }
  cbn [serve_all] in Hserve.
  destruct (serve sub p (E, r)) as [p1|] eqn:Hp1; [|done].
  assert (Hne1 : no_empty_entry (globalSubscriptions p1)).
  { unfold serve in Hp1. cbn [fst snd] in Hp1. destruct r as [c|c].
    - apply handleSubscribe_registry in Hp1. cbv zeta in Hp1. rewrite Hp1.
      apply no_empty_entry_insert; [|done]. cbn [Clients].
      intros Hempty. apply (elem_of_empty (C := gset Go.ptr) c).
      rewrite <- Hempty. apply elem_of_union_l. by apply elem_of_singleton.
    - apply handleUnsubscribe_registry in Hp1. rewrite Hp1.
      destruct (globalSubscriptions p !! createSubscriptionKey sub); [|done].
      by apply no_empty_entry_remove_client. }
  destruct (IH p1 p' Hne1 Hserve) as (Hmem & Hnone & Hother).
  split; [|split; [exact Hnone|]].
  - intros c. rewrite Hmem. cbn [last_request snd].
    destruct (last_request c rs) as [b|]; [done|].
    unfold serve in Hp1. cbn [fst snd] in Hp1. destruct r as [c'|c'].
    + apply sessions_of_subscribe in Hp1 as (Hs & _ & _). fold key in Hs. rewrite Hs.
      rewrite elem_of_union, elem_of_singleton.
      destruct (decide (c' = c)) as [->|Hc]; [by split; [|left]|].
      split; [by intros [->|?]|by right].
    + apply sessions_of_unsubscribe in Hp1 as (Hs & _ & _). fold key in Hs. rewrite Hs.
      rewrite elem_of_difference, elem_of_singleton.
      destruct (decide (c' = c)) as [->|Hc]; [by split; [intros [_ ?]|]|].
      split; [by intros [? _]|]. intros ?. split; [done|]. by intros ->.
  - intros k Hk. rewrite Hother by done.
    unfold serve in Hp1. cbn [fst snd] in Hp1. destruct r as [c|c].
    + apply sessions_of_subscribe in Hp1 as (_ & _ & H). by apply H.
    + apply sessions_of_unsubscribe in Hp1 as (_ & _ & H). by apply H.
Qed.

Lemma entry_holds_the_sessions_whose_last_request_was_subscribe_witness :
  sessions_of (globalSubscriptions after_four) "trades-ETH" = {[1%nat; 3%nat]} /\
  (2%nat ∈ sessions_of (globalSubscriptions after_four)
                       (createSubscriptionKey sub_trades_ETH) <-> false = true).
Proof.
  assert (Hne : no_empty_entry (globalSubscriptions local)).
  { intros key info H. cbn in H. by rewrite lookup_empty in H. }
  assert (Hserve : serve_all sub_trades_ETH four_requests local = Some after_four).
  { unfold after_four.
    assert (H : is_Some (serve_all sub_trades_ETH four_requests local)).
    { assert (Hb : match serve_all sub_trades_ETH four_requests local with
                   | Some _ => true
                   | None => false
                   end = true) by (by vm_compute).
      destruct (serve_all sub_trades_ETH four_requests local); [by eexists|done]. }
    by destruct H as [q ->]. }
  pose proof (entry_holds_the_sessions_whose_last_request_was_subscribe sub_trades_ETH
                four_requests local after_four Hne Hserve) as (Hmem & _ & _).
  split; [by vm_compute|].
  exact (Hmem 2%nat).
Defined.

End membership.

(** ** The registry and the subscriptions the sessions hold *)

Section consistency.
Import types proxy registry_examples delivery_examples publish_examples.

Lemma on_client_subscriptions c f p p' :
  (forall cl v, f cl = Go.Returns v \/ f cl = Go.Blocks v ->
                client.Subscriptions v = client.Subscriptions cl) ->
  state_after (on_client c f p) = Some p' ->
  forall c', client.Subscriptions (heap p' c') = client.Subscriptions (heap p c').
Proof.
  intros Hf. unfold on_client.
  destruct (f (heap p c)) as [v| |v] eqn:Hv; cbn; intros [= <-] c'; cbn;
    unfold client.store; (destruct (decide (c' = c)) as [->|]; [|done]);
    apply Hf; auto.
Qed.

Lemma SendMessage_subscriptions message cl v :
  client.SendMessage message cl = Go.Returns v \/ client.SendMessage message cl = Go.Blocks v ->
  client.Subscriptions v = client.Subscriptions cl.
Proof.
  unfold client.SendMessage. destruct (Go.select_send _ _); intros [H|H]; try done;
    by injection H as <-.
Qed.

Lemma blocking_send_subscriptions message cl v :
  client.blocking_send message cl = Go.Returns v \/
  client.blocking_send message cl = Go.Blocks v ->
  client.Subscriptions v = client.Subscriptions cl.
Proof.
  unfold client.blocking_send. destruct (Go.closed _); [by intros [|]|].
  destruct (Go.full _); intros [H|H]; try done; by injection H as <-.
Qed.

Lemma send_subscriptions c message p p' :
  state_after (on_client c (client.SendMessage message) p) = Some p' ->
  forall c', client.Subscriptions (heap p' c') = client.Subscriptions (heap p c').
Proof. apply on_client_subscriptions, SendMessage_subscriptions. Qed.

Lemma blocking_sends_subscriptions {A} c (g : A -> frame) (frames : list A) :
  forall acc p',
  state_after
    (fold_left
       (fun acc a => Go.and_then acc (on_client c (client.blocking_send (g a))))
       frames acc) = Some p' ->
  exists p0, state_after acc = Some p0 /\
             forall c', client.Subscriptions (heap p' c') = client.Subscriptions (heap p0 c').
Proof.
  induction frames as [|message frames IH]; intros acc p' H; cbn in H.
  - by exists p'.
  - apply IH in H as (p1 & H1 & Hp1).
    apply state_after_and_then in H1 as [(p0 & -> & H1)| ->].
    + exists p0. split; [done|]. intros c'. rewrite Hp1.
      revert c'. eapply on_client_subscriptions; [|exact H1].
      apply blocking_send_subscriptions.
    + by exists p1.
Qed.

Lemma sendInitialLocalNodeData_subscriptions r c sub p p' :
  state_after (sendInitialLocalNodeData r c sub p) = Some p' ->
  forall c', client.Subscriptions (heap p' c') = client.Subscriptions (heap p c').
Proof.
  unfold sendInitialLocalNodeData.
  destruct (String.eqb (SubscriptionRequest.Type_ sub) "allMids").
  { destruct (0 <? size (allPrices r))%nat; [apply send_subscriptions|by intros [= <-]]. }
  destruct (String.eqb (SubscriptionRequest.Type_ sub) "trades"); [|by intros [= <-]].
  destruct (negb (String.eqb (SubscriptionRequest.Coin sub) EmptyString));
    [|by intros [= <-]].
  intros H. by apply (blocking_sends_subscriptions c Trades) in H as (p0 & [= <-] & H).
Qed.

Lemma handleSubscribe_subscriptions E c sub p p' :
  state_after (handleSubscribe E c (Some sub) p) = Some p' ->
  forall c',
    client.Subscriptions (heap p' c')
    = if decide (c' = c)
      then <[createSubscriptionKey sub := sub]> (client.Subscriptions (heap p c))
      else client.Subscriptions (heap p c').
Proof.
  unfold handleSubscribe.
  set (key := createSubscriptionKey sub).
  assert (Hrest : forall (subInfo : SubscriptionInfo) (q : Proxy) q',
    state_after
      (Go.and_then
         (on_client c (client.SendMessage (SubscriptionResponse "subscribe" sub)) q)
         (fun p =>
            match useLocalNode p, localNodeReader p with
            | true, Some r => sendInitialLocalNodeData r c sub p
            | _, _ =>
                match LastMessage subInfo with
                | Some lastMessage => on_client c (client.blocking_send lastMessage) p
                | None => Go.Returns p
                end
            end)) = Some q' ->
    forall c', client.Subscriptions (heap q' c') = client.Subscriptions (heap q c')).
  { intros subInfo q q' H c'.
    apply state_after_and_then in H as [(q1 & H1 & H2)|H1].
    - assert (Hq1 : forall c', client.Subscriptions (heap q1 c')
                               = client.Subscriptions (heap q c')).
      { apply (send_subscriptions c (SubscriptionResponse "subscribe" sub)).
        by rewrite H1. }
      rewrite <- Hq1. revert c'.
      destruct (useLocalNode q1), (localNodeReader q1) as [r|];
        try (by eapply sendInitialLocalNodeData_subscriptions);
        (destruct (LastMessage subInfo);
         [eapply on_client_subscriptions; [apply blocking_send_subscriptions|exact H2]
         |by injection H2 as <-]).
    - apply (send_subscriptions c (SubscriptionResponse "subscribe" sub)).
      by rewrite H1. }
  assert (Hstore : forall (h : client.Heap) c',
    client.Subscriptions (client.store h c (client.AddSubscription key sub (h c)) c')
    = if decide (c' = c) then <[key := sub]> (client.Subscriptions (h c))
      else client.Subscriptions (h c')).
  { intros h c'. unfold client.store. by destruct (decide (c' = c)). }
  destruct (globalSubscriptions p !! key) as [subInfo|] eqn:Hkey.
  - intros H c'. eapply Hrest in H. rewrite H.
    cbn [heap set_heap set_globalSubscriptions]. apply Hstore.
  - destruct (negb (useLocalNode _) && bool_decide (hlConnector _ <> None));
      intros H c'; eapply Hrest in H; rewrite H;
      cbn [heap set_heap set_globalSubscriptions set_goroutines]; apply Hstore.
Qed.

Lemma handleUnsubscribe_subscriptions E c sub p p' :
  state_after (handleUnsubscribe E c (Some sub) p) = Some p' ->
  forall c',
    client.Subscriptions (heap p' c')
    = if decide (c' = c)
      then delete (createSubscriptionKey sub) (client.Subscriptions (heap p c))
      else client.Subscriptions (heap p c').
Proof.
  unfold handleUnsubscribe.
  set (key := createSubscriptionKey sub).
  assert (Hstore : forall (h : client.Heap) c',
    client.Subscriptions (client.store h c (client.RemoveSubscription key (h c)) c')
    = if decide (c' = c) then delete key (client.Subscriptions (h c))
      else client.Subscriptions (h c')).
  { intros h c'. unfold client.store. by destruct (decide (c' = c)). }
  destruct (globalSubscriptions p !! key) as [subInfo|] eqn:Hkey.
  - destruct ((size (Clients subInfo ∖ {[c]}) =? 0)%nat && _ && _);
      intros H c'; eapply send_subscriptions in H; rewrite H;
      cbn [heap set_heap set_globalSubscriptions set_goroutines]; apply Hstore.
  - intros H c'. eapply send_subscriptions in H. rewrite H.
    cbn [heap set_heap set_globalSubscriptions set_goroutines]. apply Hstore.
Qed.

Lemma handlePostRequest_subscriptions E c msg p p' :
  state_after (handlePostRequest E c msg p) = Some p' ->
  forall c', client.Subscriptions (heap p' c') = client.Subscriptions (heap p c').
Proof.
  unfold handlePostRequest, sendPostErrorToClient, sendErrorToClient.
  destruct (WSMessage.Request msg) as [request|], (WSMessage.ID msg) as [id|];
    try (by apply send_subscriptions).
  destruct (useLocalNode p); [by apply send_subscriptions|].
  destruct (hlConnector p) as [connector|]; [|by apply send_subscriptions].
  destruct (hyperliquid.PostRequest _ _ _ _ connector) as [connector' result].
  destruct (hyperliquid.err result), (hyperliquid.response result);
    try (intros H c'; eapply send_subscriptions in H; by rewrite H).
  by intros [= <-].
Qed.

Lemma run_goroutine_subscriptions E g p p' :
  state_after (run_goroutine E g p) = Some p' ->
  forall c', client.Subscriptions (heap p' c') = client.Subscriptions (heap p c').
Proof.
  unfold run_goroutine. destruct (hlConnector p) as [connector|]; [|by intros [= <-]].
  destruct g as [c sub key|sub].
  - destruct (hyperliquid.Subscribe (upstream_queue E) sub connector)
      as [connector' [e|]]; [|by intros [= <-]].
    intros H. apply state_after_and_then in H as [(p1 & H1 & H2)|H1].
    + injection H2 as <-. cbn [heap set_globalSubscriptions].
      apply (send_subscriptions c (ErrorReply ("Failed to subscribe: " ++ e) (time_Now E))
               (set_hlConnector (Some connector') p)).
      unfold sendErrorToClient in H1. by rewrite H1.
    + apply (send_subscriptions c (ErrorReply ("Failed to subscribe: " ++ e) (time_Now E))
               (set_hlConnector (Some connector') p)).
      unfold sendErrorToClient in H1. by rewrite H1.
  - destruct (hyperliquid.Unsubscribe _ sub connector) as [connector' e].
    by intros [= <-].
Qed.

(** *** The handlers, section by section *)

(** [handleSubscribe] is its locked section, the update of the
    subscription set and the sends, in this order; [handleUnsubscribe]
    likewise. *)
Lemma handleSubscribe_sections E c sub p :
  handleSubscribe E c (Some sub) p
  = handleSubscribe_sends c sub (fst (handleSubscribe_locked E c sub p))
      (AddSubscription c sub (snd (handleSubscribe_locked E c sub p))).
Proof.
  unfold handleSubscribe, handleSubscribe_locked, handleSubscribe_sends, AddSubscription.
  destruct (globalSubscriptions p !! createSubscriptionKey sub) as [subInfo|];
    [reflexivity|].
  by destruct (negb _ && _).
Qed.

Lemma handleUnsubscribe_sections E c sub p :
  handleUnsubscribe E c (Some sub) p
  = on_client c (client.SendMessage (SubscriptionResponse "unsubscribe" sub))
      (RemoveSubscription c sub (handleUnsubscribe_locked c sub p)).
Proof.
  unfold handleUnsubscribe, handleUnsubscribe_locked, RemoveSubscription.
  destruct (globalSubscriptions p !! createSubscriptionKey sub) as [subInfo|];
    [|reflexivity].
  by destruct (_ && _).
Qed.

Lemma handleSubscribe_locked_spec E c sub p :
  let info0 :=
    default (mkSubscriptionInfo sub ∅ None (time_Now E))
            (globalSubscriptions p !! createSubscriptionKey sub) in
  globalSubscriptions (snd (handleSubscribe_locked E c sub p))
  = <[createSubscriptionKey sub :=
        mkSubscriptionInfo (Subscription info0) ({[c]} ∪ Clients info0)
                           (LastMessage info0) (LastUpdate info0)]>
      (globalSubscriptions p) /\
  heap (snd (handleSubscribe_locked E c sub p)) = heap p.
Proof.
  unfold handleSubscribe_locked.
  destruct (globalSubscriptions p !! createSubscriptionKey sub) as [subInfo|];
    [done|].
  destruct (negb _ && _); cbn; by rewrite insert_insert_eq.
Qed.

Lemma handleUnsubscribe_locked_spec c sub p :
  globalSubscriptions (handleUnsubscribe_locked c sub p)
  = cleanup_key c (globalSubscriptions p) (createSubscriptionKey sub) /\
  heap (handleUnsubscribe_locked c sub p) = heap p.
Proof.
  unfold handleUnsubscribe_locked, cleanup_key.
  destruct (globalSubscriptions p !! createSubscriptionKey sub) as [subInfo|];
    [|done].
  by destruct (_ && _).
Qed.

Lemma sessions_of_insert key info (m : gmap string SubscriptionInfo) k :
  sessions_of (<[key := info]> m) k
  = if decide (k = key) then Clients info else sessions_of m k.
Proof.
  unfold sessions_of. destruct (decide (k = key)) as [->|Hne].
  - by rewrite lookup_insert_eq.
  - by rewrite lookup_insert_ne.
Qed.

Lemma sessions_of_delete key (m : gmap string SubscriptionInfo) k :
  sessions_of (delete key m) k ⊆ sessions_of m k.
Proof.
  unfold sessions_of. destruct (decide (k = key)) as [->|Hne].
  - rewrite lookup_delete_eq. apply empty_subseteq.
  - by rewrite lookup_delete_ne.
Qed.

(** A publish among the other goroutines takes sessions out of entries and
    puts none in; it writes no subscription set. *)
Lemma deliver_among_subscriptions env data key cs :
  (forall n heap c, client.Subscriptions (env n heap c) = client.Subscriptions (heap c)) ->
  forall n (heap : client.Heap) ctr seen n' heap' ctr' seen',
  deliver_among env data key cs (n, heap, ctr, seen) = Some (n', heap', ctr', seen') ->
  forall c, client.Subscriptions (heap' c) = client.Subscriptions (heap c).
Proof.
  intros Henv. induction cs as [|c0 cs IH]; intros n heap ctr seen n' heap' ctr' seen' H c.
  - by injection H as <- <- <- <-.
  - cbn [deliver_among] in H. cbv zeta in H.
    destruct (Go.select_send (client.Send (env n heap c0)) data) as [ch| |]; [| |done].
    + apply IH with (c := c) in H. rewrite H. unfold client.store.
      destruct (decide (c = c0)) as [->|]; cbn; apply Henv.
    + apply IH with (c := c) in H. rewrite H. apply Henv.
Qed.

Lemma forward_loop_among_subscriptions E env channel data entries :
  (forall n heap c, client.Subscriptions (env n heap c) = client.Subscriptions (heap c)) ->
  forall m n (heap : client.Heap) ctr seen m' n' heap' ctr' seen',
  forward_loop_among E env channel data entries (m, (n, heap, ctr, seen))
  = Some (m', (n', heap', ctr', seen')) ->
  forall c, client.Subscriptions (heap' c) = client.Subscriptions (heap c).
Proof.
  intros Henv. induction entries as [|[key subInfo] entries IH];
    intros m n heap ctr seen m' n' heap' ctr' seen' H c.
  - by injection H as <- <- <- <- <-.
  - cbn [forward_loop_among] in H. destruct (String.eqb _ channel); [|by eapply IH].
    destruct (deliver_among env data key _ (n, heap, ctr, seen))
      as [[[[n1 heap1] ctr1] seen1]|] eqn:Hdel; [|done].
    apply IH with (c := c) in H. rewrite H.
    by eapply deliver_among_subscriptions.
Qed.

Lemma forwardMessageToClients_among_shrinks E env channel data p p' seen :
  (forall n heap c, client.Subscriptions (env n heap c) = client.Subscriptions (heap c)) ->
  forwardMessageToClients_among E env channel data p = Go.Returns (p', seen) ->
  (forall key, sessions_of (globalSubscriptions p') key
               ⊆ sessions_of (globalSubscriptions p) key) /\
  (forall c, client.Subscriptions (heap p' c) = client.Subscriptions (heap p c)).
Proof.
  intros Henv Hret. unfold forwardMessageToClients_among in Hret.
  destruct (forward_loop_among E env channel data
              (range_subs (order E) (globalSubscriptions p))
              (globalSubscriptions p, (O, heap p, ∅, [])))
    as [[m1 [[[n1 heap1] ctr1] seen1]]|] eqn:Hloop; [|done].
  injection Hret as <- <-. cbn [globalSubscriptions heap set_heap set_globalSubscriptions].
  split; [|by eapply forward_loop_among_subscriptions].
  apply forward_loop_among_spec in Hloop as (new & _ & _ & _ & _ & Hm).
  intros key c Hin. apply sessions_of_cleanup in Hin as [Hin _].
  destruct (Hm key) as [Hk|(s & Hs & _ & Hk)].
  - unfold sessions_of in *. by rewrite <- Hk.
  - apply elem_of_range_subs in Hs. unfold sessions_of in *.
    rewrite Hk in Hin. by rewrite Hs.
Qed.

(** Every section keeps the registry and the subscription sets
    consistent. *)
Lemma section_step_consistent st st' :
  consistent st -> section_step st st' -> consistent st'.
Proof.
  intros [Hheld Hleft] Hstep.
  destruct Hstep as [E c sub p|c sub p|c sub p|c sub p
                    |E env channel data p p' seen ph Henv Hret|key p ph
                    |p p' ph Hreg Hsubs];
    cbn [fst snd] in *.
  - destruct (handleSubscribe_locked_spec E c sub p) as [Hreg Hheap].
    cbv zeta in Hreg. split; cbn [fst snd]; [|by intros c' sub' [=]].
    intros key x. rewrite Hreg, Hheap, sessions_of_insert. cbn [Clients].
    destruct (decide (key = createSubscriptionKey sub)) as [->|Hne].
    + rewrite elem_of_union, elem_of_singleton. intros [->|Hx].
      * right. by exists sub.
      * left. destruct (Hheld (createSubscriptionKey sub) x) as [Hsome|(s & [=] & _)];
          [|done].
        unfold sessions_of.
        by destruct (globalSubscriptions p !! createSubscriptionKey sub).
    + intros Hx. left. by destruct (Hheld key x Hx) as [Hsome|(s & [=] & _)].
  - split; cbn [fst snd]; [|by intros c' sub' [=]].
    intros key x Hx. left. unfold AddSubscription. cbn [heap set_heap].
    unfold client.store.
    destruct (Hheld key x Hx) as [Hsome|(s & [= -> ->] & <-)].
    + destruct (decide (x = c)) as [->|]; [|done]. cbn.
      destruct (decide (key = createSubscriptionKey sub)) as [->|Hne].
      * by rewrite lookup_insert_eq.
      * by rewrite lookup_insert_ne.
    + rewrite decide_True by done. cbn. by rewrite lookup_insert_eq.
  - destruct (handleUnsubscribe_locked_spec c sub p) as [Hreg Hheap].
    split; cbn [fst snd].
    + intros key x. rewrite Hreg, Hheap. intros Hx.
      apply sessions_of_cleanup_key in Hx as [Hx _].
      left. by destruct (Hheld key x Hx) as [Hsome|(s & [=] & _)].
    + intros c' sub' [= -> ->]. rewrite Hreg. intros Hx.
      apply sessions_of_cleanup_key in Hx as [_ Hx]. by apply Hx.
  - split; cbn [fst snd]; [|by intros c' sub' [=]].
    intros key x Hx. left. unfold RemoveSubscription. cbn [heap set_heap].
    unfold client.store.
    destruct (Hheld key x Hx) as [Hsome|(s & [=] & _)].
    destruct (decide (x = c)) as [->|]; [|done]. cbn.
    rewrite lookup_delete_ne; [done|].
    intros <-. by apply (Hleft c sub eq_refl).
  - destruct (forwardMessageToClients_among_shrinks E env channel data p p' seen Henv Hret)
      as [Hshrink Hsubs].
    split; cbn [fst snd].
    + intros key x Hx. rewrite Hsubs. apply Hheld. by apply Hshrink.
    + intros c sub Hph Hx. apply (Hleft c sub Hph). by apply Hshrink.
  - split; cbn [fst snd globalSubscriptions set_globalSubscriptions heap].
    + intros k x Hx. apply Hheld. by apply sessions_of_delete in Hx.
    + intros c sub Hph Hx. apply (Hleft c sub Hph). by apply sessions_of_delete in Hx.
  - split; cbn [fst snd].
    + intros key x. rewrite Hreg, Hsubs. apply Hheld.
    + intros c sub Hph. rewrite Hreg. by apply Hleft.
Qed.

(** Every action of the gateway, taken as a whole, is a run of sections
    from one request to the next. *)
Lemma section_run_trans st0 st1 st2 :
  section_run st0 st1 -> section_run st1 st2 -> section_run st0 st2.
Proof.
  intros H1 H2. induction H2 as [|st st' _ IH Hstep]; [done|].
  by eapply section_run_step.
Qed.

Lemma section_run_elsewhere p p' ph :
  globalSubscriptions p' = globalSubscriptions p ->
  (forall c, client.Subscriptions (heap p' c) = client.Subscriptions (heap p c)) ->
  section_run (p, ph) (p', ph).
Proof.
  intros Hreg Hsubs. eapply section_run_step; [apply section_run_start|].
  by apply section_elsewhere.
Qed.

Lemma forwardMessageToClients_section E channel data p p' ph :
  state_after (forwardMessageToClients E channel data p) = Some p' ->
  section_run (p, ph) (p', ph).
Proof.
  rewrite forwardMessageToClients_alone. intros H.
  destruct (forwardMessageToClients_among E no_interference channel data p)
    as [[q seen]| |[q seen]] eqn:Hrun; [|done|].
  - injection H as ->. eapply section_run_step; [apply section_run_start|].
    by eapply (section_publish E no_interference channel data p p' seen).
  - exfalso. unfold forwardMessageToClients_among in Hrun.
    by destruct (forward_loop_among _ _ _ _ _ _) as [[m1 [[[n1 heap1] ctr1] seen1]]|].
Qed.

Lemma perform_section_run E a p p' :
  state_after (perform E a p) = Some p' -> section_run (p, idle) (p', idle).
Proof.
  destruct a as [c|c|c data|channel data|data|n|c]; cbn [perform]; intros H.
  - injection H as <-. by apply section_run_elsewhere.
  - apply Unregister_keeps_registry in H as [Hreg Hsubs].
    by apply section_run_elsewhere.
  - unfold handleClientMessage in H.
    assert (Herr : forall errorMsg,
               state_after (sendErrorToClient E c errorMsg p) = Some p' ->
               section_run (p, idle) (p', idle)).
    { intros errorMsg He. apply section_run_elsewhere.
      - by apply on_client_only_heap in He as [(_ & _ & Hreg & _) _].
      - unfold sendErrorToClient in He. exact (send_subscriptions _ _ _ _ He). }
    destruct (json_Unmarshal E data) as [msg|]; [|by eapply Herr].
    destruct (String.eqb (WSMessage.Method msg) "subscribe").
    { destruct (WSMessage.Subscription msg) as [sub|]; [|by eapply Herr].
      pose proof (handleSubscribe_registry E c sub p p' H) as Hreg. cbv zeta in Hreg.
      pose proof (handleSubscribe_subscriptions E c sub p p' H) as Hsubs.
      destruct (handleSubscribe_locked_spec E c sub p) as [Hreg1 Hheap1].
      cbv zeta in Hreg1.
      eapply section_run_step; [eapply section_run_step;
                                [eapply section_run_step; [apply section_run_start|]|]|].
      - apply (section_subscribe_locked E c sub).
      - apply section_AddSubscription.
      - apply section_elsewhere.
        + by rewrite Hreg, <- Hreg1.
        + intros x. rewrite Hsubs. unfold AddSubscription. cbn [heap set_heap].
          rewrite Hheap1. unfold client.store. by destruct (decide (x = c)). }
    destruct (String.eqb (WSMessage.Method msg) "unsubscribe").
    { destruct (WSMessage.Subscription msg) as [sub|]; [|by eapply Herr].
      pose proof (handleUnsubscribe_registry E c sub p p' H) as Hreg.
      pose proof (handleUnsubscribe_subscriptions E c sub p p' H) as Hsubs.
      destruct (handleUnsubscribe_locked_spec c sub p) as [Hreg1 Hheap1].
      eapply section_run_step; [eapply section_run_step;
                                [eapply section_run_step; [apply section_run_start|]|]|].
      - apply (section_unsubscribe_locked c sub).
      - apply section_RemoveSubscription.
      - apply section_elsewhere.
        + rewrite Hreg. cbn [globalSubscriptions RemoveSubscription set_heap].
          by rewrite Hreg1.
        + intros x. rewrite Hsubs. unfold RemoveSubscription. cbn [heap set_heap].
          rewrite Hheap1. unfold client.store. by destruct (decide (x = c)). }
    destruct (String.eqb (WSMessage.Method msg) "post"); [|by eapply Herr].
    apply section_run_elsewhere.
    + by eapply handlePostRequest_keeps_registry.
    + by eapply handlePostRequest_subscriptions.
  - by eapply forwardMessageToClients_section.
  - unfold handleHyperliquidMessage in H.
    destruct (json_Unmarshal E data) as [msg|];
      [|injection H as <-; apply section_run_start].
    destruct (_ || _); [injection H as <-; apply section_run_start|].
    by eapply forwardMessageToClients_section.
  - destruct (goroutines p !! n) as [g|]; [|injection H as <-; apply section_run_start].
    set (q := set_goroutines (take n (goroutines p) ++ drop (S n) (goroutines p)) p) in *.
    pose proof (run_goroutine_subscriptions E g q p' H) as Hsubs.
    destruct g as [c sub key|sub].
    + apply run_goroutine_Subscribe_registry in H as [Hreg|Hreg].
      * by apply section_run_elsewhere.
      * eapply section_run_step.
        -- apply (section_run_elsewhere p
                    (set_globalSubscriptions (globalSubscriptions p) p')); [done|].
           intros x. cbn [heap set_globalSubscriptions]. by rewrite (Hsubs x).
        -- replace p' with
             (set_globalSubscriptions
                (delete key (globalSubscriptions
                               (set_globalSubscriptions (globalSubscriptions p) p')))
                (set_globalSubscriptions (globalSubscriptions p) p')) at 2.
           { apply section_subscribe_failed. }
           destruct p'. cbn in *. by rewrite Hreg.
    + subst q. cbn [heap set_goroutines] in Hsubs.
      apply section_run_elsewhere; [|done].
      unfold run_goroutine in H. cbn [hlConnector set_goroutines] in H.
      destruct (hlConnector p) as [connector|]; [|by injection H as <-].
      destruct (hyperliquid.Unsubscribe _ sub connector) as [connector' e].
      by injection H as <-.
  - injection H as <-. apply section_run_elsewhere; [done|].
    intros x. unfold writePump_receive. cbn [heap set_heap]. unfold client.store.
    by destruct (decide (x = c)) as [->|].
Qed.

Lemma reachable_section_run p0 p :
  reachable p0 p -> section_run (p0, idle) (p, idle).
Proof.
  intros Hreach. induction Hreach as [|p p' _ IH Hstep]; [apply section_run_start|].
  destruct Hstep as [E a p p' Hperform].
  eapply section_run_trans; [exact IH|]. by eapply perform_section_run.
Qed.

(** X19: whatever the goroutines of the gateway do and in whatever order
    they take their turns - the locked section of a subscribe or an
    unsubscribe request, the update of the subscription set that follows
    it, a publish with the other goroutines working on the queues, the
    removal of an entry by a failed upstream subscription, and everything
    that writes neither the registry nor a subscription set - every
    session of a registry entry holds the key of the entry among its own
    subscriptions, with one exception: the session whose subscribe request
    has left the locked section and has not yet updated its subscription
    set. Between two requests there is no exception. The runs in which
    every request, publish and goroutine is one step are among these
    runs. *)
Theorem registry_sessions_hold_the_key EnableLocalNode LocalNodeDataPath :
  (forall p ph,
      section_run (NewProxy EnableLocalNode LocalNodeDataPath, idle) (p, ph) ->
      (forall key info c,
          globalSubscriptions p !! key = Some info ->
          c ∈ Clients info ->
          is_Some (client.Subscriptions (heap p c) !! key) \/
          exists sub, ph = subscribing c sub /\ createSubscriptionKey sub = key) /\
      (ph = idle -> registry_within_sessions p)) /\
  (forall p,
      reachable (NewProxy EnableLocalNode LocalNodeDataPath) p ->
      section_run (NewProxy EnableLocalNode LocalNodeDataPath, idle) (p, idle)).
Proof.
  split; [|intros p; apply reachable_section_run].
  intros p ph Hrun.
  assert (Hst : consistent (p, ph)).
  { remember (p, ph) as st eqn:Heq. clear Heq.
    induction Hrun as [|st st' _ IH Hstep].
    - split; cbn [fst snd]; [|by intros c sub [=]].
      intros key c Hin. exfalso. unfold sessions_of in Hin.
      destruct EnableLocalNode; cbn in Hin; rewrite lookup_empty in Hin;
        by apply elem_of_empty in Hin.
    - by eapply section_step_consistent. }
  destruct Hst as [Hheld _]. cbn [fst snd] in Hheld.
  assert (Hall : forall key info c,
             globalSubscriptions p !! key = Some info ->
             c ∈ Clients info ->
             is_Some (client.Subscriptions (heap p c) !! key) \/
             exists sub, ph = subscribing c sub /\ createSubscriptionKey sub = key).
  { intros key info c Hkey Hc. apply Hheld. unfold sessions_of. by rewrite Hkey. }
  split; [exact Hall|].
  intros -> key info c Hkey Hc.
  by destruct (Hall key info c Hkey Hc) as [Hsome|(sub & [=] & _)].
Qed.

Lemma registry_sessions_hold_the_key_witness :
  (Clients <$> globalSubscriptions in_the_window !! "trades-ETH"%string = Some {[1%nat]} /\
   client.Subscriptions (heap in_the_window 1%nat) !! "trades-ETH"%string = None) /\
  (Clients <$> globalSubscriptions past_the_window !! "trades-ETH"%string
   = Some {[1%nat]} /\
   is_Some (client.Subscriptions (heap past_the_window 1%nat) !! "trades-ETH"%string)) /\
  (Clients <$> globalSubscriptions local_subscribed !! "trades-ETH"%string
   = Some {[1%nat]} /\
   is_Some (client.Subscriptions (heap local_subscribed 1%nat) !! "trades-ETH"%string)).
Proof.
  assert (Hrun : section_run (NewProxy true "/data", idle) (past_the_window, idle)).
  { eapply section_run_step; [eapply section_run_step; [apply section_run_start|]|].
    - apply (section_subscribe_locked E 1%nat sub_trades_ETH).
    - apply section_AddSubscription. }
  pose proof (proj2 (proj1 (registry_sessions_hold_the_key true "/data")
                       past_the_window idle Hrun) eq_refl) as H.
  assert (Hkey : globalSubscriptions past_the_window !! "trades-ETH"%string
                 = Some (mkSubscriptionInfo sub_trades_ETH {[1%nat]} None 1700000000))
    by (by vm_compute).
  split; [split; vm_compute; reflexivity|]. split.
  - split; [by rewrite Hkey|].
    apply (H "trades-ETH"%string _ 1%nat Hkey). cbn [Clients]. by apply elem_of_singleton.
  - assert (Hstep : state_after (perform E (act_ClientMessage 1%nat "subscribe trades ETH")
                                   local) = Some local_subscribed).
    { apply state_after_default. by vm_compute. }
    assert (Hreach : reachable (NewProxy true "/data") local_subscribed).
    { eapply reachable_step; [apply reachable_start|]. econstructor. exact Hstep. }
    pose proof (proj2 (registry_sessions_hold_the_key true "/data") local_subscribed Hreach)
      as Hrun'.
    pose proof (proj2 (proj1 (registry_sessions_hold_the_key true "/data")
                         local_subscribed idle Hrun') eq_refl) as H'.
    assert (Hkey' : globalSubscriptions local_subscribed !! "trades-ETH"%string
                    = Some (mkSubscriptionInfo sub_trades_ETH {[1%nat]} None 1700000000))
      by (by vm_compute).
    split; [by rewrite Hkey'|].
    apply (H' "trades-ETH"%string _ 1%nat Hkey'). cbn [Clients].
    by apply elem_of_singleton.
Defined.

End consistency.

(** ** The gateway in local mode *)

Section local_mode.
Import types local_node_reader proxy registry_examples delivery_examples upstream_examples.

Lemma blocking_sends_fit {A} c (g : A -> frame) (frames : list A) : forall p,
  Go.closed (client.Send (heap p c)) = false ->
  (length frames <= room p c)%nat ->
  exists p',
    fold_left (fun acc a => Go.and_then acc (on_client c (client.blocking_send (g a))))
              frames (Go.Returns p) = Go.Returns p' /\
    only_heap p p' /\
    (forall c', c' <> c -> heap p' c' = heap p c') /\
    client.Subscriptions (heap p' c) = client.Subscriptions (heap p c) /\
    client.Send (heap p' c)
    = Go.mkchan (Go.buf (client.Send (heap p c)) ++ map g frames)
                (Go.cap (client.Send (heap p c))) false.
Proof.
  induction frames as [|a frames IH]; intros p Hopen Hroom.
  { exists p. split; [done|]. split; [apply only_heap_refl|]. split; [done|].
    split; [done|]. cbn. rewrite app_nil_r, <- Hopen. by destruct (client.Send (heap p c)). }
  cbn [fold_left length] in *. unfold room in Hroom.
  cbn [Go.and_then]. unfold on_client at 2, client.blocking_send at 2.
  rewrite Hopen. unfold Go.full.
  replace (Go.cap (client.Send (heap p c)) <=? length (Go.buf (client.Send (heap p c))))%nat
    with false by (symmetry; apply Nat.leb_gt; lia).
  set (p1 := set_heap _ p).
  assert (Hp1 : client.Send (heap p1 c) = Go.enqueue (client.Send (heap p c)) (g a)).
  { subst p1. cbn. by rewrite heap_store_eq. }
  destruct (IH p1) as (p' & Hrun & Honly & Hother & Hsubs & Hsend).
  { by rewrite Hp1. }
  { unfold room. rewrite Hp1. cbn. rewrite length_app. cbn. lia. }
  exists p'. split; [exact Hrun|]. split; [|split; [|split]].
  - eapply only_heap_trans; [|exact Honly]. by repeat split.
  - intros c' Hne. rewrite Hother by done. subst p1. cbn. by rewrite heap_store_ne.
  - rewrite Hsubs. subst p1. cbn. by rewrite heap_store_eq.
  - rewrite Hsend, Hp1. cbn. by rewrite <- app_assoc.
Qed.

Lemma blocking_sends_blocked {A} c (g : A -> frame) (frames : list A) p :
  fold_left (fun acc a => Go.and_then acc (on_client c (client.blocking_send (g a))))
            frames (Go.Blocks p) = Go.Blocks p.
Proof. induction frames as [|a frames IH]; [done|]. cbn. apply IH. Qed.

Lemma blocking_sends_park {A} c (g : A -> frame) (frames : list A) : forall p,
  Go.closed (client.Send (heap p c)) = false ->
  (room p c < length frames)%nat ->
  exists p',
    fold_left (fun acc a => Go.and_then acc (on_client c (client.blocking_send (g a))))
              frames (Go.Returns p) = Go.Blocks p' /\
    globalSubscriptions p' = globalSubscriptions p.
Proof.
  induction frames as [|a frames IH]; intros p Hopen Hroom; [cbn in Hroom; lia|].
  cbn [fold_left length] in *. unfold room in Hroom.
  cbn [Go.and_then]. unfold on_client at 2, client.blocking_send at 2.
  rewrite Hopen. unfold Go.full.
  destruct (Go.cap (client.Send (heap p c)) <=? length (Go.buf (client.Send (heap p c))))%nat
    eqn:Hfull.
  - rewrite blocking_sends_blocked. by eexists.
  - apply Nat.leb_gt in Hfull.
    set (p1 := set_heap _ p).
    assert (Hp1 : client.Send (heap p1 c) = Go.enqueue (client.Send (heap p c)) (g a)).
    { subst p1. cbn. by rewrite heap_store_eq. }
    destruct (IH p1) as (p' & Hrun & Hreg).
    { by rewrite Hp1. }
    { unfold room. rewrite Hp1. cbn. rewrite length_app. cbn. lia. }
    exists p'. by split.
Qed.

Lemma GetLatestTrades_length r coin limit :
  (0 < limit)%Z -> (length (GetLatestTrades r coin limit) <= Z.to_nat limit)%nat.
Proof.
  intros Hlimit. unfold GetLatestTrades. destruct (latestTrades r !! coin) as [trades|];
    [|cbn; lia].
  unfold Go.len_list. destruct (_ && _) eqn:Hcond.
  - rewrite length_drop. lia.
  - apply andb_false_iff in Hcond as [H|H]; lia.
Qed.

(** X20: in local mode a session that subscribes to the trades of a coin
    is sent the subscription response and then the most recent trades of
    the coin, five at most, oldest first. The trades are sent with
    blocking sends: when the queue of the session is open and has room
    for all of them the request returns with the frames queued in that
    order; when it has not, the request does not return: the goroutine
    that serves the requests of all sessions is parked, with the session
    already in the registry. *)
Theorem new_trades_subscriber_is_sent_the_recent_trades E c sub p r :
  useLocalNode p = true ->
  localNodeReader p = Some r ->
  SubscriptionRequest.Type_ sub = "trades"%string ->
  SubscriptionRequest.Coin sub <> EmptyString ->
  Go.closed (client.Send (heap p c)) = false ->
  let trades := GetLatestTrades r (SubscriptionRequest.Coin sub) 5 in
  (length trades <= 5)%nat /\
  (length trades < room p c ->
   exists p',
     handleSubscribe E c (Some sub) p = Go.Returns p' /\
     Go.buf (client.Send (heap p' c))
     = Go.buf (client.Send (heap p c))
       ++ SubscriptionResponse "subscribe" sub :: map Trades trades) /\
  (trades <> [] -> room p c <= length trades ->
   exists p',
     handleSubscribe E c (Some sub) p = Go.Blocks p' /\
     c ∈ sessions_of (globalSubscriptions p') (createSubscriptionKey sub)).
Proof.
  intros Hlocal Hreader Htype Hcoin Hopen trades.
  split; [apply (GetLatestTrades_length r _ 5); lia|].
  assert (Hinitial : forall q,
             sendInitialLocalNodeData r c sub q
             = fold_left
                 (fun acc trade =>
                    Go.and_then acc (on_client c (client.blocking_send (Trades trade))))
                 trades (Go.Returns q)).
  { intros q. unfold sendInitialLocalNodeData. rewrite Htype. cbn [String.eqb].
    replace (String.eqb "trades" "allMids") with false by reflexivity.
    replace (String.eqb "trades" "trades") with true by reflexivity.
    apply String.eqb_neq in Hcoin. by rewrite Hcoin. }
  (* the state when the response is sent *)
  unfold handleSubscribe.
  set (key := createSubscriptionKey sub).
  assert (Hbody : forall (subInfo : SubscriptionInfo) (q : Proxy),
             useLocalNode q = true -> localNodeReader q = Some r ->
             Go.closed (client.Send (heap q c)) = false ->
             room q c = room p c ->
             Go.buf (client.Send (heap q c)) = Go.buf (client.Send (heap p c)) ->
             c ∈ sessions_of (globalSubscriptions q) key ->
             let call :=
               Go.and_then
                 (on_client c (client.SendMessage (SubscriptionResponse "subscribe" sub)) q)
                 (fun p =>
                    match useLocalNode p, localNodeReader p with
                    | true, Some r => sendInitialLocalNodeData r c sub p
                    | _, _ =>
                        match LastMessage subInfo with
                        | Some lastMessage =>
                            on_client c (client.blocking_send lastMessage) p
                        | None => Go.Returns p
                        end
                    end) in
             (length trades < room p c ->
              exists p',
                call = Go.Returns p' /\
                Go.buf (client.Send (heap p' c))
                = Go.buf (client.Send (heap p c))
                  ++ SubscriptionResponse "subscribe" sub :: map Trades trades) /\
             (trades <> [] -> room p c <= length trades ->
              exists p', call = Go.Blocks p' /\
                         c ∈ sessions_of (globalSubscriptions p') key)).
  { intros subInfo q Hql Hqr Hqopen Hqroom Hqbuf Hqin. cbv zeta.
    destruct (SendMessage_open c (SubscriptionResponse "subscribe" sub) q Hqopen)
      as (q1 & Hsend & Honly & _ & _ & Hqueue).
    rewrite Hsend. cbn [Go.and_then].
    destruct Honly as (_ & _ & Hreg1 & Hr1 & Hl1 & _).
    rewrite Hl1, Hql, Hr1, Hqr, Hinitial.
    assert (Hopen1 : Go.closed (client.Send (heap q1 c)) = false).
    { rewrite Hqueue. by destruct (Go.full _). }
    split.
    - intros Hfit.
      assert (Hfull : Go.full (client.Send (heap q c)) = false).
      { unfold Go.full. apply Nat.leb_gt. unfold room in Hqroom, Hfit. lia. }
      rewrite Hfull in Hqueue.
      destruct (blocking_sends_fit c Trades trades q1 Hopen1)
        as (p' & Hrun & _ & _ & _ & Hsent).
      { unfold room in *. rewrite Hqueue. cbn. rewrite length_app. cbn. lia. }
      exists p'. split; [exact Hrun|].
      rewrite Hsent, Hqueue. cbn. by rewrite <- app_assoc, Hqbuf.
    - intros Hne Hnofit.
      destruct (blocking_sends_park c Trades trades q1 Hopen1) as (p' & Hrun & Hreg).
      { unfold room in *. rewrite Hqueue. unfold Go.full.
        destruct (Go.cap (client.Send (heap q c))
                  <=? length (Go.buf (client.Send (heap q c))))%nat eqn:Hfull.
        - apply Nat.leb_le in Hfull. destruct trades; [done|]. cbn. lia.
        - apply Nat.leb_gt in Hfull. cbn. rewrite length_app. cbn. lia. }
      exists p'. split; [exact Hrun|]. by rewrite Hreg, Hreg1. }
  assert (Hin : forall info : SubscriptionInfo, c ∈ {[c]} ∪ Clients info).
  { intros info. apply elem_of_union_l. by apply elem_of_singleton. }
  destruct (globalSubscriptions p !! key) as [subInfo|] eqn:Hkey;
    [|destruct (negb (useLocalNode _) && bool_decide (hlConnector _ <> None))];
    (apply Hbody;
     [ exact Hlocal
     | exact Hreader
     | cbn [heap set_heap]; rewrite heap_store_eq; exact Hopen
     | unfold room; cbn [heap set_heap]; by rewrite heap_store_eq
     | cbn [heap set_heap]; by rewrite heap_store_eq
     | unfold sessions_of;
       cbn [globalSubscriptions set_heap set_globalSubscriptions];
       rewrite lookup_insert_eq; apply Hin ]).
Qed.

Lemma new_trades_subscriber_is_sent_the_recent_trades_witness :
  (exists p',
      handleSubscribe E 1%nat (Some sub_trades_ETH) (local_with_trades 4) = Go.Returns p' /\
      Go.buf (client.Send (heap p' 1%nat))
      = [SubscriptionResponse "subscribe" sub_trades_ETH;
         Trades (trade 1); Trades (trade 2); Trades (trade 3)]) /\
  (exists p',
      handleSubscribe E 1%nat (Some sub_trades_ETH) (local_with_trades 2) = Go.Blocks p').
Proof.
  assert (Hcoin : SubscriptionRequest.Coin sub_trades_ETH <> EmptyString) by discriminate.
  split.
  - destruct (new_trades_subscriber_is_sent_the_recent_trades E 1%nat sub_trades_ETH
                (local_with_trades 4) reader_with_trades eq_refl eq_refl eq_refl Hcoin
                eq_refl) as (_ & Hfit & _).
    assert (Hroom : (length (GetLatestTrades reader_with_trades
                               (SubscriptionRequest.Coin sub_trades_ETH) 5)
                     < room (local_with_trades 4) 1%nat)%nat) by (vm_compute; lia).
    destruct (Hfit Hroom) as (p' & Hrun & Hbuf). exists p'. by split.
  - destruct (new_trades_subscriber_is_sent_the_recent_trades E 1%nat sub_trades_ETH
                (local_with_trades 2) reader_with_trades eq_refl eq_refl eq_refl Hcoin
                eq_refl) as (_ & _ & Hpark).
    assert (Hne : GetLatestTrades reader_with_trades
                    (SubscriptionRequest.Coin sub_trades_ETH) 5 <> []) by discriminate.
    assert (Hroom : (room (local_with_trades 2) 1%nat
                     <= length (GetLatestTrades reader_with_trades
                                  (SubscriptionRequest.Coin sub_trades_ETH) 5))%nat)
      by (vm_compute; lia).
    destruct (Hpark Hne Hroom) as (p' & Hrun & _). by exists p'.
Defined.

Lemma allPrices_fold r coin : forall l (m : gmap string string),
  fold_left
    (fun m coin =>
       match GetLatestPrice r coin with
       | Some price => <[coin := price]> m
       | None => m
       end) l m !! coin
  = match (if decide (coin ∈ l) then GetLatestPrice r coin else None) with
    | Some price => Some price
    | None => m !! coin
    end.
Proof.
  induction l as [|coin0 l IH]; intros m.
  { cbn. by rewrite decide_False by apply not_elem_of_nil. }
  cbn [fold_left]. rewrite IH.
  destruct (decide (coin ∈ l)) as [Hin|Hnotin].
  - rewrite decide_True by (by right).
    destruct (GetLatestPrice r coin) as [price|] eqn:Hprice; [done|].
    destruct (GetLatestPrice r coin0) as [price0|] eqn:Hprice0; [|done].
    rewrite lookup_insert_ne; [done|]. intros ->. congruence.
  - destruct (decide (coin = coin0)) as [->|Hne].
    + rewrite decide_True by left.
      destruct (GetLatestPrice r coin0) as [price0|]; [|done].
      by rewrite lookup_insert_eq.
    + rewrite decide_False by (intros [?|?]%elem_of_cons; done).
      destruct (GetLatestPrice r coin0) as [price0|]; [|done].
      by rewrite lookup_insert_ne.
Qed.

(** X21: the all-prices snapshot of the local mode holds the latest price
    of each of the fifteen listed coins that has one, and nothing else: a
    price the reader has for any other symbol is never part of it. When
    none of the listed coins has a price the periodic all-prices update
    publishes nothing and changes nothing, whoever is subscribed. *)
Theorem all_prices_cover_the_listed_coins_only r :
  (forall coin price,
      allPrices r !! coin = Some price <->
      coin ∈ coins /\ GetLatestPrice r coin = Some price) /\
  (forall E p,
      localNodeReader p = Some r ->
      (forall coin, coin ∈ coins -> GetLatestPrice r coin = None) ->
      generateAllMidsFromLocalNode E p = Go.Returns p).
Proof.
  assert (Hchar : forall coin price,
             allPrices r !! coin = Some price <->
             coin ∈ coins /\ GetLatestPrice r coin = Some price).
  { intros coin price. unfold allPrices. rewrite allPrices_fold, lookup_empty.
    destruct (decide (coin ∈ coins)) as [Hin|Hnotin].
    - destruct (GetLatestPrice r coin); split; try done; by intros [_ ?].
    - split; [done|]. by intros [? _]. }
  split; [exact Hchar|].
  intros E p Hreader Hnone. unfold generateAllMidsFromLocalNode.
  destruct (negb _); [done|]. rewrite Hreader.
  assert (Hempty : allPrices r = ∅).
  { apply map_eq. intros coin. rewrite lookup_empty.
    destruct (allPrices r !! coin) as [price|] eqn:Hcoin; [|done].
    apply Hchar in Hcoin as [Hin Hprice]. rewrite (Hnone coin Hin) in Hprice. done. }
  by rewrite Hempty, map_size_empty.
Qed.

Lemma all_prices_cover_the_listed_coins_only_witness :
  GetLatestPrice reader_with_trades "HYPE" = Some "40"%string /\
  allPrices reader_with_trades !! "HYPE"%string = None /\
  allPrices reader_with_trades !! "ETH"%string = Some "10"%string.
Proof.
  pose proof (proj1 (all_prices_cover_the_listed_coins_only reader_with_trades)) as H.
  split; [done|]. split.
  - destruct (allPrices reader_with_trades !! "HYPE"%string) as [price|] eqn:Hprice; [|done].
    apply H in Hprice as [Hin _]. exfalso.
    unfold coins in Hin.
    repeat (apply elem_of_cons in Hin as [Hin|Hin]; [discriminate Hin|]).
    by apply elem_of_nil in Hin.
  - apply H. split; [|done]. unfold coins. right. left.
Defined.

(** X22: when the upstream subscribe of a new entry cannot be sent in
    time, the goroutine deletes the entry of the key from the registry,
    with whatever sessions it holds by then, and sends nothing upstream;
    the connector nevertheless keeps the subscription in its tracked set,
    from which [resubscribeAll] sends it after a reconnection. *)
Theorem failed_upstream_subscribe_stays_tracked E c sub key p connector :
  hlConnector p = Some connector ->
  hyperliquid.isConnected connector = true ->
  times_out (upstream_queue E) ->
  Go.closed (client.Send (heap p c)) = false ->
  exists p' connector',
    run_goroutine E (go_Subscribe c sub key) p = Go.Returns p' /\
    globalSubscriptions p' = delete key (globalSubscriptions p) /\
    hlConnector p' = Some connector' /\
    hyperliquid.subscriptions connector'
      = <[hyperliquid.createSubscriptionKey sub := sub]> (hyperliquid.subscriptions connector) /\
    hyperliquid.outgoingMessages connector' = hyperliquid.outgoingMessages connector.
Proof.
  intros Hconn Hconnected Hqueue Hopen.
  unfold run_goroutine. rewrite Hconn.
  assert (Hsub : hyperliquid.Subscribe (upstream_queue E) sub connector
                 = (hyperliquid.mkConnector true (hyperliquid.outgoingMessages connector)
                      (<[hyperliquid.createSubscriptionKey sub := sub]>
                         (hyperliquid.subscriptions connector))
                      (hyperliquid.postRequests connector)
                      (hyperliquid.nextRequestID connector),
                    Some "send timeout"%string)).
  { unfold hyperliquid.Subscribe, hyperliquid.sendMessage. rewrite Hconnected. cbn [negb].
    destruct Hqueue as [->|(delay & a & -> & Hdelay)]; [done|].
    by replace (delay <? hyperliquid.send_timeout)%Z with false by lia. }
  rewrite Hsub.
  set (connector' := hyperliquid.mkConnector _ _ _ _ _).
  destruct (SendMessage_open c
              (ErrorReply ("Failed to subscribe: " ++ "send timeout") (time_Now E))
              (set_hlConnector (Some connector') p) Hopen)
    as (p1 & Hsend & Honly & _).
  unfold sendErrorToClient. rewrite Hsend. cbn [Go.and_then].
  destruct Honly as (_ & Hc1 & Hreg1 & _).
  eexists _, connector'. split; [reflexivity|].
  cbn [globalSubscriptions hlConnector set_globalSubscriptions].
  by rewrite Hreg1, Hc1.
Qed.

Lemma failed_upstream_subscribe_stays_tracked_witness :
  exists p' connector',
    run_goroutine key_examples.E (go_Subscribe 1%nat sub_trades_ETH "trades-ETH") subscribed
    = Go.Returns p' /\
    globalSubscriptions p' !! "trades-ETH"%string = None /\
    hlConnector p' = Some connector' /\
    hyperliquid.subscriptions connector' !! "trades-ETH"%string = Some sub_trades_ETH.
Proof.
  assert (Hconn : hlConnector subscribed = Some connector_examples.connected)
    by (by vm_compute).
  assert (Hqueue : times_out (upstream_queue key_examples.E)) by (by left).
  assert (Hopen : Go.closed (client.Send (heap subscribed 1%nat)) = false)
    by (by vm_compute).
  destruct (failed_upstream_subscribe_stays_tracked key_examples.E 1%nat sub_trades_ETH
              "trades-ETH" subscribed connector_examples.connected
              Hconn eq_refl Hqueue Hopen)
    as (p' & connector' & Hrun & Hreg & Hc & Hsubs & _).
  exists p', connector'. split; [exact Hrun|]. split; [|split; [exact Hc|]].
  - rewrite Hreg. apply lookup_delete_eq.
  - rewrite Hsubs. apply lookup_insert_eq.
Defined.

(** X23: a request of a session is sent upstream under the next id of the
    connector, not under the id the session gave, and the response of
    the upstream is queued for the session as it came, its id not
    written back. In local mode the request is refused with an error
    frame that carries the id of the session, and the connector is not
    touched. *)
Theorem request_is_relayed_under_the_id_of_the_connector E c msg request id p :
  WSMessage.Request msg = Some request ->
  WSMessage.ID msg = Some id ->
  Go.closed (client.Send (heap p c)) = false ->
  Go.full (client.Send (heap p c)) = false ->
  (useLocalNode p = true ->
   exists p',
     handlePostRequest E c msg p = Go.Returns p' /\
     hlConnector p' = hlConnector p /\
     Go.buf (client.Send (heap p' c))
     = Go.buf (client.Send (heap p c))
       ++ [PostError id "POST requests not supported in local node mode"]) /\
  (forall connector delay wait response,
      useLocalNode p = false ->
      hlConnector p = Some connector ->
      hyperliquid.isConnected connector = true ->
      upstream_queue E = hyperliquid.ReadyAfter delay tt ->
      (delay < hyperliquid.send_timeout)%Z ->
      upstream_reply E = hyperliquid.ReadyAfter wait response ->
      (wait < hyperliquid.response_timeout)%Z ->
      exists p' connector',
        handlePostRequest E c msg p = Go.Returns p' /\
        hlConnector p' = Some connector' /\
        hyperliquid.outgoingMessages connector'
        = hyperliquid.outgoingMessages connector
          ++ [WSMessage.mk "post" None EmptyString EmptyString
                           (Some (hyperliquid.nextRequestID connector))
                           (Some (PostRequest.mk (PostRequest.Type_ request)
                                                 (PostRequest.Payload request)))] /\
        hyperliquid.nextRequestID connector'
        = Go.add64 (hyperliquid.nextRequestID connector) 1 /\
        Go.buf (client.Send (heap p' c))
        = Go.buf (client.Send (heap p c)) ++ [Post response]).
Proof.
  intros Hrequest Hid Hopen Hroom. unfold handlePostRequest. rewrite Hrequest, Hid. split.
  - intros ->. unfold sendPostErrorToClient.
    destruct (SendMessage_open c
                (PostError id "POST requests not supported in local node mode") p Hopen)
      as (p' & Hsend & (_ & Hc & _) & _ & _ & Hqueue).
    exists p'. split; [exact Hsend|]. split; [exact Hc|].
    by rewrite Hqueue, Hroom.
  - intros connector delay wait response -> -> Hconnected Hqueue Hdelay Hreply Hwait.
    unfold hyperliquid.PostRequest, hyperliquid.PostRequest_send, hyperliquid.sendMessage,
      hyperliquid.arrival.
    rewrite Hconnected, Hqueue, Hreply. cbn [negb].
    replace (delay <? hyperliquid.send_timeout)%Z with true by lia.
    replace (wait <? hyperliquid.response_timeout)%Z with true by lia.
    unfold hyperliquid.handlePostResponse. cbn [hyperliquid.postRequests].
    rewrite lookup_insert_eq.
    change (Go.select_send (Go.make 1) response)
      with (Go.Sent (Go.mkchan [response] 1 false)).
    unfold hyperliquid.slot_content. cbn [hyperliquid.postRequests].
    rewrite lookup_insert_eq. cbn [Go.buf head].
    cbn [hyperliquid.err hyperliquid.response].
    match goal with |- context [set_hlConnector (Some ?c0) p] => set (connector' := c0) end.
    assert (Hopen' : Go.closed (client.Send (heap (set_hlConnector (Some connector') p) c))
                     = false) by exact Hopen.
    destruct (SendMessage_open c (Post response) (set_hlConnector (Some connector') p) Hopen')
      as (p' & Hsend & (_ & Hc & _) & _ & _ & Hsent).
    exists p', connector'. split; [exact Hsend|]. split; [exact Hc|].
    split; [done|]. split; [done|].
    rewrite Hsent. cbn [heap set_hlConnector]. by rewrite Hroom.
Qed.

Lemma request_is_relayed_under_the_id_of_the_connector_witness :
  exists p' connector',
    handlePostRequest answering 1%nat post_41 connected = Go.Returns p' /\
    hlConnector p' = Some connector' /\
    WSMessage.ID <$> last (hyperliquid.outgoingMessages connector') = Some (Some 1%Z) /\
    Go.buf (client.Send (heap p' 1%nat)) = [Post connector_examples.answer] /\
    PostResponse.ID connector_examples.answer = 1%Z.
Proof.
  destruct (proj2 (request_is_relayed_under_the_id_of_the_connector answering 1%nat post_41
                     (PostRequest.mk "info" "{}") 41 connected eq_refl eq_refl eq_refl
                     eq_refl)
              connector_examples.connected 0%Z 20%Z connector_examples.answer
              eq_refl eq_refl eq_refl eq_refl eq_refl eq_refl eq_refl)
    as (p' & connector' & Hrun & Hc & Hout & _ & Hbuf).
  exists p', connector'. split; [exact Hrun|]. split; [exact Hc|].
  split; [by rewrite Hout|]. split; [exact Hbuf|done].
Defined.

End local_mode.
